(** * Serial frame acquisition of the GD32H759 board support package

    The firmware receives variable-length frames on three serial links
    (USART0 for the host, USART1 for a terminal, UART4 for a wireless module).  Each link owns a
    receive buffer filled by a circular DMA channel, an idle-line interrupt
    that snapshots the number of bytes moved, and a single-pulse timer whose
    update interrupt finalizes the frame.

    This file embeds [BSP/USART/usart.c] and [BSP/TIMER/timer.c] (the
    DMA branch, [BSP_USART_SUPPORT_DMA = 1]) as functions of an explicit
    machine state, together with the peripheral behaviour they rely on, and
    proves the properties of the frame link. *)

From Stdlib Require Import ZArith Lia List.
From stdpp Require Import base decidable option functions numbers list.

Local Open Scope Z_scope.

(** ** Constants of [usart.h] *)

Definition BSP_USART_RECEIVE_LENGTH : Z := 1024.
Definition USART_TERMINAL_RECEIVE_LENGTH : Z := 1024.
Definition UART4_RECEIVE_LENGTH : Z := 1024.
Definition USART_TERMINAL_SEND_LENGTH : Z := 1024.
Definition UART4_SEND_LENGTH : Z := 1024.

(** ** Peripherals and global variables *)

(** DMA controller; the firmware only programs [DMA0]. *)
Inductive dma_periph := DMA0.

(** [dma_channel_enum]: channels are numbered 0..7, the source computes with
    the numbers ([DMA_CH4 - 4]). *)
Definition DMA_CH0 : Z := 0.
Definition DMA_CH2 : Z := 2.
Definition DMA_CH3 : Z := 3.
Definition DMA_CH4 : Z := 4.
Definition DMA_CH5 : Z := 5.
Definition BSP_USART_DMA : dma_periph := DMA0.
Definition BSP_USART_RX_DMA_CHANNEL : Z := DMA_CH0.

Inductive usart_periph := USART0 | USART1 | UART4.
Definition BSP_USART : usart_periph := USART0.

Inductive timer_periph := TIMER5 | TIMER6 | TIMER15.

(** The receive buffers, [uint8_t name[LENGTH + 1]]. *)
Inductive buff_var :=
  | g_bsp_usart_recv_buff
  | g_usart_terminal_recv_buff
  | g_uart4_recv_buff.

(** The [uint16_t] received-length counters. *)
Inductive u16_var :=
  | g_bsp_usart_recv_length
  | g_usart_terminal_recv_length
  | g_uart4_recv_length.

(** The [uint8_t] receive-complete flags. *)
Inductive u8_var :=
  | g_bsp_usart_recv_complete_flag
  | g_usart_terminal_recv_complete_flag
  | g_uart4_recv_complete_flag.

#[global] Instance usart_periph_eq_dec : EqDecision usart_periph.
Proof. solve_decision. Defined.
#[global] Instance timer_periph_eq_dec : EqDecision timer_periph.
Proof. solve_decision. Defined.
#[global] Instance buff_var_eq_dec : EqDecision buff_var.
Proof. solve_decision. Defined.
#[global] Instance u16_var_eq_dec : EqDecision u16_var.
Proof. solve_decision. Defined.
#[global] Instance u8_var_eq_dec : EqDecision u8_var.
Proof. solve_decision. Defined.

(** Registers of one DMA channel, as far as the receive path uses them.
    [chmoff] is the channel's internal memory pointer, as an offset from the
    memory-0 base address; [chnum] is the transfer number that a circular
    channel reloads into [chcnt]. *)
Record dma_chan := mk_dma_chan {
  chen   : bool;             (* CHEN: channel enabled *)
  chcnt  : Z;                (* CHxCNT: transfers remaining *)
  chnum  : Z;                (* programmed transfer number *)
  chm0   : option buff_var;  (* CHxM0ADDR *)
  chmoff : Z;                (* bytes written since the pointer was loaded *)
  chcirc : bool;             (* CMEN: circular mode *)
  chftf  : bool              (* FTFIF: full transfer finish flag *)
}.

(** Registers of a basic timer.  One [tick] is one counter clock, after
    the prescaler. *)
Record timer_regs := mk_timer_regs {
  cen  : bool;   (* counter enable *)
  tcnt : Z;      (* counter *)
  tpsc : Z;      (* prescaler *)
  car  : Z;      (* auto reload value *)
  spm  : bool;   (* single pulse mode *)
  upif : bool    (* update interrupt flag *)
}.

(** What the processor did, in program order: every register or memory
    write of the modelled functions is recorded. *)
Inductive op :=
  | OpDmaDeinit (ch : Z)
  | OpDmaInit (ch : Z)
  | OpDmaChannelDisable (ch : Z)
  | OpDmaChannelEnable (ch : Z)
  | OpDmaFlagsClear (ch : Z)
  | OpDmaTransferNumber (ch : Z) (n : Z)
  | OpStore16 (v : u16_var) (x : Z)
  | OpStore8 (v : u8_var) (x : Z)
  | OpStoreBuff (v : buff_var) (i : Z) (x : Z)
  | OpMemset (v : buff_var) (x : Z) (n : Z)
  | OpUsartIdleClear (u : usart_periph)
  | OpTimerConfig (t : timer_periph)
  | OpTimerCounter (t : timer_periph) (x : Z)
  | OpTimerEnable (t : timer_periph)
  | OpTimerDisable (t : timer_periph)
  | OpTimerUpClear (t : timer_periph).

#[global] Instance op_eq_dec : EqDecision op.
Proof. solve_decision. Defined.

(** The machine: global variables, peripheral registers, and the log. *)
Record mcu := mk_mcu {
  buffs  : buff_var → list Z;
  u16s   : u16_var → Z;
  u8s    : u8_var → Z;
  dma0   : Z → dma_chan;
  idle   : usart_periph → bool;      (* IDLEF of each USART *)
  timers : timer_periph → timer_regs;
  oplog  : list op
}.

Definition set_buffs (f : (buff_var → list Z) → buff_var → list Z) (s : mcu) : mcu :=
  mk_mcu (f (buffs s)) (u16s s) (u8s s) (dma0 s) (idle s) (timers s) (oplog s).
Definition set_u16s (f : (u16_var → Z) → u16_var → Z) (s : mcu) : mcu :=
  mk_mcu (buffs s) (f (u16s s)) (u8s s) (dma0 s) (idle s) (timers s) (oplog s).
Definition set_u8s (f : (u8_var → Z) → u8_var → Z) (s : mcu) : mcu :=
  mk_mcu (buffs s) (u16s s) (f (u8s s)) (dma0 s) (idle s) (timers s) (oplog s).
Definition set_dma0 (f : (Z → dma_chan) → Z → dma_chan) (s : mcu) : mcu :=
  mk_mcu (buffs s) (u16s s) (u8s s) (f (dma0 s)) (idle s) (timers s) (oplog s).
Definition set_idle (f : (usart_periph → bool) → usart_periph → bool) (s : mcu) : mcu :=
  mk_mcu (buffs s) (u16s s) (u8s s) (dma0 s) (f (idle s)) (timers s) (oplog s).
Definition set_timers (f : (timer_periph → timer_regs) → timer_periph → timer_regs)
    (s : mcu) : mcu :=
  mk_mcu (buffs s) (u16s s) (u8s s) (dma0 s) (idle s) (f (timers s)) (oplog s).
Definition log (o : op) (s : mcu) : mcu :=
  mk_mcu (buffs s) (u16s s) (u8s s) (dma0 s) (idle s) (timers s) (oplog s ++ [o]).

(** ** Processor code: a state monad with failure

    A computation either yields a value and a new machine state or fails;
    the only failure is a store outside an array. *)

Definition M (A : Type) : Type := mcu → option (A * mcu).

#[global] Instance M_ret : MRet M := λ A x s, Some (x, s).
#[global] Instance M_bind : MBind M := λ A B f m s,
  match m s with
  | Some (x, s') => f x s'
  | None => None
  end.

Definition gets {A} (f : mcu → A) : M A := λ s, Some (f s, s).
Definition modify (f : mcu → mcu) : M unit := λ s, Some (tt, f s).

(** Run a procedure for its effect. *)
Definition exec (m : M unit) (s : mcu) : option mcu := snd <$> m s.

(** C integer conversions. *)
Definition u16 (x : Z) : Z := x mod 2 ^ 16.
Definition u32 (x : Z) : Z := x mod 2 ^ 32.
Definition u8 (x : Z) : Z := x mod 2 ^ 8.

(** Global variable access. *)
Definition load16 (v : u16_var) : M Z := gets (λ s, u16s s v).
Definition store16 (v : u16_var) (x : Z) : M unit :=
  modify (λ s, log (OpStore16 v (u16 x)) (set_u16s <[v := u16 x]> s)).
Definition load8 (v : u8_var) : M Z := gets (λ s, u8s s v).
Definition store8 (v : u8_var) (x : Z) : M unit :=
  modify (λ s, log (OpStore8 v (u8 x)) (set_u8s <[v := u8 x]> s)).

(** [v[i] = x]: defined only inside the array. *)
Definition store_buff (v : buff_var) (i x : Z) : M unit := λ s,
  if (0 <=? i) && (i <? Z.of_nat (length (buffs s v)))
  then Some (tt, log (OpStoreBuff v i (u8 x))
                   (set_buffs <[v := <[Z.to_nat i := u8 x]> (buffs s v)]> s))
  else None.

(** [memset(v, x, n)]. *)
Definition memset (v : buff_var) (x n : Z) : M unit := λ s,
  if (0 <=? n) && (n <=? Z.of_nat (length (buffs s v)))
  then Some (tt, log (OpMemset v (u8 x) n)
                   (set_buffs <[v := replicate (Z.to_nat n) (u8 x)
                                       ++ drop (Z.to_nat n) (buffs s v)]> s))
  else None.

(** ** Vendor driver calls

    The GD32H7xx peripheral library ([gd32h7xx_libopt.h]) is used by the
    sources but is not among them.  Each call below is a register access of
    the peripheral it names; what the registers mean follows the transport
    and timer contracts of the specification. *)

Definition upd_chan (ch : Z) (f : dma_chan → dma_chan) : mcu → mcu :=
  set_dma0 (λ d, <[ch := f (d ch)]> d).
Definition upd_timer (t : timer_periph) (f : timer_regs → timer_regs) : mcu → mcu :=
  set_timers (λ d, <[t := f (d t)]> d).

(** The fields of [dma_single_data_parameter_struct] that decide where and
    how much the channel writes. *)
Record dma_single_data_parameter_struct := {
  memory0_addr  : buff_var;
  number        : Z;
  circular_mode : bool
}.

Inductive dma_flag := DMA_FLAG_FTF.
Inductive usart_interrupt_flag := USART_INT_FLAG_IDLE.
Inductive timer_interrupt_flag := TIMER_INT_FLAG_UP.
Inductive timer_sp_mode := TIMER_SP_MODE_SINGLE | TIMER_SP_MODE_REPETITIVE.

Record timer_parameter_struct := {
  prescaler : Z;
  period    : Z
}.

(** Modelled from the spec: [dma_deinit] (vendor library, absent) puts the
    channel back to its reset state: disabled, nothing to transfer. *)
Definition dma_deinit (_ : dma_periph) (ch : Z) : M unit :=
  modify (λ s, log (OpDmaDeinit ch)
    (upd_chan ch (λ _, mk_dma_chan false 0 0 None 0 false false) s)).

(** Modelled from the spec: [dma_single_data_mode_init] (vendor library,
    absent) programs base address, transfer number and circular mode. *)
Definition dma_single_data_mode_init (_ : dma_periph) (ch : Z)
    (p : dma_single_data_parameter_struct) : M unit :=
  modify (λ s, log (OpDmaInit ch)
    (upd_chan ch (λ c, mk_dma_chan (chen c) (number p) (number p)
                         (Some (memory0_addr p)) (chmoff c) (circular_mode p) (chftf c)) s)).

(** Modelled from the spec: [dma_single_data_mode_init] (vendor library,
    absent) for a channel whose memory is a send buffer: transfer number
    and circular mode.  The machine keeps the receive buffers only; which
    send buffer the channel reads is kept with the send buffers. *)
Definition dma_single_data_mode_init_send (_ : dma_periph) (ch : Z)
    (number : Z) (circular_mode : bool) : M unit :=
  modify (λ s, log (OpDmaInit ch)
    (upd_chan ch (λ c, mk_dma_chan (chen c) number number None (chmoff c)
                         circular_mode (chftf c)) s)).

(** Modelled from the spec: transport [enable()]; an enabled channel starts
    writing at the buffer origin. *)
Definition dma_channel_enable (_ : dma_periph) (ch : Z) : M unit :=
  modify (λ s, log (OpDmaChannelEnable ch)
    (upd_chan ch (λ c, mk_dma_chan true (chcnt c) (chnum c) (chm0 c) 0 (chcirc c) (chftf c)) s)).

(** Modelled from the spec: transport [disable()]. *)
Definition dma_channel_disable (_ : dma_periph) (ch : Z) : M unit :=
  modify (λ s, log (OpDmaChannelDisable ch)
    (upd_chan ch (λ c, mk_dma_chan false (chcnt c) (chnum c) (chm0 c) (chmoff c)
                         (chcirc c) (chftf c)) s)).

(** Modelled from the spec: transport [reconfigure(length)]. *)
Definition dma_transfer_number_config (_ : dma_periph) (ch : Z) (n : Z) : M unit :=
  modify (λ s, log (OpDmaTransferNumber ch n)
    (upd_chan ch (λ c, mk_dma_chan (chen c) n n (chm0 c) (chmoff c) (chcirc c) (chftf c)) s)).

(** Modelled from the spec: transport [remaining_count()]. *)
Definition dma_transfer_number_get (_ : dma_periph) (ch : Z) : M Z :=
  gets (λ s, chcnt (dma0 s ch)).

(** Modelled from the spec: transport [transfer_complete_flag()];
    [true] is [SET]. *)
Definition dma_flag_get (_ : dma_periph) (ch : Z) (_ : dma_flag) : M bool :=
  gets (λ s, chftf (dma0 s ch)).

(** Modelled from the spec: the statement
    [DMA_INTCn(DMA0) |= DMA_FLAG_ADD(DMA_CHINTF_RESET_VALUE, i)] writes ones
    to all flag-clear bits of the [i]-th channel of bank [n]; bank 0 holds
    channels 0..3 and bank 1 channels 4..7 (the macros are absent). *)
Definition DMA_INTC_reset_value (bank : Z) (_ : dma_periph) (i : Z) : M unit :=
  let ch := 4 * bank + i in
  modify (λ s, log (OpDmaFlagsClear ch)
    (upd_chan ch (λ c, mk_dma_chan (chen c) (chcnt c) (chnum c) (chm0 c) (chmoff c)
                         (chcirc c) false) s)).

(** Modelled from the spec: the statement above on [DMA_INTC0]. *)
Definition DMA_INTC0_reset_value := DMA_INTC_reset_value 0.

(** Modelled from the spec: the statement above on [DMA_INTC1]. *)
Definition DMA_INTC1_reset_value := DMA_INTC_reset_value 1.

(** Modelled from the spec: [usart_interrupt_flag_get] (vendor library,
    absent) reads the idle-line detector flag of a USART; [true] is [SET]. *)
Definition usart_interrupt_flag_get (u : usart_periph) (_ : usart_interrupt_flag) : M bool :=
  gets (λ s, idle s u).

(** Modelled from the spec: [usart_interrupt_flag_clear] (vendor library,
    absent) clears that flag. *)
Definition usart_interrupt_flag_clear (u : usart_periph) (_ : usart_interrupt_flag) : M unit :=
  modify (λ s, log (OpUsartIdleClear u) (set_idle <[u := false]> s)).

(** Modelled from the spec: [timer_deinit] (vendor library, absent) puts
    the confirmation timer of section 4.2 back to its reset state, stopped. *)
Definition timer_deinit (t : timer_periph) : M unit :=
  modify (upd_timer t (λ _, mk_timer_regs false 0 0 0 false false)).

(** Modelled from the spec: [timer_init] (vendor library, absent) programs
    prescaler and reload value, the interval T of section 4.2. *)
Definition timer_init (t : timer_periph) (p : timer_parameter_struct) : M unit :=
  modify (λ s, log (OpTimerConfig t)
    (upd_timer t (λ r, mk_timer_regs (cen r) 0 (prescaler p) (period p) (spm r) (upif r)) s)).

(** Modelled from the spec: [timer_single_pulse_mode_config] (vendor
    library, absent) selects the single-shot behaviour of section 4.2. *)
Definition timer_single_pulse_mode_config (t : timer_periph) (m : timer_sp_mode) : M unit :=
  modify (upd_timer t (λ r, mk_timer_regs (cen r) (tcnt r) (tpsc r) (car r)
    match m with TIMER_SP_MODE_SINGLE => true | TIMER_SP_MODE_REPETITIVE => false end
    (upif r))).

(** Modelled from the spec: [timer_counter_value_config] (vendor library,
    absent) sets the elapsed count; with 0 it is the reset half of [arm()]. *)
Definition timer_counter_value_config (t : timer_periph) (x : Z) : M unit :=
  modify (λ s, log (OpTimerCounter t x)
    (upd_timer t (λ r, mk_timer_regs (cen r) x (tpsc r) (car r) (spm r) (upif r)) s)).

(** Modelled from the spec: [timer_enable] (vendor library, absent) starts
    counting, the other half of [arm()]. *)
Definition timer_enable (t : timer_periph) : M unit :=
  modify (λ s, log (OpTimerEnable t)
    (upd_timer t (λ r, mk_timer_regs true (tcnt r) (tpsc r) (car r) (spm r) (upif r)) s)).

(** Modelled from the spec: [timer_disable] (vendor library, absent) stops
    counting. *)
Definition timer_disable (t : timer_periph) : M unit :=
  modify (λ s, log (OpTimerDisable t)
    (upd_timer t (λ r, mk_timer_regs false (tcnt r) (tpsc r) (car r) (spm r) (upif r)) s)).

(** Modelled from the spec: [timer_interrupt_flag_get] (vendor library,
    absent) reads the flag raised when the timer elapses; [true] is [SET]. *)
Definition timer_interrupt_flag_get (t : timer_periph) (_ : timer_interrupt_flag) : M bool :=
  gets (λ s, upif (timers s t)).

(** Modelled from the spec: [timer_interrupt_flag_clear] (vendor library,
    absent) clears that flag. *)
Definition timer_interrupt_flag_clear (t : timer_periph) (_ : timer_interrupt_flag) : M unit :=
  modify (λ s, log (OpTimerUpClear t)
    (upd_timer t (λ r, mk_timer_regs (cen r) (tcnt r) (tpsc r) (car r) (spm r) false) s)).

(** ** [timer.c]: configuration of the three confirmation timers *)

Definition timer_base5_config (psc period : Z) : M unit :=
  timer_deinit TIMER5 ;;
  timer_init TIMER5 {| prescaler := u16 (psc - 1); period := u32 (period - 1) |} ;;
  timer_single_pulse_mode_config TIMER5 TIMER_SP_MODE_SINGLE ;;
  timer_interrupt_flag_clear TIMER5 TIMER_INT_FLAG_UP.

Definition timer_base6_config (psc period : Z) : M unit :=
  timer_deinit TIMER6 ;;
  timer_init TIMER6 {| prescaler := u16 (psc - 1); period := u32 (period - 1) |} ;;
  timer_single_pulse_mode_config TIMER6 TIMER_SP_MODE_SINGLE ;;
  timer_interrupt_flag_clear TIMER6 TIMER_INT_FLAG_UP.

Definition timer_general15_config (psc period : Z) : M unit :=
  timer_deinit TIMER15 ;;
  timer_init TIMER15 {| prescaler := u16 (psc - 1); period := u16 (period - 1) |} ;;
  timer_single_pulse_mode_config TIMER15 TIMER_SP_MODE_SINGLE ;;
  timer_interrupt_flag_clear TIMER15 TIMER_INT_FLAG_UP.

(** ** [usart.c]: link on USART0 (host / debug link)

    Clock, pin, baud-rate, FIFO and interrupt-controller set-up touch no
    register of this model and are left out of the [*_init] functions. *)

Definition usart_rx_dma_config : M unit :=
  dma_deinit BSP_USART_DMA BSP_USART_RX_DMA_CHANNEL ;;
  let dma_init_struct :=
    {| memory0_addr := g_bsp_usart_recv_buff;
       number := BSP_USART_RECEIVE_LENGTH;
       circular_mode := true |} in
  dma_single_data_mode_init BSP_USART_DMA BSP_USART_RX_DMA_CHANNEL dma_init_struct ;;
  dma_channel_enable BSP_USART_DMA BSP_USART_RX_DMA_CHANNEL.

Definition usart_init (baud_rate : Z) : M unit :=
  usart_rx_dma_config ;;
  usart_interrupt_flag_clear BSP_USART USART_INT_FLAG_IDLE ;;
  timer_base5_config 300 1000 ;;
  timer_disable TIMER5.

Definition usart_rx_dma_receive_reset : M unit :=
  dma_channel_disable BSP_USART_DMA BSP_USART_RX_DMA_CHANNEL ;;
  store16 g_bsp_usart_recv_length 0 ;;
  store8 g_bsp_usart_recv_complete_flag 0 ;;
  DMA_INTC0_reset_value BSP_USART_DMA BSP_USART_RX_DMA_CHANNEL ;;
  dma_transfer_number_config BSP_USART_DMA BSP_USART_RX_DMA_CHANNEL BSP_USART_RECEIVE_LENGTH ;;
  dma_channel_enable BSP_USART_DMA BSP_USART_RX_DMA_CHANNEL.

(** The consumer of the host link.  Cache invalidation and [printf] read
    only. *)
Definition usart_rx_buffer_print : M unit :=
  flag ← load8 g_bsp_usart_recv_complete_flag;
  if flag =? 1 then
    memset g_bsp_usart_recv_buff 0 BSP_USART_RECEIVE_LENGTH ;;
    usart_rx_dma_receive_reset
  else mret tt.

Definition BSP_USART_IRQHandler : M unit :=
  f ← usart_interrupt_flag_get BSP_USART USART_INT_FLAG_IDLE;
  if f : bool then
    usart_interrupt_flag_clear BSP_USART USART_INT_FLAG_IDLE ;;
    n ← dma_transfer_number_get BSP_USART_DMA BSP_USART_RX_DMA_CHANNEL;
    store16 g_bsp_usart_recv_length (u32 (BSP_USART_RECEIVE_LENGTH - n)) ;;
    len ← load16 g_bsp_usart_recv_length;
    bail ← (if len =? 0
            then ftf ← dma_flag_get BSP_USART_DMA BSP_USART_RX_DMA_CHANNEL DMA_FLAG_FTF;
                 mret (negb ftf)
            else mret false);
    if bail : bool then mret tt
    else
      timer_counter_value_config TIMER5 0 ;;
      timer_enable TIMER5
  else mret tt.

(** ** [usart.c]: link on USART1 (terminal) *)

Definition usart_terminal_rx_dma_config : M unit :=
  dma_deinit DMA0 DMA_CH2 ;;
  let dma_init_struct :=
    {| memory0_addr := g_usart_terminal_recv_buff;
       number := USART_TERMINAL_RECEIVE_LENGTH;
       circular_mode := true |} in
  dma_single_data_mode_init DMA0 DMA_CH2 dma_init_struct ;;
  dma_channel_enable DMA0 DMA_CH2.

Definition usart_terminal_tx_dma_config : M unit :=
  dma_deinit DMA0 DMA_CH3 ;;
  dma_single_data_mode_init_send DMA0 DMA_CH3 USART_TERMINAL_SEND_LENGTH false.

Definition usart_terminal_init (baud_rate : Z) : M unit :=
  usart_terminal_tx_dma_config ;;
  usart_terminal_rx_dma_config ;;
  usart_interrupt_flag_clear USART1 USART_INT_FLAG_IDLE ;;
  timer_base6_config 300 1000 ;;
  timer_disable TIMER6.

Definition usart_terminal_rx_dma_receive_reset : M unit :=
  dma_channel_disable DMA0 DMA_CH2 ;;
  store16 g_usart_terminal_recv_length 0 ;;
  store8 g_usart_terminal_recv_complete_flag 0 ;;
  DMA_INTC0_reset_value DMA0 DMA_CH2 ;;
  dma_transfer_number_config DMA0 DMA_CH2 USART_TERMINAL_RECEIVE_LENGTH ;;
  dma_channel_enable DMA0 DMA_CH2.

Definition USART1_IRQHandler : M unit :=
  f ← usart_interrupt_flag_get USART1 USART_INT_FLAG_IDLE;
  if f : bool then
    usart_interrupt_flag_clear USART1 USART_INT_FLAG_IDLE ;;
    n ← dma_transfer_number_get DMA0 DMA_CH2;
    store16 g_usart_terminal_recv_length (u32 (USART_TERMINAL_RECEIVE_LENGTH - n)) ;;
    len ← load16 g_usart_terminal_recv_length;
    bail ← (if len =? 0
            then ftf ← dma_flag_get DMA0 DMA_CH2 DMA_FLAG_FTF;
                 mret (negb ftf)
            else mret false);
    if bail : bool then mret tt
    else
      timer_counter_value_config TIMER6 0 ;;
      timer_enable TIMER6
  else mret tt.

(** ** [usart.c]: link on UART4 (wireless module) *)

Definition uart4_rx_dma_config : M unit :=
  dma_deinit DMA0 DMA_CH4 ;;
  let dma_init_struct :=
    {| memory0_addr := g_uart4_recv_buff;
       number := UART4_RECEIVE_LENGTH;
       circular_mode := true |} in
  dma_single_data_mode_init DMA0 DMA_CH4 dma_init_struct ;;
  dma_channel_enable DMA0 DMA_CH4.

Definition uart4_tx_dma_config : M unit :=
  dma_deinit DMA0 DMA_CH5 ;;
  dma_single_data_mode_init_send DMA0 DMA_CH5 UART4_SEND_LENGTH false.

Definition uart4_init (baud_rate : Z) : M unit :=
  uart4_tx_dma_config ;;
  uart4_rx_dma_config ;;
  usart_interrupt_flag_clear UART4 USART_INT_FLAG_IDLE ;;
  timer_general15_config 300 1000 ;;
  timer_disable TIMER15.

Definition uart4_rx_dma_receive_reset : M unit :=
  dma_channel_disable DMA0 DMA_CH4 ;;
  store16 g_uart4_recv_length 0 ;;
  store8 g_uart4_recv_complete_flag 0 ;;
  DMA_INTC1_reset_value DMA0 (DMA_CH4 - 4) ;;
  dma_transfer_number_config DMA0 DMA_CH4 UART4_RECEIVE_LENGTH ;;
  dma_channel_enable DMA0 DMA_CH4.

Definition UART4_IRQHandler : M unit :=
  f ← usart_interrupt_flag_get UART4 USART_INT_FLAG_IDLE;
  if f : bool then
    usart_interrupt_flag_clear UART4 USART_INT_FLAG_IDLE ;;
    n ← dma_transfer_number_get DMA0 DMA_CH4;
    store16 g_uart4_recv_length (u32 (UART4_RECEIVE_LENGTH - n)) ;;
    len ← load16 g_uart4_recv_length;
    bail ← (if len =? 0
            then ftf ← dma_flag_get DMA0 DMA_CH4 DMA_FLAG_FTF;
                 mret (negb ftf)
            else mret false);
    if bail : bool then mret tt
    else
      timer_counter_value_config TIMER15 0 ;;
      timer_enable TIMER15
  else mret tt.

(** ** [timer.c]: the update-interrupt handlers that finalize a frame *)

Definition TIMER5_DAC_UDR_IRQHandler : M unit :=
  f ← timer_interrupt_flag_get TIMER5 TIMER_INT_FLAG_UP;
  if f : bool then
    timer_interrupt_flag_clear TIMER5 TIMER_INT_FLAG_UP ;;
    len ← load16 g_bsp_usart_recv_length;
    n ← dma_transfer_number_get BSP_USART_DMA BSP_USART_RX_DMA_CHANNEL;
    if len =? u32 (BSP_USART_RECEIVE_LENGTH - n) then
      len ← load16 g_bsp_usart_recv_length;
      (if len =? 0 then
         store16 g_bsp_usart_recv_length BSP_USART_RECEIVE_LENGTH ;;
         len ← load16 g_bsp_usart_recv_length;
         store_buff g_bsp_usart_recv_buff len 0
       else
         store_buff g_bsp_usart_recv_buff len 0) ;;
      store8 g_bsp_usart_recv_complete_flag 1
    else mret tt
  else mret tt.

Definition TIMER6_IRQHandler : M unit :=
  f ← timer_interrupt_flag_get TIMER6 TIMER_INT_FLAG_UP;
  if f : bool then
    timer_interrupt_flag_clear TIMER6 TIMER_INT_FLAG_UP ;;
    len ← load16 g_usart_terminal_recv_length;
    n ← dma_transfer_number_get DMA0 DMA_CH2;
    if len =? u32 (USART_TERMINAL_RECEIVE_LENGTH - n) then
      len ← load16 g_usart_terminal_recv_length;
      (if len =? 0 then
         store16 g_usart_terminal_recv_length USART_TERMINAL_RECEIVE_LENGTH ;;
         len ← load16 g_usart_terminal_recv_length;
         store_buff g_usart_terminal_recv_buff len 0
       else
         store_buff g_usart_terminal_recv_buff len 0) ;;
      store8 g_usart_terminal_recv_complete_flag 1
    else mret tt
  else mret tt.

Definition TIMER15_IRQHandler : M unit :=
  f ← timer_interrupt_flag_get TIMER15 TIMER_INT_FLAG_UP;
  if f : bool then
    timer_interrupt_flag_clear TIMER15 TIMER_INT_FLAG_UP ;;
    len ← load16 g_uart4_recv_length;
    n ← dma_transfer_number_get DMA0 DMA_CH4;
    if len =? u32 (UART4_RECEIVE_LENGTH - n) then
      len ← load16 g_uart4_recv_length;
      (if len =? 0 then
         store16 g_uart4_recv_length UART4_RECEIVE_LENGTH ;;
         len ← load16 g_uart4_recv_length;
         store_buff g_uart4_recv_buff len 0
       else
         store_buff g_uart4_recv_buff len 0) ;;
      store8 g_uart4_recv_complete_flag 1
    else mret tt
  else mret tt.

(** ** Peripheral behaviour

    Modelled from the spec: the receive transport (section 2, circular
    transport of the glossary).  An enabled channel with transfers
    remaining stores the byte at its memory pointer, advances the pointer
    and counts down; when the count reaches zero it raises the full-transfer
    flag and, in circular mode, reloads the count and returns to the buffer
    origin.  A store outside the buffer, or through an unprogrammed address,
    is a fault. *)
Definition dma_transfer (ch : Z) (b : Z) : M unit := λ s,
  let c := dma0 s ch in
  if chen c && (0 <? chcnt c) then
    match chm0 c with
    | Some v =>
        if (0 <=? chmoff c) && (chmoff c <? Z.of_nat (length (buffs s v))) then
          let s1 := set_buffs <[v := <[Z.to_nat (chmoff c) := b]> (buffs s v)]> s in
          let c' :=
            if chcnt c - 1 =? 0 then
              if chcirc c
              then mk_dma_chan true (chnum c) (chnum c) (chm0 c) 0 true true
              else mk_dma_chan false 0 (chnum c) (chm0 c) (chmoff c + 1) false true
            else mk_dma_chan true (chcnt c - 1) (chnum c) (chm0 c) (chmoff c + 1)
                   (chcirc c) (chftf c) in
          Some (tt, upd_chan ch (λ _, c') s1)
        else None
    | None => None
    end
  else Some (tt, s).

(** Modelled from the spec: the idle-line detector raises the flag that
    the USART handler tests. *)
Definition usart_idle_detect (u : usart_periph) : mcu → mcu :=
  set_idle <[u := true]>.

(** Modelled from the spec: one counter clock of a confirmation timer
    (section 4.2).  A running counter counts up to the reload value; the
    next clock is the update event: the counter restarts from zero, the
    update flag is raised, and in single-pulse mode the counter stops. *)
Definition timer_tick (t : timer_periph) (s : mcu) : mcu :=
  let r := timers s t in
  if cen r then
    if tcnt r <? car r
    then upd_timer t (λ _, mk_timer_regs true (tcnt r + 1) (tpsc r) (car r) (spm r) (upif r)) s
    else upd_timer t (λ _, mk_timer_regs (negb (spm r)) 0 (tpsc r) (car r) (spm r) true) s
  else s.

(** Interrupt vectors. *)
Definition usart_vector (u : usart_periph) : M unit :=
  match u with
  | USART0 => BSP_USART_IRQHandler
  | USART1 => USART1_IRQHandler
  | UART4 => UART4_IRQHandler
  end.

Definition timer_vector (t : timer_periph) : M unit :=
  match t with
  | TIMER5 => TIMER5_DAC_UDR_IRQHandler
  | TIMER6 => TIMER6_IRQHandler
  | TIMER15 => TIMER15_IRQHandler
  end.

(** Functions called from thread mode. *)
Inductive api :=
  | call_usart_init
  | call_usart_terminal_init
  | call_uart4_init
  | call_usart_rx_dma_receive_reset
  | call_usart_terminal_rx_dma_receive_reset
  | call_uart4_rx_dma_receive_reset
  | call_usart_rx_buffer_print.

Definition api_body (f : api) : M unit :=
  match f with
  | call_usart_init => usart_init 921600
  | call_usart_terminal_init => usart_terminal_init 921600
  | call_uart4_init => uart4_init 921600
  | call_usart_rx_dma_receive_reset => usart_rx_dma_receive_reset
  | call_usart_terminal_rx_dma_receive_reset => usart_terminal_rx_dma_receive_reset
  | call_uart4_rx_dma_receive_reset => uart4_rx_dma_receive_reset
  | call_usart_rx_buffer_print => usart_rx_buffer_print
  end.

(** What can happen to the machine.  Handlers run to completion: the
    interrupts of one link have equal or higher priority than its consumer
    and do not nest with each other. *)
Inductive event :=
  | EvDma (ch : Z) (b : Z)      (* the channel moves the received byte b *)
  | EvIdle (u : usart_periph)   (* idle line detected, interrupt taken *)
  | EvTick (t : timer_periph)   (* one timer clock; interrupt taken if pending *)
  | EvCall (f : api).

Definition step (e : event) (s : mcu) : option mcu :=
  match e with
  | EvDma ch b => exec (dma_transfer ch b) s
  | EvIdle u => exec (usart_vector u) (usart_idle_detect u s)
  | EvTick t =>
      let s1 := timer_tick t s in
      if upif (timers s1 t) then exec (timer_vector t) s1 else Some s1
  | EvCall f => exec (api_body f) s
  end.

Fixpoint run (es : list event) (s : mcu) : option mcu :=
  match es with
  | [] => Some s
  | e :: es' =>
      match step e s with
      | Some s' => run es' s'
      | None => None
      end
  end.

(** Memory and registers after reset; arrays have their declared size. *)
Definition power_on : mcu :=
  mk_mcu (λ _, replicate 1025 0) (λ _, 0) (λ _, 0)
         (λ _, mk_dma_chan false 0 0 None 0 false false)
         (λ _, false)
         (λ _, mk_timer_regs false 0 0 0 false false)
         [].

(** ** The three links, side by side *)

Inductive link := link_bsp | link_terminal | link_uart4.

#[global] Instance link_eq_dec : EqDecision link.
Proof. solve_decision. Defined.

Definition link_buff (l : link) : buff_var :=
  match l with
  | link_bsp => g_bsp_usart_recv_buff
  | link_terminal => g_usart_terminal_recv_buff
  | link_uart4 => g_uart4_recv_buff
  end.
Definition link_length (l : link) : u16_var :=
  match l with
  | link_bsp => g_bsp_usart_recv_length
  | link_terminal => g_usart_terminal_recv_length
  | link_uart4 => g_uart4_recv_length
  end.
Definition link_flag (l : link) : u8_var :=
  match l with
  | link_bsp => g_bsp_usart_recv_complete_flag
  | link_terminal => g_usart_terminal_recv_complete_flag
  | link_uart4 => g_uart4_recv_complete_flag
  end.
Definition link_channel (l : link) : Z :=
  match l with
  | link_bsp => BSP_USART_RX_DMA_CHANNEL
  | link_terminal => DMA_CH2
  | link_uart4 => DMA_CH4
  end.
Definition link_usart (l : link) : usart_periph :=
  match l with
  | link_bsp => BSP_USART
  | link_terminal => USART1
  | link_uart4 => UART4
  end.
Definition link_timer (l : link) : timer_periph :=
  match l with
  | link_bsp => TIMER5
  | link_terminal => TIMER6
  | link_uart4 => TIMER15
  end.
Definition link_capacity (l : link) : Z :=
  match l with
  | link_bsp => BSP_USART_RECEIVE_LENGTH
  | link_terminal => USART_TERMINAL_RECEIVE_LENGTH
  | link_uart4 => UART4_RECEIVE_LENGTH
  end.
Definition link_init (l : link) : api :=
  match l with
  | link_bsp => call_usart_init
  | link_terminal => call_usart_terminal_init
  | link_uart4 => call_uart4_init
  end.
Definition link_reset (l : link) : api :=
  match l with
  | link_bsp => call_usart_rx_dma_receive_reset
  | link_terminal => call_usart_terminal_rx_dma_receive_reset
  | link_uart4 => call_uart4_rx_dma_receive_reset
  end.

(** Consumer view of a link. *)
Definition is_complete (l : link) (s : mcu) : bool := u8s s (link_flag l) =? 1.
Definition recv_length (l : link) (s : mcu) : Z := u16s s (link_length l).
Definition recv_buff (l : link) (s : mcu) : list Z := buffs s (link_buff l).

(** Board bring-up with all three links. *)
Definition boot : list event :=
  [EvCall call_usart_init; EvCall call_usart_terminal_init; EvCall call_uart4_init].

(** * Vocabulary of the properties *)

(** ** States the firmware can be in

    All three links are brought up, then anything may happen. *)
Inductive reachable : mcu → Prop :=
  | reachable_boot s :
      run boot power_on = Some s → reachable s
  | reachable_step e s s' :
      reachable s → step e s = Some s' → reachable s'.

(** The receive channel of link [l] is enabled in circular mode on the
    link's own buffer, and its memory pointer and its count add up to the
    capacity. *)
Definition channel_ok (l : link) (c : dma_chan) : Prop :=
  chen c = true ∧ chm0 c = Some (link_buff l) ∧ chcirc c = true ∧
  chnum c = link_capacity l ∧ 0 < chcnt c ≤ link_capacity l ∧
  chmoff c + chcnt c = link_capacity l.

(** The confirmation timer is a single-pulse timer of 1000 clocks with no
    update pending. *)
Definition timer_ok (r : timer_regs) : Prop :=
  spm r = true ∧ car r = 999 ∧ upif r = false ∧ 0 ≤ tcnt r ≤ car r.

(** What every reachable state satisfies: arrays of their declared size,
    lengths within the capacity, the three receive channels in order and no
    other channel enabled, the three timers in order. *)
Definition inv (s : mcu) : Prop :=
  (∀ v, length (buffs s v) = 1025%nat) ∧
  (∀ v, 0 ≤ u16s s v ≤ 1024) ∧
  (∀ l, channel_ok l (dma0 s (link_channel l))) ∧
  (∀ ch, (∀ l, ch ≠ link_channel l) → chen (dma0 s ch) = false) ∧
  (∀ t, timer_ok (timers s t)).

(** [filled l j s]: since the channel of [l] was last armed it has moved [j]
    bytes; after exactly [link_capacity l] bytes the memory pointer is back
    at the origin and the full-transfer flag is up. *)
Definition filled (l : link) (j : Z) (s : mcu) : Prop :=
  let c := dma0 s (link_channel l) in
  0 ≤ j ≤ link_capacity l ∧
  chmoff c = (if j =? link_capacity l then 0 else j) ∧
  (j = link_capacity l → chftf c = true).

(** Frames completed on a link so far: stores of 1 to its flag. *)
Definition completions (l : link) (s : mcu) : nat :=
  count_occ op_eq_dec (oplog s) (OpStore8 (link_flag l) 1).

(** [finalizes l s]: the next clock of the link's timer is its update event
    and the length stored at the last idle-line event still agrees with the
    channel's remaining count. *)
Definition finalizes (l : link) (s : mcu) : bool :=
  let r := timers s (link_timer l) in
  cen r && (car r <=? tcnt r) &&
  (u16s s (link_length l) =? u32 (link_capacity l - chcnt (dma0 s (link_channel l)))).

(** What bring-up of a link logs for its transmit channel before it turns
    to reception; the host link has none. *)
Definition link_tx_ops (l : link) : list op :=
  match l with
  | link_bsp => []
  | link_terminal => [OpDmaDeinit DMA_CH3; OpDmaInit DMA_CH3]
  | link_uart4 => [OpDmaDeinit DMA_CH5; OpDmaInit DMA_CH5]
  end.

(** The stores to receive buffers among a list of operations. *)
Definition buff_writes (ops : list op) : list op :=
  List.filter (λ o, match o with
                    | OpStoreBuff _ _ _ | OpMemset _ _ _ => true
                    | _ => false
                    end) ops.

(** The stores to the received-length variable of a link among a list of
    operations. *)
Definition length_stores (l : link) (ops : list op) : list op :=
  List.filter (λ o, match o with
                    | OpStore16 v _ => bool_decide (v = link_length l)
                    | _ => false
                    end) ops.

(** A state to start from: the board after bring-up. *)
Definition booted : mcu := default power_on (run boot power_on).

(** [after es]: the machine after bring-up and the events [es]. *)
Definition after (es : list event) : mcu := default booted (run es booted).

(** The terminal link after bring-up and 1024 received bytes. *)
Definition terminal_full : mcu := after (map (EvDma DMA_CH2) (replicate 1024 65)).

(** The host link after five bytes, an idle-line event, a sixth byte and
    999 clocks of its timer: the timer, armed by the idle event, is one clock
    from its update. *)
Definition host_late_byte : mcu :=
  after (map (EvDma DMA_CH0) [1; 2; 3; 4; 5]
         ++ [EvIdle USART0; EvDma DMA_CH0 6]
         ++ replicate 999 (EvTick TIMER5)).

(** The host link after bring-up and five received bytes. *)
Definition host_five : mcu := after (map (EvDma DMA_CH0) [1; 2; 3; 4; 5]).

(** The same after the idle-line event that follows. *)
Definition host_five_idle : mcu :=
  after (map (EvDma DMA_CH0) [1; 2; 3; 4; 5] ++ [EvIdle USART0]).

(** The host link one clock before the update of its timer, five bytes
    received and nothing since the idle-line event. *)
Definition host_quiet : mcu :=
  after (map (EvDma DMA_CH0) [1; 2; 3; 4; 5]
         ++ [EvIdle USART0] ++ replicate 999 (EvTick TIMER5)).

(** The host link holds a completed frame of five bytes, and the terminal
    link is one clock from finalizing two bytes. *)
Definition host_done : mcu :=
  after (map (EvDma DMA_CH0) [1; 2; 3; 4; 5]
         ++ [EvIdle USART0] ++ replicate 1000 (EvTick TIMER5)
         ++ map (EvDma DMA_CH2) [7; 8] ++ [EvIdle USART1]
         ++ replicate 999 (EvTick TIMER6)).

(** The same after that clock. *)
Definition host_done_terminal_done : mcu :=
  default booted (step (EvTick TIMER6) host_done).

(** ** One link on its own

    [main] brings up the host link only.  [link_ok l s] is what bring-up of
    link [l] establishes and what the link's own events keep, whatever state
    the other two links are in. *)
Definition link_ok (l : link) (s : mcu) : Prop :=
  length (buffs s (link_buff l)) = 1025%nat ∧
  0 ≤ u16s s (link_length l) ≤ 1024 ∧
  channel_ok l (dma0 s (link_channel l)) ∧
  timer_ok (timers s (link_timer l)).

#[global] Instance api_eq_dec : EqDecision api.
Proof. solve_decision. Defined.

(** The events that belong to link [l]: transfers of its channel, its two
    interrupts, its bring-up and re-arm, and for the host link its consumer. *)
Definition own_event (l : link) (e : event) : bool :=
  match e with
  | EvDma ch _ => bool_decide (ch = link_channel l)
  | EvIdle u => bool_decide (u = link_usart l)
  | EvTick t => bool_decide (t = link_timer l)
  | EvCall f =>
      bool_decide (f = link_init l) || bool_decide (f = link_reset l) ||
      (bool_decide (l = link_bsp) && bool_decide (f = call_usart_rx_buffer_print))
  end.

(** ** Configuring and arming a confirmation timer *)

(** The configuration function of [timer.c] for each timer. *)
Definition timer_config (t : timer_periph) (psc period : Z) : M unit :=
  match t with
  | TIMER5 => timer_base5_config psc period
  | TIMER6 => timer_base6_config psc period
  | TIMER15 => timer_general15_config psc period
  end.

(** What the idle-line handlers do to arm a timer. *)
Definition timer_arm (t : timer_periph) : M unit :=
  timer_counter_value_config t 0 ;;
  timer_enable t.

(** ** [usart.c]: formatted output through the transmit channels *)

(** The send buffers, [uint8_t name[LENGTH + 1]]. *)
Inductive send_var := gUsartTerminalSendBuff | gUart4SendBuff.

#[global] Instance send_var_eq_dec : EqDecision send_var.
Proof. solve_decision. Defined.

(** The machine with its transmit side: the send buffers, the memory
    address of each channel that reads one of them, the transmit-FIFO-empty
    flag of each USART, and the bytes each transmitter has been handed so
    far. *)
Record board := mk_board {
  core  : mcu;
  sends : send_var → list Z;
  txm0  : Z → option send_var;
  tfe   : usart_periph → bool;
  wire  : usart_periph → list Z
}.

Definition MB (A : Type) : Type := board → option (A * board).

#[global] Instance MB_ret : MRet MB := λ A x b, Some (x, b).
#[global] Instance MB_bind : MBind MB := λ A B f m b,
  match m b with
  | Some (x, b') => f x b'
  | None => None
  end.

(** A procedure of the receive-side model, run on the board. *)
Definition lift {A} (m : M A) : MB A := λ b,
  match m (core b) with
  | Some (x, s') => Some (x, mk_board s' (sends b) (txm0 b) (tfe b) (wire b))
  | None => None
  end.

Definition execb (m : MB unit) (b : board) : option board := snd <$> m b.

(** [while(usart_flag_get(u, USART_FLAG_TFE) == RESET);] returns once the
    flag is set; with the flag reset and nothing else running the loop does
    not return, which is no result. *)
Definition wait_tfe (u : usart_periph) : MB unit := λ b,
  if tfe b u then Some (tt, b) else None.

(** What the format and its arguments expand to: a text, or a failure of
    the conversion, which returns [- code] after the library has stored the
    characters [partial]. *)
Inductive fmt_result :=
  | Formatted (text : list Z)
  | FormatError (code : positive) (partial : list Z).

(** Modelled from the spec: the C library's [vsnprintf(v, size, fmt, args)]
    (absent), by its contract.  It stores at most [size - 1] characters of
    the text and a terminating 0, and returns the length of the whole text.
    On failure it returns a negative number, and the contract does not say
    what the array then holds: up to [size] characters of whatever the
    library stored before it failed, the rest as it was.  [size] beyond the
    array is a fault. *)
Definition fmt_return (r : fmt_result) : Z :=
  match r with
  | Formatted text => Z.of_nat (length text)
  | FormatError code _ => Z.neg code
  end.

Definition fmt_stored (size : Z) (r : fmt_result) (old : list Z) : list Z :=
  match r with
  | Formatted text =>
      let k := Z.to_nat (Z.min (Z.of_nat (length text)) (size - 1)) in
      take k text ++ 0 :: drop (S k) old
  | FormatError _ partial =>
      let k := Z.to_nat (Z.min (Z.of_nat (length partial)) size) in
      take k partial ++ drop k old
  end.

Definition vsnprintf (v : send_var) (size : Z) (r : fmt_result) : MB Z := λ b,
  if (0 <? size) && (size <=? Z.of_nat (length (sends b v))) then
    Some (fmt_return r,
          mk_board (core b) (<[v := fmt_stored size r (sends b v)]> (sends b))
            (txm0 b) (tfe b) (wire b))
  else None.

(** The memory address of a channel that reads a send buffer:
    [dma_init_struct.memory0_addr] of the two transmit configurations. *)
Definition set_memory0 (ch : Z) (v : send_var) : MB unit := λ b,
  Some (tt, mk_board (core b) (sends b) (<[ch := Some v]> (txm0 b)) (tfe b) (wire b)).

Definition usart_terminal_print_fmt (r : fmt_result) : MB unit :=
  wait_tfe USART1 ;;
  lift (dma_channel_disable DMA0 DMA_CH3) ;;
  n ← vsnprintf gUsartTerminalSendBuff (USART_TERMINAL_SEND_LENGTH + 1) r;
  let fmt_length := u16 n in
  let fmt_length :=
    if USART_TERMINAL_SEND_LENGTH <? fmt_length
    then USART_TERMINAL_SEND_LENGTH else fmt_length in
  lift (DMA_INTC0_reset_value DMA0 DMA_CH3) ;;
  lift (dma_transfer_number_config DMA0 DMA_CH3 fmt_length) ;;
  lift (dma_channel_enable DMA0 DMA_CH3).

Definition uart4_print_fmt (r : fmt_result) : MB unit :=
  wait_tfe UART4 ;;
  lift (dma_channel_disable DMA0 DMA_CH5) ;;
  n ← vsnprintf gUart4SendBuff (UART4_SEND_LENGTH + 1) r;
  let fmt_length := u16 n in
  let fmt_length :=
    if UART4_SEND_LENGTH <? fmt_length then UART4_SEND_LENGTH else fmt_length in
  lift (DMA_INTC1_reset_value DMA0 (DMA_CH5 - 4)) ;;
  lift (dma_transfer_number_config DMA0 DMA_CH5 fmt_length) ;;
  lift (dma_channel_enable DMA0 DMA_CH5).

(** The two transmit ports, side by side. *)
Inductive port := port_terminal | port_uart4.

Definition port_channel (p : port) : Z :=
  match p with port_terminal => DMA_CH3 | port_uart4 => DMA_CH5 end.
Definition port_buff (p : port) : send_var :=
  match p with port_terminal => gUsartTerminalSendBuff | port_uart4 => gUart4SendBuff end.
Definition port_usart (p : port) : usart_periph :=
  match p with port_terminal => USART1 | port_uart4 => UART4 end.
(** [usart_terminal_tx_dma_config] and [uart4_tx_dma_config] on the board:
    the registers, and the send buffer as the channel's memory. *)
Definition tx_dma_config (p : port) : MB unit :=
  match p with
  | port_terminal =>
      lift usart_terminal_tx_dma_config ;;
      set_memory0 DMA_CH3 gUsartTerminalSendBuff
  | port_uart4 =>
      lift uart4_tx_dma_config ;;
      set_memory0 DMA_CH5 gUart4SendBuff
  end.
Definition print_fmt (p : port) (r : fmt_result) : MB unit :=
  match p with
  | port_terminal => usart_terminal_print_fmt r
  | port_uart4 => uart4_print_fmt r
  end.

(** Modelled from the spec: one transfer of a transmit channel, the
    memory-to-peripheral counterpart of the receive transport.  An enabled
    channel with transfers remaining hands the byte at its memory pointer to
    the transmitter of its port, advances and counts down; at zero it raises
    the full-transfer flag and either reloads (circular) or switches itself
    off.  A read outside the send buffer, or through a memory address that
    was never programmed, is a fault. *)
Definition dma_tx_transfer (p : port) (b : board) : option board :=
  let ch := port_channel p in
  let c := dma0 (core b) ch in
  if chen c && (0 <? chcnt c) then
    match txm0 b ch with
    | Some v =>
        match sends b v !! Z.to_nat (chmoff c) with
        | Some x =>
            let c' :=
              if chcnt c - 1 =? 0
              then (if chcirc c
                    then mk_dma_chan true (chnum c) (chnum c) (chm0 c) 0 true true
                    else mk_dma_chan false 0 (chnum c) (chm0 c) (chmoff c + 1) false true)
              else mk_dma_chan true (chcnt c - 1) (chnum c) (chm0 c) (chmoff c + 1)
                     (chcirc c) (chftf c) in
            Some (mk_board (upd_chan ch (λ _, c') (core b)) (sends b) (txm0 b) (tfe b)
                    (<[port_usart p := wire b (port_usart p) ++ [x]]> (wire b)))
        | None => None
        end
    | None => None
    end
  else Some b.

Fixpoint tx_run (n : nat) (p : port) (b : board) : option board :=
  match n with
  | O => Some b
  | S n' =>
      match dma_tx_transfer p b with
      | Some b' => tx_run n' p b'
      | None => None
      end
  end.

(** The number of bytes [print_fmt] asks the channel to send: the return
    value of [vsnprintf] cut to 16 bits, then clamped. *)
Definition sent_count (r : fmt_result) : Z :=
  Z.min (fmt_return r mod 65536) 1024.

(** A port whose transmit channel has been configured. *)
Definition tx_ready (p : port) (b : board) : Prop :=
  txm0 b (port_channel p) = Some (port_buff p) ∧
  chcirc (dma0 (core b) (port_channel p)) = false ∧
  length (sends b (port_buff p)) = 1025%nat.

(** The board at power-on: the machine at power-on, zeroed send buffers,
    empty transmit FIFOs, nothing sent. *)
Definition board_on : board :=
  mk_board power_on (λ _, replicate 1025 0) (λ _, None) (λ _, true) (λ _, []).

(** ** [delay.c]: busy-wait delays on the SysTick counter *)

(** What the delay functions keep: the reload register of SysTick and the
    static [fac_us]. *)
Record systick := mk_systick {
  LOAD   : Z;
  fac_us : Z
}.

(** [delay_init] without an operating system ([SYSTEM_SUPPORT_OS] is 0);
    [SysTick->LOAD] keeps the low 24 bits of what is written. *)
Definition delay_init (SystemCoreClock : Z) : systick :=
  let fac := u16 (SystemCoreClock / 1000000) in
  let reload := u32 (SystemCoreClock / 1000000) in
  let reload := u32 (reload * 1000) in
  mk_systick (Z.land (u32 (reload - 1)) 16777215) fac.

(** [ticks = nus * fac_us], in 32 bits. *)
Definition delay_ticks (st : systick) (nus : Z) : Z := u32 (nus * fac_us st).

(** The loop of [delay_us].  [vals] is what the successive reads of
    [SysTick->VAL] return; the result is the reads left over when the loop
    breaks, and no result when the reads run out first. *)
Fixpoint delay_us_loop (reload ticks told tcnt : Z) (vals : list Z) : option (list Z) :=
  match vals with
  | [] => None
  | tnow :: vals' =>
      let tcnt :=
        if tnow <? told then u32 (tcnt + u32 (told - tnow))
        else u32 (tcnt + u32 (u32 (reload - tnow) + told)) in
      if ticks <=? tcnt then Some vals' else delay_us_loop reload ticks tnow tcnt vals'
  end.

Definition delay_us (st : systick) (nus : Z) (vals : list Z) : option (list Z) :=
  let reload := u32 (LOAD st + 1) in
  let ticks := delay_ticks st nus in
  match vals with
  | [] => None
  | told :: vals' => delay_us_loop reload ticks told 0 vals'
  end.

(** [for(uint16_t i = 0; i < nms; i++) delay_us(1000);] *)
Fixpoint delay_ms_loop (st : systick) (n : nat) (vals : list Z) : option (list Z) :=
  match n with
  | O => Some vals
  | S n' =>
      match delay_us st 1000 vals with
      | Some vals' => delay_ms_loop st n' vals'
      | None => None
      end
  end.

Definition delay_ms (st : systick) (nms : Z) (vals : list Z) : option (list Z) :=
  delay_ms_loop st (Z.to_nat (u16 nms)) vals.

Definition delay_xms (st : systick) (nms : Z) (vals : list Z) : option (list Z) :=
  delay_ms_loop st (Z.to_nat (u16 nms)) vals.

(** Modelled from the spec: the SysTick counter of the core (no code of
    the repository): it counts down from [LOAD] to 0, one step per
    clock, and starts again at [LOAD].  [systick_val st phase t] is what a
    read at clock [t] returns. *)
Definition systick_val (st : systick) (phase t : Z) : Z :=
  LOAD st - (phase + t) mod (LOAD st + 1).

(** Reads at the clocks [ts] are paced when each comes after the one before
    and no more than one counter period later. *)
Fixpoint paced (R : Z) (ts : list Z) : bool :=
  match ts with
  | t :: ts' =>
      match ts' with
      | t' :: _ => (0 <? t' - t) && (t' - t <=? R) && paced R ts'
      | [] => true
      end
  | [] => true
  end.

(** The reads after the first one at which [ticks] clocks have passed since
    clock [t0]. *)
Fixpoint wait_until (ticks t0 : Z) (ts : list Z) : option (list Z) :=
  match ts with
  | [] => None
  | t :: ts' => if ticks <=? t - t0 then Some ts' else wait_until ticks t0 ts'
  end.

(** [n] delays of [T] clocks one after the other, each from its own first
    read. *)
Fixpoint wait_ms (T : Z) (n : nat) (ts : list Z) : option (list Z) :=
  match n with
  | O => Some ts
  | S n' =>
      match ts with
      | [] => None
      | t0 :: ts' =>
          match wait_until T t0 ts' with
          | Some ts'' => wait_ms T n' ts''
          | None => None
          end
      end
  end.

(** ** [mpu.c]: the memory protection regions *)

(** The fields of [mpu_region_init_struct] that [mpu_set_protection] fills
    in. *)
Record mpu_region := mk_mpu_region {
  region_base_address : Z;
  region_size         : Z;
  instruction_exec    : Z;
  tex_type            : Z;
  access_permission   : Z;
  access_shareable    : Z;
  access_cacheable    : Z;
  access_bufferable   : Z
}.

(** The protection unit: on or off, and the enabled regions by number. *)
Record mpu := mk_mpu {
  mpu_on  : bool;
  regions : Z → option mpu_region
}.

(** Modelled from the spec: the size codes of the core's header (absent):
    code [n] stands for a region of [2 ^ (n + 1)] bytes. *)
Definition MPU_REGION_SIZE_32KB : Z := 14.
Definition MPU_REGION_SIZE_64KB : Z := 15.
Definition MPU_REGION_SIZE_128KB : Z := 16.
Definition MPU_REGION_SIZE_256KB : Z := 17.
Definition MPU_REGION_SIZE_512KB : Z := 18.
Definition MPU_REGION_SIZE_32MB : Z := 24.

(** Modelled from the spec: the attribute codes of the vendor header
    (absent); only their being different from each other matters here. *)
Definition MPU_INSTRUCTION_EXEC_PERMIT : Z := 0.
Definition MPU_INSTRUCTION_EXEC_NOT_PERMIT : Z := 1.
Definition MPU_TEX_TYPE0 : Z := 0.
Definition MPU_TEX_TYPE1 : Z := 1.
Definition MPU_AP_FULL_ACCESS : Z := 3.
Definition MPU_ACCESS_SHAREABLE : Z := 1.
Definition MPU_ACCESS_NON_SHAREABLE : Z := 0.
Definition MPU_ACCESS_CACHEABLE : Z := 1.
Definition MPU_ACCESS_NON_CACHEABLE : Z := 0.
Definition MPU_ACCESS_BUFFERABLE : Z := 1.
Definition MPU_ACCESS_NON_BUFFERABLE : Z := 0.

(** [mpu_set_protection]: the unit is switched off, the region programmed
    and enabled, the unit switched on again; the result is 0. *)
Definition mpu_set_protection (baseaddr size rnum de tex ap sen cen ben : Z)
    (m : mpu) : Z * mpu :=
  let m := mk_mpu false (regions m) in
  let mpu_init_struct :=
    mk_mpu_region (u32 baseaddr) (u32 size) (u8 de) (u8 tex) (u8 (u8 ap))
      (u8 sen) (u8 cen) (u8 ben) in
  let m := mk_mpu (mpu_on m) (<[u32 rnum := Some mpu_init_struct]> (regions m)) in
  let m := mk_mpu true (regions m) in
  (0, m).

Definition mpu_memory_protection (m : mpu) : mpu :=
  let m := snd (mpu_set_protection 0 MPU_REGION_SIZE_64KB 0
    MPU_INSTRUCTION_EXEC_PERMIT MPU_TEX_TYPE0 MPU_AP_FULL_ACCESS
    MPU_ACCESS_NON_SHAREABLE MPU_ACCESS_CACHEABLE MPU_ACCESS_BUFFERABLE m) in
  let m := snd (mpu_set_protection 536870912 MPU_REGION_SIZE_128KB 1
    MPU_INSTRUCTION_EXEC_PERMIT MPU_TEX_TYPE0 MPU_AP_FULL_ACCESS
    MPU_ACCESS_NON_SHAREABLE MPU_ACCESS_CACHEABLE MPU_ACCESS_BUFFERABLE m) in
  let m := snd (mpu_set_protection 603979776 MPU_REGION_SIZE_512KB 2
    MPU_INSTRUCTION_EXEC_PERMIT MPU_TEX_TYPE0 MPU_AP_FULL_ACCESS
    MPU_ACCESS_SHAREABLE MPU_ACCESS_CACHEABLE MPU_ACCESS_NON_BUFFERABLE m) in
  let m := snd (mpu_set_protection 604504064 MPU_REGION_SIZE_256KB 3
    MPU_INSTRUCTION_EXEC_PERMIT MPU_TEX_TYPE0 MPU_AP_FULL_ACCESS
    MPU_ACCESS_SHAREABLE MPU_ACCESS_CACHEABLE MPU_ACCESS_NON_BUFFERABLE m) in
  let m := snd (mpu_set_protection 604700672 MPU_REGION_SIZE_64KB 4
    MPU_INSTRUCTION_EXEC_PERMIT MPU_TEX_TYPE0 MPU_AP_FULL_ACCESS
    MPU_ACCESS_SHAREABLE MPU_ACCESS_CACHEABLE MPU_ACCESS_NON_BUFFERABLE m) in
  let m := snd (mpu_set_protection 805306368 MPU_REGION_SIZE_32KB 5
    MPU_INSTRUCTION_EXEC_PERMIT MPU_TEX_TYPE1 MPU_AP_FULL_ACCESS
    MPU_ACCESS_SHAREABLE MPU_ACCESS_NON_CACHEABLE MPU_ACCESS_NON_BUFFERABLE m) in
  snd (mpu_set_protection 3221225472 MPU_REGION_SIZE_32MB 6
    MPU_INSTRUCTION_EXEC_NOT_PERMIT MPU_TEX_TYPE0 MPU_AP_FULL_ACCESS
    MPU_ACCESS_NON_SHAREABLE MPU_ACCESS_CACHEABLE MPU_ACCESS_NON_BUFFERABLE m).

(** The unit after reset: off, no region enabled. *)
Definition mpu_reset : mpu := mk_mpu false (λ _, None).

(** Modelled from the spec: how the unit reads its regions.  A region of
    size code [n] spans [2 ^ (n + 1)] bytes from its base address, of which
    the unit ignores the bits below the size; where regions overlap the one
    with the highest number decides; an address in no region falls to the
    default memory map. *)
Definition region_bytes (r : mpu_region) : Z := 2 ^ (region_size r + 1).

Definition region_covers (r : mpu_region) (a : Z) : bool :=
  let base := region_base_address r - region_base_address r mod region_bytes r in
  (base <=? a) && (a <? base + region_bytes r).

Definition region_hit (m : mpu) (k : Z) (a : Z) : bool :=
  match regions m k with
  | Some r => region_covers r a
  | None => false
  end.

Fixpoint mpu_lookup_below (m : mpu) (n : nat) (a : Z) : option (Z * mpu_region) :=
  match n with
  | O => None
  | S n' =>
      if region_hit m (Z.of_nat n') a
      then pair (Z.of_nat n') <$> regions m (Z.of_nat n')
      else mpu_lookup_below m n' a
  end.

Definition mpu_lookup (m : mpu) (a : Z) : option (Z * mpu_region) :=
  if mpu_on m then mpu_lookup_below m 16 a else None.

(** ** States and inputs of the examples *)

(** The board after both transmit channels were configured. *)
Definition board_ready : board :=
  default board_on
    (execb (tx_dma_config port_terminal ;; tx_dma_config port_uart4) board_on).

(** A text of 65536 + 5 characters. *)
Definition long_text : list Z := replicate (Z.to_nat 65541) 65.

(** The counter as [delay_init] sets it up at 600 MHz. *)
Definition systick_600 : systick := delay_init 600000000.

(** [n] reads 600000 clocks apart, the first at clock [600000 * k]. *)
Definition reads_from (k n : nat) : list Z :=
  map (λ i, Z.of_nat i * 600000) (seq k n).

(** * Properties *)

#[local] Arguments u8 : simpl never.
#[local] Arguments u16 : simpl never.
#[local] Arguments u32 : simpl never.

Lemma u16_small x : 0 ≤ x < 65536 → u16 x = x.
Proof. intros H. unfold u16. apply Z.mod_small. lia. Qed.

Lemma u32_small x : 0 ≤ x < 4294967296 → u32 x = x.
Proof. intros H. unfold u32. apply Z.mod_small. lia. Qed.

(** Unfold the program text down to state updates. *)
Ltac unfold_code :=
  unfold step, exec, usart_vector, timer_vector, api_body,
    BSP_USART_IRQHandler, USART1_IRQHandler, UART4_IRQHandler,
    TIMER5_DAC_UDR_IRQHandler, TIMER6_IRQHandler, TIMER15_IRQHandler,
    usart_rx_dma_receive_reset, usart_terminal_rx_dma_receive_reset,
    uart4_rx_dma_receive_reset, usart_rx_buffer_print,
    usart_init, usart_terminal_init, uart4_init,
    usart_rx_dma_config, usart_terminal_rx_dma_config, uart4_rx_dma_config,
    usart_terminal_tx_dma_config, uart4_tx_dma_config,
    timer_base5_config, timer_base6_config, timer_general15_config,
    dma_deinit, dma_single_data_mode_init, dma_single_data_mode_init_send,
    timer_deinit, timer_init, timer_single_pulse_mode_config,
    usart_interrupt_flag_get, usart_interrupt_flag_clear,
    dma_transfer_number_get, dma_flag_get, dma_channel_disable, dma_channel_enable,
    dma_transfer_number_config, DMA_INTC0_reset_value, DMA_INTC1_reset_value,
    DMA_INTC_reset_value,
    timer_counter_value_config, timer_enable, timer_disable,
    timer_interrupt_flag_get, timer_interrupt_flag_clear,
    load16, store16, load8, store8, gets, modify, mbind, M_bind, mret, M_ret,
    usart_idle_detect, recv_length, recv_buff, is_complete,
    upd_timer, upd_chan,
    link_usart, link_timer, link_channel, link_length, link_flag, link_buff,
    link_capacity, link_reset, link_init,
    BSP_USART, BSP_USART_DMA, BSP_USART_RX_DMA_CHANNEL,
    DMA_CH0, DMA_CH2, DMA_CH3, DMA_CH4, DMA_CH5,
    BSP_USART_RECEIVE_LENGTH, USART_TERMINAL_RECEIVE_LENGTH, UART4_RECEIVE_LENGTH,
    USART_TERMINAL_SEND_LENGTH, UART4_SEND_LENGTH in *.

(** Reads of updated register files and variable stores. *)
Ltac fn_simpl :=
  repeat first
    [ rewrite fn_lookup_insert
    | rewrite fn_lookup_insert_ne by (first [done | congruence | lia]) ].

Lemma inv_boot s : run boot power_on = Some s → inv s.
Proof.
  intros H. vm_compute in H. injection H as <-.
  split_and!.
  - intros []; reflexivity.
  - intros []; cbn; lia.
  - intros []; unfold channel_ok; cbn; split_and!; (reflexivity || lia).
  - intros ch Hch.
    pose proof (Hch link_bsp). pose proof (Hch link_terminal).
    pose proof (Hch link_uart4). cbn in *.
    unfold link_channel, BSP_USART_RX_DMA_CHANNEL, DMA_CH0, DMA_CH2, DMA_CH4 in *.
    destruct ch as [|p|p]; try done.
    do 3 (destruct p as [p|p|]; try done).
  - intros []; unfold timer_ok; cbn; split_and!; (reflexivity || lia).
Qed.

Lemma channel_cases (ch : Z) :
  (∃ l, ch = link_channel l) ∨ (∀ l, ch ≠ link_channel l).
Proof.
  destruct (decide (ch = 0)) as [->|]; [left; by exists link_bsp|].
  destruct (decide (ch = 2)) as [->|]; [left; by exists link_terminal|].
  destruct (decide (ch = 4)) as [->|]; [left; by exists link_uart4|].
  right. intros []; done.
Qed.

Lemma link_channel_inj l l' : link_channel l = link_channel l' → l = l'.
Proof. destruct l, l'; done. Qed.

(** One transfer of a link's receive channel: the byte lands at the memory
    pointer; nothing but the buffer and the channel changes. *)
Lemma dma_step l b s :
  let c := dma0 s (link_channel l) in
  channel_ok l c →
  length (buffs s (link_buff l)) = 1025%nat →
  ∃ s', step (EvDma (link_channel l) b) s = Some s' ∧
    buffs s' (link_buff l) = <[Z.to_nat (chmoff c) := b]> (buffs s (link_buff l)) ∧
    (∀ v, v ≠ link_buff l → buffs s' v = buffs s v) ∧
    dma0 s' (link_channel l) =
      (if chcnt c =? 1
       then mk_dma_chan true (link_capacity l) (link_capacity l)
              (Some (link_buff l)) 0 true true
       else mk_dma_chan true (chcnt c - 1) (link_capacity l)
              (Some (link_buff l)) (chmoff c + 1) true (chftf c)) ∧
    (∀ ch, ch ≠ link_channel l → dma0 s' ch = dma0 s ch) ∧
    u16s s' = u16s s ∧ u8s s' = u8s s ∧ timers s' = timers s ∧
    idle s' = idle s ∧ oplog s' = oplog s.
Proof.
  intros c (Hen & Hm0 & Hcirc & Hnum & Hcnt & Hoff) Hlen.
  unfold step, exec, dma_transfer. fold c.
  rewrite Hen, Hm0, Hlen, Hcirc, Hnum.
  assert (link_capacity l = 1024) as HC by (by destruct l).
  rewrite HC in *.
  replace (0 <? chcnt c) with true by (symmetry; apply Z.ltb_lt; lia).
  replace (0 <=? chmoff c) with true by (symmetry; apply Z.leb_le; lia).
  replace (chmoff c <? Z.of_nat 1025) with true by (symmetry; apply Z.ltb_lt; lia).
  cbn [andb fmap option_fmap option_map snd].
  eexists; split; [reflexivity|].
  unfold upd_chan; cbn [buffs dma0 u16s u8s timers idle oplog set_dma0 set_buffs].
  fn_simpl. split_and!; try done.
  - intros v Hv. by fn_simpl.
  - destruct (Z.eqb_spec (chcnt c) 1) as [->|Hne]; cbn.
    + done.
    + destruct (Z.eqb_spec (chcnt c - 1) 0); [lia|]. done.
  - intros ch Hch. by fn_simpl.
Qed.

Ltac norm_consts :=
  change (u8 0) with 0 in *; change (u8 1) with 1 in *;
  change (u16 0) with 0 in *; change (u16 1024) with 1024 in *.

Ltac norm_log := rewrite <- ?app_assoc; cbn [app].

(** The idle-line handler: it stores the number of bytes moved so far and,
    unless that is zero with no full transfer recorded, restarts the
    link's timer from zero. *)
Lemma idle_step l s :
  let c := dma0 s (link_channel l) in
  let r := timers s (link_timer l) in
  let len := u16 (u32 (link_capacity l - chcnt c)) in
  let bail := (len =? 0) && negb (chftf c) in
  ∃ s', step (EvIdle (link_usart l)) s = Some s' ∧
    u16s s' (link_length l) = len ∧
    (∀ v, v ≠ link_length l → u16s s' v = u16s s v) ∧
    u8s s' = u8s s ∧ buffs s' = buffs s ∧ dma0 s' = dma0 s ∧
    timers s' (link_timer l) =
      (if bail then r
       else mk_timer_regs true 0 (tpsc r) (car r) (spm r) (upif r)) ∧
    (∀ t, t ≠ link_timer l → timers s' t = timers s t) ∧
    (bail = true → timers s' = timers s) ∧
    oplog s' = oplog s
      ++ [OpUsartIdleClear (link_usart l); OpStore16 (link_length l) len]
      ++ (if bail then [] else [OpTimerCounter (link_timer l) 0; OpTimerEnable (link_timer l)]).
Proof.
  destruct l; unfold_code; cbn; fn_simpl;
    (destruct (_ =? 0); cbn; [destruct (chftf _); cbn|]);
    (eexists; split; [reflexivity|]; cbn; fn_simpl; norm_log;
     split_and!; try done; intros; by fn_simpl).
Qed.

(** A stopped timer with nothing pending stays as it is. *)
Lemma tick_stopped t s :
  cen (timers s t) = false → upif (timers s t) = false →
  step (EvTick t) s = Some s.
Proof.
  intros Hcen Hup. unfold step, timer_tick. by rewrite Hcen, Hup.
Qed.

(** A running timer below its reload value counts one up. *)
Lemma tick_count t s :
  let r := timers s t in
  cen r = true → tcnt r < car r → upif r = false →
  ∃ s', step (EvTick t) s = Some s' ∧
    timers s' t = mk_timer_regs true (tcnt r + 1) (tpsc r) (car r) (spm r) false ∧
    (∀ t', t' ≠ t → timers s' t' = timers s t') ∧
    buffs s' = buffs s ∧ u16s s' = u16s s ∧ u8s s' = u8s s ∧
    dma0 s' = dma0 s ∧ oplog s' = oplog s.
Proof.
  intros r Hcen Hlt Hup. subst r. unfold step, timer_tick. rewrite Hcen.
  replace (tcnt _ <? car _) with true by (symmetry; apply Z.ltb_lt; lia).
  unfold upd_timer; cbn. fn_simpl. cbn. rewrite Hup.
  eexists; split; [reflexivity|]. cbn. fn_simpl.
  split_and!; try done. intros; by fn_simpl.
Qed.

(** The clock at which a running timer passes its reload value: the update
    interrupt is taken, and the handler finalizes the frame exactly when the
    stored length still agrees with the channel's count. *)
Lemma tick_elapse l s :
  let r := timers s (link_timer l) in
  let c := dma0 s (link_channel l) in
  let len := u16s s (link_length l) in
  let len' := if len =? 0 then link_capacity l else len in
  cen r = true → car r ≤ tcnt r →
  0 ≤ len ≤ 1024 → length (buffs s (link_buff l)) = 1025%nat →
  ∃ s', step (EvTick (link_timer l)) s = Some s' ∧
    timers s' (link_timer l) = mk_timer_regs (negb (spm r)) 0 (tpsc r) (car r) (spm r) false ∧
    (∀ t, t ≠ link_timer l → timers s' t = timers s t) ∧
    dma0 s' = dma0 s ∧
    (∀ v, v ≠ link_length l → u16s s' v = u16s s v) ∧
    (∀ v, v ≠ link_flag l → u8s s' v = u8s s v) ∧
    (∀ v, v ≠ link_buff l → buffs s' v = buffs s v) ∧
    (if len =? u32 (link_capacity l - chcnt c)
     then u16s s' (link_length l) = len' ∧
          buffs s' (link_buff l) = <[Z.to_nat len' := 0]> (buffs s (link_buff l)) ∧
          u8s s' (link_flag l) = 1 ∧
          oplog s' = oplog s ++ [OpTimerUpClear (link_timer l)]
            ++ (if len =? 0 then [OpStore16 (link_length l) (link_capacity l)] else [])
            ++ [OpStoreBuff (link_buff l) len' 0; OpStore8 (link_flag l) 1]
     else u16s s' = u16s s ∧ buffs s' = buffs s ∧ u8s s' = u8s s ∧
          oplog s' = oplog s ++ [OpTimerUpClear (link_timer l)]).
Proof.
  intros r c len len' Hcen Hge Hlen Hbuf. subst r c len' len.
  unfold step, timer_tick. rewrite Hcen.
  replace (tcnt _ <? car _) with false by (symmetry; apply Z.ltb_ge; lia).
  destruct l; unfold_code; cbn; fn_simpl; cbn; fn_simpl;
    (destruct (_ =? u32 _); cbn;
     [ match goal with
       | |- context [u16s s ?v =? 0] => destruct (Z.eqb_spec (u16s s v) 0) as [Hz|Hz]
       end; cbn; fn_simpl; norm_consts; unfold store_buff; cbn; fn_simpl;
       rewrite ?Hbuf;
       [ | replace (0 <=? u16s s _) with true by (symmetry; apply Z.leb_le; lia);
           replace (u16s s _ <? Z.of_nat 1025) with true by (symmetry; apply Z.ltb_lt; lia) ];
       cbn
     | ]);
    (eexists; split; [reflexivity|]; cbn; fn_simpl; norm_log; norm_consts;
     split_and!; try done; intros; by fn_simpl).
Qed.

(** Re-arm of a link: what it writes, in program order, and what it leaves
    behind. *)
Lemma reset_step l s :
  let c := dma0 s (link_channel l) in
  ∃ s', step (EvCall (link_reset l)) s = Some s' ∧
    u16s s' (link_length l) = 0 ∧
    (∀ v, v ≠ link_length l → u16s s' v = u16s s v) ∧
    u8s s' (link_flag l) = 0 ∧
    (∀ v, v ≠ link_flag l → u8s s' v = u8s s v) ∧
    buffs s' = buffs s ∧ timers s' = timers s ∧
    dma0 s' (link_channel l) =
      mk_dma_chan true (link_capacity l) (link_capacity l) (chm0 c) 0 (chcirc c) false ∧
    (∀ ch, ch ≠ link_channel l → dma0 s' ch = dma0 s ch) ∧
    oplog s' = oplog s ++
      [OpDmaChannelDisable (link_channel l);
       OpStore16 (link_length l) 0;
       OpStore8 (link_flag l) 0;
       OpDmaFlagsClear (link_channel l);
       OpDmaTransferNumber (link_channel l) (link_capacity l);
       OpDmaChannelEnable (link_channel l)].
Proof.
  destruct l; unfold_code; cbn; fn_simpl; norm_consts;
    (eexists; split; [reflexivity|]; cbn; fn_simpl; norm_log;
     split_and!; try done; intros; by fn_simpl).
Qed.

(** Bring-up of a link. *)
Lemma init_step l s :
  ∃ s', step (EvCall (link_init l)) s = Some s' ∧
    u16s s' = u16s s ∧ u8s s' = u8s s ∧ buffs s' = buffs s ∧
    dma0 s' (link_channel l) =
      mk_dma_chan true (link_capacity l) (link_capacity l)
        (Some (link_buff l)) 0 true false ∧
    ((∀ l', l' ≠ l → dma0 s' (link_channel l') = dma0 s (link_channel l')) ∧
     (∀ ch, (∀ l', ch ≠ link_channel l') →
        chen (dma0 s ch) = false → chen (dma0 s' ch) = false)) ∧
    timers s' (link_timer l) = mk_timer_regs false 0 299 999 true false ∧
    (∀ t, t ≠ link_timer l → timers s' t = timers s t) ∧
    oplog s' = oplog s ++ link_tx_ops l ++
      [OpDmaDeinit (link_channel l); OpDmaInit (link_channel l);
       OpDmaChannelEnable (link_channel l); OpUsartIdleClear (link_usart l);
       OpTimerConfig (link_timer l); OpTimerUpClear (link_timer l);
       OpTimerDisable (link_timer l)].
Proof.
  destruct l; unfold link_tx_ops; unfold_code; cbn; fn_simpl;
    (eexists; split; [reflexivity|]; cbn; fn_simpl; norm_log;
     split_and!; try done).
  all: try (intros [] ?; try done; by fn_simpl).
  all: try (intros; by fn_simpl).
  all: intros ch Hch Hen;
    pose proof (Hch link_bsp); pose proof (Hch link_terminal);
    pose proof (Hch link_uart4); cbn in *;
    try (by fn_simpl);
    (destruct (decide (ch = 3)) as [->|]; [by fn_simpl|]);
    (destruct (decide (ch = 5)) as [->|]; by fn_simpl).
Qed.

Lemma usart_of_link u : ∃ l, u = link_usart l.
Proof.
  destruct u; [by exists link_bsp | by exists link_terminal | by exists link_uart4].
Qed.

Lemma timer_of_link t : ∃ l, t = link_timer l.
Proof.
  destruct t; [by exists link_bsp | by exists link_terminal | by exists link_uart4].
Qed.

Lemma link_capacity_eq l : link_capacity l = 1024.
Proof. by destruct l. Qed.

Lemma link_length_inj l l' : link_length l = link_length l' → l = l'.
Proof. destruct l, l'; done. Qed.

Lemma link_timer_inj l l' : link_timer l = link_timer l' → l = l'.
Proof. destruct l, l'; done. Qed.

Lemma link_buff_inj l l' : link_buff l = link_buff l' → l = l'.
Proof. destruct l, l'; done. Qed.

Lemma link_flag_inj l l' : link_flag l = link_flag l' → l = l'.
Proof. destruct l, l'; done. Qed.

(** ** The invariant holds in every reachable state, and no step faults *)

Lemma inv_dma ch b s : inv s → ∃ s', step (EvDma ch b) s = Some s' ∧ inv s'.
Proof.
  intros (Hbuf & Hlen & Hch & Hoth & Htim).
  destruct (channel_cases ch) as [[l ->]|Hno].
  - destruct (dma_step l b s (Hch l) (Hbuf _))
      as (s' & Hs & Hb & Hb' & Hc & Hc' & H16 & H8 & Ht & _ & _).
    exists s'. split; [done|].
    pose proof (Hch l) as (Hen & Hm0 & Hcirc & Hnum & Hcnt & Hoff).
    split_and!.
    + intros v. destruct (decide (v = link_buff l)) as [->|Hv].
      * rewrite Hb, length_insert. apply Hbuf.
      * rewrite Hb' by done. apply Hbuf.
    + intros v. rewrite H16. apply Hlen.
    + intros l'. destruct (decide (l' = l)) as [->|Hl].
      * rewrite Hc. unfold channel_ok.
        destruct (Z.eqb_spec (chcnt (dma0 s (link_channel l))) 1); cbn;
          rewrite ?link_capacity_eq in *; split_and!; (done || lia).
      * rewrite Hc'; [apply Hch|]. intros E. by apply link_channel_inj in E.
    + intros ch Hn. rewrite Hc' by apply Hn. by apply Hoth.
    + intros t. rewrite Ht. apply Htim.
  - exists s. split; [|done].
    unfold step, exec, dma_transfer. by rewrite (Hoth ch Hno).
Qed.

Lemma inv_idle u s : inv s → ∃ s', step (EvIdle u) s = Some s' ∧ inv s'.
Proof.
  intros (Hbuf & Hlen & Hch & Hoth & Htim).
  destruct (usart_of_link u) as [l ->].
  destruct (idle_step l s) as (s' & Hs & Hl & Hl' & H8 & Hb & Hd & Ht & Ht' & _ & _).
  exists s'. split; [done|].
  pose proof (Hch l) as (Hen & Hm0 & Hcirc & Hnum & Hcnt & Hoff).
  rewrite link_capacity_eq in *.
  split_and!.
  - intros v. rewrite Hb. apply Hbuf.
  - intros v. destruct (decide (v = link_length l)) as [->|Hv].
    + rewrite Hl, u32_small, u16_small; lia.
    + rewrite Hl' by done. apply Hlen.
  - intros l'. rewrite Hd. apply Hch.
  - intros ch Hn. rewrite Hd. by apply Hoth.
  - intros t. destruct (decide (t = link_timer l)) as [->|Hne].
    + rewrite Ht. destruct (Htim (link_timer l)) as (? & ? & ? & ?).
      destruct (_ && _); [done|]. unfold timer_ok; cbn. split_and!; (done || lia).
    + rewrite Ht' by done. apply Htim.
Qed.

Lemma inv_tick t s : inv s → ∃ s', step (EvTick t) s = Some s' ∧ inv s'.
Proof.
  intros (Hbuf & Hlen & Hch & Hoth & Htim).
  destruct (timer_of_link t) as [l ->].
  destruct (Htim (link_timer l)) as (Hspm & Hcar & Hup & Hcnt).
  destruct (cen (timers s (link_timer l))) eqn:Hcen.
  - destruct (Z_lt_ge_dec (tcnt (timers s (link_timer l))) (car (timers s (link_timer l))))
      as [Hlt|Hge].
    + destruct (tick_count (link_timer l) s Hcen Hlt Hup)
        as (s' & Hs & Ht & Ht' & Hb & H16 & H8 & Hd & _).
      exists s'. split; [done|]. split_and!.
      * intros v. rewrite Hb. apply Hbuf.
      * intros v. rewrite H16. apply Hlen.
      * intros l'. rewrite Hd. apply Hch.
      * intros ch Hn. rewrite Hd. by apply Hoth.
      * intros t. destruct (decide (t = link_timer l)) as [->|Hne].
        -- rewrite Ht. unfold timer_ok; cbn. split_and!; (done || lia).
        -- rewrite Ht' by done. apply Htim.
    + destruct (tick_elapse l s Hcen ltac:(lia) (Hlen _) (Hbuf _))
        as (s' & Hs & Ht & Ht' & Hd & H16 & H8 & Hb & Hfin).
      exists s'. split; [done|]. split_and!.
      * intros v. destruct (decide (v = link_buff l)) as [->|Hv].
        -- destruct (_ =? u32 _).
           ++ destruct Hfin as (_ & -> & _). rewrite length_insert. apply Hbuf.
           ++ destruct Hfin as (_ & -> & _). apply Hbuf.
        -- rewrite Hb by done. apply Hbuf.
      * intros v. destruct (decide (v = link_length l)) as [->|Hv].
        -- destruct (_ =? u32 _).
           ++ destruct Hfin as (-> & _). rewrite link_capacity_eq.
              pose proof (Hlen (link_length l)). destruct (_ =? 0); lia.
           ++ destruct Hfin as (-> & _). apply Hlen.
        -- rewrite H16 by done. apply Hlen.
      * intros l'. rewrite Hd. apply Hch.
      * intros ch Hn. rewrite Hd. by apply Hoth.
      * intros t. destruct (decide (t = link_timer l)) as [->|Hne].
        -- rewrite Ht. unfold timer_ok; cbn. split_and!; (done || lia).
        -- rewrite Ht' by done. apply Htim.
  - exists s. split; [|done]. by apply tick_stopped.
Qed.

(** The consumer of the host link: when a frame is complete it clears the
    first [BSP_USART_RECEIVE_LENGTH] bytes and re-arms. *)
Lemma print_step s :
  length (buffs s g_bsp_usart_recv_buff) = 1025%nat →
  if u8s s g_bsp_usart_recv_complete_flag =? 1 then
    ∃ s1, step (EvCall call_usart_rx_buffer_print) s
            = step (EvCall call_usart_rx_dma_receive_reset) s1 ∧
      buffs s1 g_bsp_usart_recv_buff =
        replicate 1024 0 ++ drop 1024 (buffs s g_bsp_usart_recv_buff) ∧
      (∀ v, v ≠ g_bsp_usart_recv_buff → buffs s1 v = buffs s v) ∧
      u16s s1 = u16s s ∧ u8s s1 = u8s s ∧ dma0 s1 = dma0 s ∧
      timers s1 = timers s ∧
      oplog s1 = oplog s ++ [OpMemset g_bsp_usart_recv_buff 0 1024]
  else step (EvCall call_usart_rx_buffer_print) s = Some s.
Proof.
  intros Hbuf. unfold_code. cbn.
  destruct (_ =? 1); [|done].
  unfold memset. rewrite Hbuf. cbn. norm_consts.
  eexists. split; [reflexivity|]. cbn. fn_simpl.
  split_and!; try done. intros; by fn_simpl.
Qed.

Lemma inv_reset l s : inv s → ∃ s', step (EvCall (link_reset l)) s = Some s' ∧ inv s'.
Proof.
  intros (Hbuf & Hlen & Hch & Hoth & Htim).
  destruct (reset_step l s) as (s' & Hs & Hl & Hl' & _ & _ & Hb & Ht & Hc & Hc' & _).
  exists s'. split; [done|].
  pose proof (Hch l) as (Hen & Hm0 & Hcirc & Hnum & Hcnt & Hoff).
  split_and!.
  - intros v. rewrite Hb. apply Hbuf.
  - intros v. destruct (decide (v = link_length l)) as [->|Hv].
    + rewrite Hl. lia.
    + rewrite Hl' by done. apply Hlen.
  - intros l'. destruct (decide (l' = l)) as [->|Hne].
    + rewrite Hc, Hm0, Hcirc. unfold channel_ok; cbn.
      rewrite link_capacity_eq. split_and!; (done || lia).
    + rewrite Hc'; [apply Hch|]. intros E. by apply link_channel_inj in E.
  - intros ch Hn. rewrite Hc' by apply Hn. by apply Hoth.
  - intros t. rewrite Ht. apply Htim.
Qed.

Lemma inv_init l s : inv s → ∃ s', step (EvCall (link_init l)) s = Some s' ∧ inv s'.
Proof.
  intros (Hbuf & Hlen & Hch & Hoth & Htim).
  destruct (init_step l s) as (s' & Hs & H16 & H8 & Hb & Hc & Hc' & Ht & Ht' & _).
  exists s'. split; [done|]. split_and!.
  - intros v. rewrite Hb. apply Hbuf.
  - intros v. rewrite H16. apply Hlen.
  - intros l'. destruct (decide (l' = l)) as [->|Hne].
    + rewrite Hc. unfold channel_ok; cbn.
      rewrite link_capacity_eq. split_and!; (done || lia).
    + rewrite (proj1 Hc') by done. apply Hch.
  - intros ch Hn. apply (proj2 Hc' ch Hn). by apply Hoth.
  - intros t. destruct (decide (t = link_timer l)) as [->|Hne].
    + rewrite Ht. unfold timer_ok; cbn. split_and!; (done || lia).
    + rewrite Ht' by done. apply Htim.
Qed.

Lemma inv_call f s : inv s → ∃ s', step (EvCall f) s = Some s' ∧ inv s'.
Proof.
  intros Hinv. destruct f.
  - apply (inv_init link_bsp s Hinv).
  - apply (inv_init link_terminal s Hinv).
  - apply (inv_init link_uart4 s Hinv).
  - apply (inv_reset link_bsp s Hinv).
  - apply (inv_reset link_terminal s Hinv).
  - apply (inv_reset link_uart4 s Hinv).
  - pose proof Hinv as (Hbuf & Hlen & Hch & Hoth & Htim).
    pose proof (print_step s (Hbuf _)) as Hp.
    destruct (_ =? 1).
    + destruct Hp as (s1 & -> & Hb & Hb' & H16 & H8 & Hd & Ht & _).
      apply (inv_reset link_bsp). split_and!.
      * intros v. destruct (decide (v = g_bsp_usart_recv_buff)) as [->|Hv].
        -- rewrite Hb, length_app, length_replicate, length_drop, Hbuf. done.
        -- rewrite Hb' by done. apply Hbuf.
      * intros v. rewrite H16. apply Hlen.
      * intros l. rewrite Hd. apply Hch.
      * intros ch Hn. rewrite Hd. by apply Hoth.
      * intros t. rewrite Ht. apply Htim.
    + by exists s.
Qed.

Lemma inv_step e s : inv s → ∃ s', step e s = Some s' ∧ inv s'.
Proof.
  destruct e; [apply inv_dma | apply inv_idle | apply inv_tick | apply inv_call].
Qed.

Lemma inv_preserved e s s' : inv s → step e s = Some s' → inv s'.
Proof.
  intros Hinv Hs. destruct (inv_step e s Hinv) as (s'' & Hs' & Hinv').
  congruence.
Qed.

Lemma reachable_inv s : reachable s → inv s.
Proof.
  induction 1 as [s Hb|e s s' _ IH Hs].
  - by apply inv_boot.
  - by apply (inv_preserved e s).
Qed.

Lemma inv_run es s : inv s → ∃ s', run es s = Some s' ∧ inv s'.
Proof.
  revert s. induction es as [|e es IH]; intros s Hinv.
  - by exists s.
  - destruct (inv_step e s Hinv) as (s1 & Hs & Hinv1).
    destruct (IH s1 Hinv1) as (s' & Hr & Hinv').
    exists s'. cbn. by rewrite Hs.
Qed.

Lemma run_app es1 es2 s :
  run (es1 ++ es2) s = match run es1 s with Some s1 => run es2 s1 | None => None end.
Proof.
  revert s. induction es1 as [|e es1 IH]; intros s; [done|].
  cbn. destruct (step e s); [apply IH|done].
Qed.

Lemma reachable_run es s s' : reachable s → run es s = Some s' → reachable s'.
Proof.
  revert s. induction es as [|e es IH]; intros s Hr Hs; cbn in Hs.
  - congruence.
  - destruct (step e s) as [s1|] eqn:He; [|done].
    apply (IH s1); [|done]. by apply (reachable_step e s).
Qed.

(** ** Runs of one link *)

Lemma filled_empty l s :
  inv s → chcnt (dma0 s (link_channel l)) = link_capacity l → filled l 0 s.
Proof.
  intros (_ & _ & Hch & _) Hcnt.
  destruct (Hch l) as (_ & _ & _ & _ & _ & Hoff).
  unfold filled. rewrite link_capacity_eq in *. cbn. split_and!; lia.
Qed.

Lemma filled_count l j s :
  inv s → filled l j s →
  chcnt (dma0 s (link_channel l)) = (if j =? link_capacity l then link_capacity l else link_capacity l - j).
Proof.
  intros (_ & _ & Hch & _) (Hj & Hoff & _).
  destruct (Hch l) as (_ & _ & _ & _ & _ & Hsum).
  destruct (_ =? _); lia.
Qed.

(** A burst of bytes that fits the buffer lands behind the bytes already
    there. *)
Lemma dma_run l bs : ∀ j s,
  inv s → filled l j s → j + Z.of_nat (length bs) ≤ link_capacity l →
  ∃ s', run (map (EvDma (link_channel l)) bs) s = Some s' ∧
    inv s' ∧ filled l (j + Z.of_nat (length bs)) s' ∧
    buffs s' (link_buff l) =
      take (Z.to_nat j) (buffs s (link_buff l)) ++ bs
        ++ drop (Z.to_nat j + length bs) (buffs s (link_buff l)) ∧
    u16s s' = u16s s ∧ u8s s' = u8s s ∧ timers s' = timers s ∧
    oplog s' = oplog s.
Proof.
  induction bs as [|b bs IH]; intros j s Hinv Hfill Hfit.
  - exists s. cbn. rewrite Z.add_0_r, Nat.add_0_r, take_drop. done.
  - cbn [length map run] in *.
    pose proof Hinv as (Hbuf & _ & Hch & _).
    pose proof (filled_count l j s Hinv Hfill) as Hcnt.
    destruct Hfill as (Hj & Hoff & Hftf).
    rewrite link_capacity_eq in *.
    destruct (Z.eqb_spec j 1024) as [->|Hne]; [lia|].
    destruct (dma_step l b s (Hch l) (Hbuf _))
      as (s1 & Hs & Hb & _ & Hc & _ & H16 & H8 & Ht & _ & Hlog).
    rewrite Hs.
    assert (inv s1) as Hinv1 by (by apply (inv_preserved (EvDma (link_channel l) b) s)).
    assert (filled l (j + 1) s1) as Hfill1.
    { unfold filled. rewrite Hc, Hcnt, Hoff, link_capacity_eq.
      destruct (Z.eqb_spec (1024 - j) 1), (Z.eqb_spec (j + 1) 1024);
        cbn; split_and!; (done || lia). }
    destruct (IH (j + 1) s1 Hinv1 Hfill1) as (s' & Hr & Hinv' & Hfill' & Hb' & H16' & H8' & Ht' & Hlog').
    { lia. }
    exists s'. split; [done|]. split; [done|].
    replace (j + Z.of_nat (S (length bs))) with (j + 1 + Z.of_nat (length bs)) by lia.
    split; [done|].
    split_and!; try congruence.
    rewrite Hb', Hb, Hoff.
    replace (Z.to_nat (j + 1)) with (S (Z.to_nat j)) by lia.
    assert (Z.to_nat j < length (buffs s (link_buff l)))%nat as Hlt
      by (rewrite Hbuf; lia).
    rewrite (take_S_r _ _ b) by (by apply list_lookup_insert_eq).
    rewrite take_insert_ge by lia.
    rewrite drop_insert_lt by lia.
    rewrite <- app_assoc. cbn.
    replace (Z.to_nat j + S (length bs))%nat with (S (Z.to_nat j + length bs)) by lia.
    done.
Qed.

Lemma completions_app l s s' new :
  oplog s' = oplog s ++ new →
  completions l s' =
    (completions l s + count_occ op_eq_dec new (OpStore8 (link_flag l) 1))%nat.
Proof. intros H. unfold completions. by rewrite H, count_occ_app. Qed.

(** Evaluate [count_occ] on an explicit list of operations. *)
Ltac count_ops :=
  cbn [count_occ app];
  repeat match goal with
    | |- context [op_eq_dec ?a ?b] =>
        destruct (op_eq_dec a b);
        try discriminate; try (exfalso; congruence)
    end.

(** Clocks of a running timer that do not reach the reload value only
    count. *)
Lemma ticks_run t n : ∀ s,
  let r := timers s t in
  cen r = true → upif r = false → tcnt r + Z.of_nat n ≤ car r →
  ∃ s', run (replicate n (EvTick t)) s = Some s' ∧
    timers s' t = mk_timer_regs true (tcnt r + Z.of_nat n) (tpsc r) (car r) (spm r) false ∧
    (∀ t', t' ≠ t → timers s' t' = timers s t') ∧
    buffs s' = buffs s ∧ u16s s' = u16s s ∧ u8s s' = u8s s ∧
    dma0 s' = dma0 s ∧ oplog s' = oplog s.
Proof.
  induction n as [|n IH]; intros s r Hcen Hup Hle; subst r.
  - exists s. cbn. rewrite Z.add_0_r. split_and!; try done.
    destruct (timers s t); cbn in *; congruence.
  - destruct (tick_count t s Hcen ltac:(lia) Hup)
      as (s1 & Hs & Ht & Ht' & Hb & H16 & H8 & Hd & Hlog).
    destruct (IH s1) as (s' & Hr & Ht2 & Ht2' & Hb2 & H162 & H82 & Hd2 & Hlog2);
      try (rewrite Ht; cbn; (done || lia)).
    exists s'. cbn [replicate run]. rewrite Hs. split; [done|].
    rewrite Ht in Ht2. cbn in Ht2.
    split_and!; try congruence.
    + rewrite Ht2. f_equal. lia.
    + intros t' Hne. rewrite Ht2', Ht'; done.
Qed.

(** An idle-line event after [j > 0] bytes arms the timer from zero. *)
Lemma idle_filled l j s :
  inv s → filled l j s → 0 < j →
  ∃ s', step (EvIdle (link_usart l)) s = Some s' ∧ inv s' ∧
    u16s s' (link_length l) = (if j =? link_capacity l then 0 else j) ∧
    dma0 s' = dma0 s ∧ buffs s' = buffs s ∧ u8s s' = u8s s ∧
    timers s' (link_timer l) =
      mk_timer_regs true 0 (tpsc (timers s (link_timer l))) 999 true false ∧
    completions l s' = completions l s.
Proof.
  intros Hinv Hfill Hj.
  pose proof (filled_count l j s Hinv Hfill) as Hcnt.
  destruct (idle_step l s) as (s' & Hs & Hl & _ & H8 & Hb & Hd & Ht & _ & _ & Hlog).
  exists s'. split; [done|].
  split; [by apply (inv_preserved (EvIdle (link_usart l)) s)|].
  destruct Hfill as (Hr & Hoff & Hftf).
  destruct Hinv as (_ & _ & _ & _ & Htim).
  destruct (Htim (link_timer l)) as (Hspm & Hcar & Hup & _).
  rewrite Hcnt, link_capacity_eq in *.
  assert (u16 (u32 (1024 - (if j =? 1024 then 1024 else 1024 - j)))
          = (if j =? 1024 then 0 else j)) as Hlen.
  { destruct (Z.eqb_spec j 1024); rewrite u32_small, u16_small; lia. }
  rewrite Hlen in *.
  assert (((if j =? 1024 then 0 else j) =? 0) && negb (chftf (dma0 s (link_channel l)))
          = false) as Hbail.
  { destruct (Z.eqb_spec j 1024) as [->|Hne].
    - rewrite Hftf by done. done.
    - destruct (Z.eqb_spec j 0); [lia|done]. }
  rewrite Hbail in *.
  split_and!; try done.
  - rewrite Ht, Hspm, Hcar, Hup. done.
  - rewrite (completions_app l s s' _ Hlog). count_ops. lia.
Qed.

(** An idle-line event after [j > 0] bytes, followed by a quiet timer
    period, completes one frame of [j] bytes. *)
Lemma frame l j s :
  inv s → filled l j s → 0 < j →
  ∃ s', run (EvIdle (link_usart l) :: replicate 1000 (EvTick (link_timer l))) s = Some s' ∧
    inv s' ∧
    u16s s' (link_length l) = j ∧
    u8s s' (link_flag l) = 1 ∧
    buffs s' (link_buff l) = <[Z.to_nat j := 0]> (buffs s (link_buff l)) ∧
    dma0 s' = dma0 s ∧
    cen (timers s' (link_timer l)) = false ∧
    completions l s' = S (completions l s).
Proof.
  intros Hinv Hfill Hj.
  pose proof (filled_count l j s Hinv Hfill) as Hcnt.
  destruct (idle_filled l j s Hinv Hfill Hj)
    as (s1 & Hs1 & Hinv1 & Hl1 & Hd1 & Hb1 & H81 & Ht1 & Hc1).
  destruct (ticks_run (link_timer l) 999 s1)
    as (s2 & Hs2 & Ht2 & _ & Hb2 & H162 & H82 & Hd2 & Hlog2);
    try (rewrite Ht1; cbn; (done || lia)).
  assert (inv s2) as Hinv2.
  { destruct (inv_run (replicate 999 (EvTick (link_timer l))) s1 Hinv1) as (s2' & Hr & Hi).
    congruence. }
  pose proof Hinv2 as (Hbuf2 & Hlen2 & _).
  destruct (tick_elapse l s2) as (s3 & Hs3 & Ht3 & _ & Hd3 & _ & _ & _ & Hfin);
    try (rewrite Ht2, Ht1; cbn; (done || lia)); [done..|].
  exists s3. split.
  { cbn [run]. rewrite Hs1.
    change 1000%nat with (999 + 1)%nat. rewrite replicate_add, run_app, Hs2.
    cbn [replicate run]. by rewrite Hs3. }
  split; [by apply (inv_preserved (EvTick (link_timer l)) s2)|].
  rewrite H162, Hl1, Hd2, Hd1, Hcnt, link_capacity_eq in Hfin.
  assert (((if j =? 1024 then 0 else j)
           =? u32 (1024 - (if j =? 1024 then 1024 else 1024 - j))) = true) as Hm.
  { destruct Hfill as (Hr & _). rewrite link_capacity_eq in Hr.
    apply Z.eqb_eq. destruct (Z.eqb_spec j 1024); rewrite u32_small; lia. }
  rewrite Hm in Hfin. destruct Hfin as (Hl3 & Hb3 & H83 & Hlog3).
  assert ((if (if j =? 1024 then 0 else j) =? 0 then 1024
           else if j =? 1024 then 0 else j) = j) as Hj'.
  { destruct (Z.eqb_spec j 1024) as [->|]; [done|].
    destruct (Z.eqb_spec j 0); [lia|done]. }
  rewrite Hj' in *.
  split_and!; try done.
  - rewrite Hb3. congruence.
  - congruence.
  - rewrite Ht3, Ht2, Ht1. done.
  - rewrite (completions_app l s2 s3 _ Hlog3).
    assert (completions l s2 = completions l s1) as ->
      by (unfold completions; by rewrite Hlog2).
    rewrite Hc1. destruct (_ =? 0); count_ops; lia.
Qed.

(** The first half of a debounce: an idle-line event after [j > 0] bytes and
    fewer clocks than a timer period complete nothing. *)
Lemma idle_then_ticks l j d s :
  inv s → filled l j s → 0 < j → (d < 1000)%nat →
  ∃ s', run (EvIdle (link_usart l) :: replicate d (EvTick (link_timer l))) s = Some s' ∧
    inv s' ∧ dma0 s' = dma0 s ∧ buffs s' = buffs s ∧ u8s s' = u8s s ∧
    timers s' (link_timer l)
      = mk_timer_regs true (Z.of_nat d) (tpsc (timers s (link_timer l))) 999 true false ∧
    completions l s' = completions l s.
Proof.
  intros Hinv Hfill Hj Hd.
  destruct (idle_filled l j s Hinv Hfill Hj)
    as (s1 & Hs1 & Hinv1 & Hl1 & Hd1 & Hb1 & H81 & Ht1 & Hc1).
  destruct (ticks_run (link_timer l) d s1)
    as (s2 & Hs2 & Ht2 & _ & Hb2 & H162 & H82 & Hd2 & Hlog2);
    try (rewrite Ht1; cbn; (done || lia)).
  exists s2. split; [cbn [run]; by rewrite Hs1|].
  split.
  { destruct (inv_run (replicate d (EvTick (link_timer l))) s1 Hinv1) as (s2' & Hr & Hi).
    congruence. }
  split_and!; try congruence.
  - rewrite Ht2, Ht1. done.
  - unfold completions. rewrite Hlog2. apply Hc1.
Qed.

(** [k] bytes into a freshly armed channel, an idle-line event and a quiet
    timer period: one frame of [k] bytes. *)
Lemma frame_of_bytes l s bs :
  inv s →
  chcnt (dma0 s (link_channel l)) = link_capacity l →
  0 < Z.of_nat (length bs) ≤ link_capacity l →
  ∃ s', run (map (EvDma (link_channel l)) bs
             ++ EvIdle (link_usart l) :: replicate 1000 (EvTick (link_timer l))) s = Some s' ∧
    inv s' ∧
    u8s s' (link_flag l) = 1 ∧
    u16s s' (link_length l) = Z.of_nat (length bs) ∧
    take (length bs) (buffs s' (link_buff l)) = bs ∧
    completions l s' = S (completions l s).
Proof.
  intros Hinv Hcnt Hk.
  destruct (dma_run l bs 0 s Hinv (filled_empty l s Hinv Hcnt))
    as (s1 & Hs1 & Hinv1 & Hfill1 & Hb1 & _ & _ & _ & Hlog1); [lia|].
  rewrite Z.add_0_l in Hfill1.
  destruct (frame l _ s1 Hinv1 Hfill1) as (s2 & Hs2 & Hinv2 & Hl2 & H82 & Hb2 & _ & _ & Hc2);
    [lia|].
  exists s2. rewrite run_app, Hs1. split; [done|].
  split_and!; try done.
  - rewrite Hb2, Hb1. change (Z.to_nat 0) with 0%nat. cbn [take app Nat.add].
    rewrite take_insert_ge by lia. rewrite take_0, app_nil_l. by rewrite take_app_length.
  - rewrite Hc2. unfold completions. by rewrite Hlog1.
Qed.

Lemma booted_reachable : reachable booted.
Proof. apply reachable_boot. reflexivity. Qed.

Lemma after_reachable es : reachable (after es).
Proof.
  unfold after. destruct (run es booted) as [s|] eqn:Hr; cbn.
  - apply (reachable_run es booted s booted_reachable Hr).
  - apply booted_reachable.
Qed.

(** ** Claims *)

(** C1: for every k with 0 < k <= C, when the transport moves exactly k
    bytes into an empty receive buffer, the idle-line event fires and the
    confirmation timer then elapses undisturbed, the completion flag is 1,
    the received length is k, and the k bytes are in the buffer as sent. *)
Theorem C1_frame_of_k_bytes (l : link) (s : mcu) (bs : list Z) :
  reachable s →
  chcnt (dma0 s (link_channel l)) = link_capacity l →
  0 < Z.of_nat (length bs) ≤ link_capacity l →
  ∃ s', run (map (EvDma (link_channel l)) bs
             ++ EvIdle (link_usart l) :: replicate 1000 (EvTick (link_timer l))) s = Some s' ∧
    is_complete l s' = true ∧
    recv_length l s' = Z.of_nat (length bs) ∧
    take (length bs) (recv_buff l s') = bs.
Proof.
  intros Hr Hcnt Hk.
  destruct (frame_of_bytes l s bs (reachable_inv s Hr) Hcnt Hk)
    as (s' & Hs & _ & H8 & H16 & Hb & _).
  exists s'. unfold is_complete, recv_length, recv_buff. rewrite H8. done.
Qed.

(** C1 at the host link after bring-up, for the three bytes of Hi!. *)
Lemma C1_witness :
  reachable booted ∧
  chcnt (dma0 booted (link_channel link_bsp)) = link_capacity link_bsp ∧
  0 < Z.of_nat (length [72; 105; 33]) ≤ link_capacity link_bsp ∧
  ∃ s', run (map (EvDma (link_channel link_bsp)) [72; 105; 33]
             ++ EvIdle (link_usart link_bsp)
                :: replicate 1000 (EvTick (link_timer link_bsp))) booted = Some s' ∧
    is_complete link_bsp s' = true ∧
    recv_length link_bsp s' = Z.of_nat (length [72; 105; 33]) ∧
    take (length [72; 105; 33]) (recv_buff link_bsp s') = [72; 105; 33].
Proof.
  split; [apply booted_reachable|].
  split; [reflexivity|].
  split; [unfold link_capacity, BSP_USART_RECEIVE_LENGTH; simpl; lia|].
  apply (C1_frame_of_k_bytes link_bsp booted [72; 105; 33]).
  - apply booted_reachable.
  - reflexivity.
  - unfold link_capacity, BSP_USART_RECEIVE_LENGTH; simpl; lia.
Defined.

(** C2: when exactly C bytes were transferred, so that the circular
    channel's remaining count has reloaded to C (capacity used computes to
    0) and the full-transfer flag is set, the idle-line event followed by the
    timer period ends with received length C, not 0, and the completion flag
    set. *)
Theorem C2_full_buffer_is_C (l : link) (s : mcu) :
  reachable s →
  chcnt (dma0 s (link_channel l)) = link_capacity l →
  chftf (dma0 s (link_channel l)) = true →
  u32 (link_capacity l - chcnt (dma0 s (link_channel l))) = 0 ∧
  ∃ s1 s', step (EvIdle (link_usart l)) s = Some s1 ∧
    recv_length l s1 = 0 ∧
    run (replicate 1000 (EvTick (link_timer l))) s1 = Some s' ∧
    recv_length l s' = link_capacity l ∧
    is_complete l s' = true.
Proof.
  intros Hr Hcnt Hftf.
  pose proof (reachable_inv s Hr) as Hinv.
  split; [by rewrite Hcnt, Z.sub_diag|].
  assert (filled l (link_capacity l) s) as Hfill.
  { destruct (filled_empty l s Hinv Hcnt) as (_ & Hoff & _).
    unfold filled. rewrite Z.eqb_refl, link_capacity_eq in *. cbn in Hoff.
    split_and!; (done || lia). }
  destruct (frame l _ s Hinv Hfill) as (s' & Hs & _ & Hl & H8 & _);
    [rewrite link_capacity_eq; lia|].
  destruct (idle_filled l _ s Hinv Hfill) as (s1 & Hs1 & _ & Hl1 & _);
    [rewrite link_capacity_eq; lia|].
  rewrite Z.eqb_refl in Hl1.
  exists s1, s'. cbn [run] in Hs. rewrite Hs1 in Hs.
  unfold recv_length, is_complete. rewrite H8. done.
Qed.

(** C2 at the terminal link after 1024 bytes. *)
Lemma C2_witness :
  reachable terminal_full ∧
  chcnt (dma0 terminal_full (link_channel link_terminal)) = link_capacity link_terminal ∧
  chftf (dma0 terminal_full (link_channel link_terminal)) = true ∧
  u32 (link_capacity link_terminal
       - chcnt (dma0 terminal_full (link_channel link_terminal))) = 0 ∧
  ∃ s1 s', step (EvIdle (link_usart link_terminal)) terminal_full = Some s1 ∧
    recv_length link_terminal s1 = 0 ∧
    run (replicate 1000 (EvTick (link_timer link_terminal))) s1 = Some s' ∧
    recv_length link_terminal s' = link_capacity link_terminal ∧
    is_complete link_terminal s' = true.
Proof.
  split; [apply after_reachable|].
  split; [vm_compute; reflexivity|].
  split; [vm_compute; reflexivity|].
  apply (C2_full_buffer_is_C link_terminal terminal_full).
  - apply after_reachable.
  - vm_compute; reflexivity.
  - vm_compute; reflexivity.
Defined.

(** Every clock of a link's timer, in any state the firmware can be in. *)
Lemma tick_any l s :
  inv s →
  let len := u16s s (link_length l) in
  let len' := if len =? 0 then link_capacity l else len in
  ∃ s' new, step (EvTick (link_timer l)) s = Some s' ∧
    oplog s' = oplog s ++ new ∧
    dma0 s' = dma0 s ∧
    (∀ v, v ≠ link_length l → u16s s' v = u16s s v) ∧
    (∀ v, v ≠ link_flag l → u8s s' v = u8s s v) ∧
    (∀ v, v ≠ link_buff l → buffs s' v = buffs s v) ∧
    (∀ t, t ≠ link_timer l → timers s' t = timers s t) ∧
    (if finalizes l s
     then u16s s' (link_length l) = len' ∧
          buffs s' (link_buff l) = <[Z.to_nat len' := 0]> (buffs s (link_buff l)) ∧
          u8s s' (link_flag l) = 1 ∧
          new = [OpTimerUpClear (link_timer l)]
            ++ (if len =? 0 then [OpStore16 (link_length l) (link_capacity l)] else [])
            ++ [OpStoreBuff (link_buff l) len' 0; OpStore8 (link_flag l) 1]
     else u16s s' = u16s s ∧ buffs s' = buffs s ∧ u8s s' = u8s s ∧
          (new = [] ∨ new = [OpTimerUpClear (link_timer l)])).
Proof.
  intros Hinv len len'. subst len len'.
  pose proof Hinv as (Hbuf & Hlen & _ & _ & Htim).
  destruct (Htim (link_timer l)) as (Hspm & Hcar & Hup & Hcnt).
  unfold finalizes.
  destruct (cen (timers s (link_timer l))) eqn:Hcen; cbn [andb].
  - destruct (Z.leb_spec (car (timers s (link_timer l))) (tcnt (timers s (link_timer l))))
      as [Hge|Hlt]; cbn [andb].
    + destruct (tick_elapse l s Hcen Hge (Hlen _) (Hbuf _))
        as (s' & Hs & _ & Ht' & Hd & H16 & H8 & Hb & Hfin).
      destruct (_ =? u32 _).
      * destruct Hfin as (? & ? & ? & Hlog).
        eexists s', _. split; [done|]. split; [apply Hlog|]. done.
      * destruct Hfin as (? & ? & ? & Hlog).
        eexists s', _. split; [done|]. split; [apply Hlog|].
        split_and!; try done. by right.
    + destruct (tick_count (link_timer l) s Hcen Hlt Hup)
        as (s' & Hs & _ & Ht' & Hb & H16 & H8 & Hd & Hlog).
      exists s', []. rewrite app_nil_r. split_and!; try done.
      * intros; by rewrite H16.
      * intros; by rewrite H8.
      * intros; by rewrite Hb.
      * by left.
  - exists s, []. rewrite app_nil_r.
    split; [by apply tick_stopped|]. split_and!; try done. by left.
Qed.

(** The completion flag of a link is only ever raised by the update
    interrupt of the link's own timer, when it finalizes. *)
Lemma completions_step l e s s' :
  inv s → step e s = Some s' → completions l s' ≠ completions l s →
  e = EvTick (link_timer l) ∧ finalizes l s = true.
Proof.
  intros Hinv Hs Hne.
  pose proof Hinv as (Hbuf & Hlen & Hch & Hoth & Htim).
  destruct e as [ch b|u|t|f].
  - destruct (channel_cases ch) as [[l0 ->]|Hno].
    + destruct (dma_step l0 b s (Hch l0) (Hbuf _)) as (s1 & Hs1 & Hrest).
      rewrite Hs in Hs1. injection Hs1 as <-.
      destruct Hrest as (_ & _ & _ & _ & _ & _ & _ & _ & Hlog).
      unfold completions in Hne. by rewrite Hlog in Hne.
    + unfold step, exec, dma_transfer in Hs. rewrite (Hoth ch Hno) in Hs.
      cbn in Hs. by injection Hs as <-.
  - destruct (usart_of_link u) as [l0 ->].
    destruct (idle_step l0 s) as (s1 & Hs1 & Hrest).
    rewrite Hs in Hs1. injection Hs1 as <-.
    destruct Hrest as (_ & _ & _ & _ & _ & _ & _ & _ & Hlog).
    rewrite (completions_app l s s' _ Hlog) in Hne.
    exfalso. apply Hne. destruct (_ && _); count_ops; lia.
  - destruct (timer_of_link t) as [l0 ->].
    destruct (tick_any l0 s Hinv) as (s1 & new & Hs1 & Hlog & _ & _ & _ & _ & _ & Hfin).
    rewrite Hs in Hs1. injection Hs1 as <-.
    rewrite (completions_app l s s' _ Hlog) in Hne.
    destruct (finalizes l0 s) eqn:Hf.
    + destruct (decide (l0 = l)) as [->|Hl]; [done|].
      exfalso. apply Hne. destruct Hfin as (_ & _ & _ & ->).
      assert (link_flag l0 ≠ link_flag l) by (intros E; by apply link_flag_inj in E).
      destruct (_ =? 0); count_ops; lia.
    + exfalso. apply Hne. destruct Hfin as (_ & _ & _ & [-> | ->]); count_ops; lia.
  - exfalso. apply Hne.
    assert (∀ l0, step (EvCall (link_init l0)) s = Some s' →
                  completions l s' = completions l s) as Hinit.
    { intros l0 Hs0. destruct (init_step l0 s) as (s1 & Hs1 & Hrest).
      rewrite Hs0 in Hs1. injection Hs1 as <-.
      destruct Hrest as (_ & _ & _ & _ & _ & _ & _ & Hlog).
      rewrite (completions_app l s s' _ Hlog).
      destruct l0; cbn [link_tx_ops app]; count_ops; lia. }
    assert (∀ l0 s0, step (EvCall (link_reset l0)) s0 = Some s' →
                     completions l s' = completions l s0) as Hreset.
    { intros l0 s0 Hs0. destruct (reset_step l0 s0) as (s1 & Hs1 & Hrest).
      rewrite Hs0 in Hs1. injection Hs1 as <-.
      destruct Hrest as (_ & _ & _ & _ & _ & _ & _ & _ & Hlog).
      rewrite (completions_app l s0 s' _ Hlog). count_ops; lia. }
    destruct f.
    + by apply (Hinit link_bsp).
    + by apply (Hinit link_terminal).
    + by apply (Hinit link_uart4).
    + by apply (Hreset link_bsp).
    + by apply (Hreset link_terminal).
    + by apply (Hreset link_uart4).
    + pose proof (print_step s (Hbuf _)) as Hp.
      destruct (_ =? 1).
      * destruct Hp as (s1 & Hp & _ & _ & _ & _ & _ & _ & Hlog).
        rewrite Hs in Hp. symmetry in Hp.
        rewrite (Hreset link_bsp s1 Hp).
        rewrite (completions_app l s s1 _ Hlog). count_ops; lia.
      * rewrite Hs in Hp. by injection Hp as <-.
Qed.

(** C3: an idle-line event with zero bytes moved since the last re-arm and
    no full-transfer flag completes nothing: the handler returns without
    arming the timer and without touching flag or buffer; a timer that was
    stopped stays stopped however long one waits; and no step of the
    machine ever completes a frame of length zero. *)
Theorem C3_spurious_idle_ignored (l : link) (s : mcu) :
  reachable s →
  chcnt (dma0 s (link_channel l)) = link_capacity l →
  chftf (dma0 s (link_channel l)) = false →
  ∃ s', step (EvIdle (link_usart l)) s = Some s' ∧
    timers s' = timers s ∧
    u8s s' = u8s s ∧
    buffs s' = buffs s ∧
    recv_length l s' = 0 ∧
    completions l s' = completions l s ∧
    (cen (timers s (link_timer l)) = false →
     ∀ n, run (replicate n (EvTick (link_timer l))) s' = Some s') ∧
    (∀ e s1 s2, reachable s1 → step e s1 = Some s2 →
       completions l s2 ≠ completions l s1 → recv_length l s2 ≠ 0).
Proof.
  intros Hr Hcnt Hftf.
  pose proof (reachable_inv s Hr) as Hinv.
  destruct (idle_step l s) as (s' & Hs & Hl & _ & H8 & Hb & _ & _ & _ & Ht & Hlog).
  rewrite Hcnt, Z.sub_diag, Hftf in *. change (u16 (u32 0)) with 0 in *. cbn in Ht, Hlog.
  exists s'. split_and!; try done.
  - by apply Ht.
  - rewrite (completions_app l s s' _ Hlog). count_ops; lia.
  - intros Hcen n. induction n as [|n IH]; [done|].
    cbn [replicate run]. rewrite tick_stopped; [done| |].
    + by rewrite Ht.
    + rewrite Ht by done. destruct Hinv as (_ & _ & _ & _ & Htim).
      by destruct (Htim (link_timer l)) as (_ & _ & ? & _).
  - intros e s1 s2 Hr1 Hs1 Hne.
    pose proof (reachable_inv s1 Hr1) as Hinv1.
    destruct (completions_step l e s1 s2 Hinv1 Hs1 Hne) as [-> Hf].
    destruct (tick_any l s1 Hinv1) as (s2' & new & Hs2 & _ & _ & _ & _ & _ & _ & Hfin).
    rewrite Hs1 in Hs2. injection Hs2 as <-. rewrite Hf in Hfin.
    destruct Hfin as (Hlen & _). unfold recv_length. rewrite Hlen, link_capacity_eq.
    destruct (Z.eqb_spec (u16s s1 (link_length l)) 0); lia.
Qed.

(** C3 at the module link right after bring-up. *)
Lemma C3_witness :
  reachable booted ∧
  chcnt (dma0 booted (link_channel link_uart4)) = link_capacity link_uart4 ∧
  chftf (dma0 booted (link_channel link_uart4)) = false ∧
  ∃ s', step (EvIdle (link_usart link_uart4)) booted = Some s' ∧
    timers s' = timers booted ∧
    u8s s' = u8s booted ∧
    buffs s' = buffs booted ∧
    recv_length link_uart4 s' = 0 ∧
    completions link_uart4 s' = completions link_uart4 booted ∧
    (cen (timers booted (link_timer link_uart4)) = false →
     ∀ n, run (replicate n (EvTick (link_timer link_uart4))) s' = Some s') ∧
    (∀ e s1 s2, reachable s1 → step e s1 = Some s2 →
       completions link_uart4 s2 ≠ completions link_uart4 s1 →
       recv_length link_uart4 s2 ≠ 0).
Proof.
  split; [apply booted_reachable|].
  split; [reflexivity|].
  split; [reflexivity|].
  apply (C3_spurious_idle_ignored link_uart4 booted).
  - apply booted_reachable.
  - reflexivity.
  - reflexivity.
Defined.

(** C4 as claimed fails: in [host_late_byte] the timer of the host link was
    armed by an idle-line event and is running; a byte was moved after the
    idle event.  The next clock is the timer's update, and the completion
    flag is not set by it. *)
Lemma C4_counterexample :
  ¬ (∀ l s s', reachable s →
       cen (timers s (link_timer l)) = true →
       tcnt (timers s (link_timer l)) = car (timers s (link_timer l)) →
       step (EvTick (link_timer l)) s = Some s' →
       is_complete l s' = true).
Proof.
  intros H.
  specialize (H link_bsp host_late_byte
                (default booted (step (EvTick TIMER5) host_late_byte))
                (after_reachable _)).
  assert (is_complete link_bsp
            (default booted (step (EvTick TIMER5) host_late_byte)) = false) as Hf
    by (vm_compute; reflexivity).
  rewrite H in Hf; [discriminate| | |]; vm_compute; reflexivity.
Qed.

(** C4 (amended): when the confirmation timer, armed by an idle-line event,
    elapses, the timer stops and the handler compares the length stored at
    the idle event with C minus the channel's remaining count.  If they
    agree (no byte was moved since), the link finalizes: a stored length of
    0 becomes C, the terminator is written at the length, and the completion
    flag is set.  If they differ, length, buffer and flag stay as they were
    and no frame is completed. *)
Theorem C4_finalize_when_count_unchanged (l : link) (s : mcu) :
  reachable s →
  cen (timers s (link_timer l)) = true →
  tcnt (timers s (link_timer l)) = car (timers s (link_timer l)) →
  ∃ s', step (EvTick (link_timer l)) s = Some s' ∧
    cen (timers s' (link_timer l)) = false ∧
    if recv_length l s =? link_capacity l - chcnt (dma0 s (link_channel l))
    then recv_length l s'
           = (if recv_length l s =? 0 then link_capacity l else recv_length l s) ∧
         recv_buff l s' = <[Z.to_nat (recv_length l s') := 0]> (recv_buff l s) ∧
         is_complete l s' = true ∧
         completions l s' = S (completions l s)
    else recv_length l s' = recv_length l s ∧
         recv_buff l s' = recv_buff l s ∧
         u8s s' (link_flag l) = u8s s (link_flag l) ∧
         completions l s' = completions l s.
Proof.
  intros Hr Hcen Htc.
  pose proof (reachable_inv s Hr) as Hinv.
  pose proof Hinv as (Hbuf & Hlen & Hch & _ & Htim).
  destruct (Htim (link_timer l)) as (Hspm & _).
  destruct (Hch l) as (_ & _ & _ & _ & Hcnt & _).
  destruct (tick_elapse l s Hcen ltac:(lia) (Hlen _) (Hbuf _))
    as (s' & Hs & Ht & _ & _ & _ & _ & _ & Hfin).
  exists s'. split; [done|]. split; [by rewrite Ht, Hspm|].
  rewrite u32_small in Hfin by (rewrite link_capacity_eq in *; lia).
  unfold recv_length, recv_buff, is_complete.
  destruct (_ =? _ - _).
  - destruct Hfin as (Hl & Hb & H8 & Hlog). rewrite Hl, Hb, H8.
    split_and!; try done.
    rewrite (completions_app l s s' _ Hlog). destruct (_ =? 0); count_ops; lia.
  - destruct Hfin as (-> & -> & -> & Hlog). split_and!; try done.
    rewrite (completions_app l s s' _ Hlog). count_ops; lia.
Qed.

(** C4 (amended) at the state of the counterexample: the count has moved on,
    the second branch applies. *)
Lemma C4_witness :
  reachable host_late_byte ∧
  cen (timers host_late_byte (link_timer link_bsp)) = true ∧
  tcnt (timers host_late_byte (link_timer link_bsp))
    = car (timers host_late_byte (link_timer link_bsp)) ∧
  ∃ s', step (EvTick (link_timer link_bsp)) host_late_byte = Some s' ∧
    cen (timers s' (link_timer link_bsp)) = false ∧
    if recv_length link_bsp host_late_byte
       =? link_capacity link_bsp - chcnt (dma0 host_late_byte (link_channel link_bsp))
    then recv_length link_bsp s'
           = (if recv_length link_bsp host_late_byte =? 0
              then link_capacity link_bsp else recv_length link_bsp host_late_byte) ∧
         recv_buff link_bsp s'
           = <[Z.to_nat (recv_length link_bsp s') := 0]> (recv_buff link_bsp host_late_byte) ∧
         is_complete link_bsp s' = true ∧
         completions link_bsp s' = S (completions link_bsp host_late_byte)
    else recv_length link_bsp s' = recv_length link_bsp host_late_byte ∧
         recv_buff link_bsp s' = recv_buff link_bsp host_late_byte ∧
         u8s s' (link_flag link_bsp) = u8s host_late_byte (link_flag link_bsp) ∧
         completions link_bsp s' = completions link_bsp host_late_byte.
Proof.
  split; [apply after_reachable|].
  split; [vm_compute; reflexivity|].
  split; [vm_compute; reflexivity|].
  apply (C4_finalize_when_count_unchanged link_bsp host_late_byte).
  - apply after_reachable.
  - vm_compute; reflexivity.
  - vm_compute; reflexivity.
Defined.

(** C5: k bytes and an idle-line event, then, before the timer period is
    over, m more bytes and a second idle-line event, then a quiet timer
    period: one completed frame of k + m bytes.  The second idle event
    restarts the timer from zero, and nothing is completed before the final
    period has run out. *)
Theorem C5_bursts_coalesce (l : link) (s : mcu) (bs1 bs2 : list Z) (d : nat) :
  reachable s →
  chcnt (dma0 s (link_channel l)) = link_capacity l →
  0 < Z.of_nat (length bs1) →
  Z.of_nat (length bs1) + Z.of_nat (length bs2) ≤ link_capacity l →
  (d < 1000)%nat →
  ∃ s2 s',
    run (map (EvDma (link_channel l)) bs1
         ++ EvIdle (link_usart l) :: replicate d (EvTick (link_timer l))
         ++ map (EvDma (link_channel l)) bs2
         ++ [EvIdle (link_usart l)]) s = Some s2 ∧
    completions l s2 = completions l s ∧
    cen (timers s2 (link_timer l)) = true ∧
    tcnt (timers s2 (link_timer l)) = 0 ∧
    run (replicate 1000 (EvTick (link_timer l))) s2 = Some s' ∧
    is_complete l s' = true ∧
    recv_length l s' = Z.of_nat (length bs1) + Z.of_nat (length bs2) ∧
    take (length bs1 + length bs2) (recv_buff l s') = bs1 ++ bs2 ∧
    completions l s' = S (completions l s).
Proof.
  intros Hr Hcnt Hk Hfit Hd.
  pose proof (reachable_inv s Hr) as Hinv.
  destruct (dma_run l bs1 0 s Hinv (filled_empty l s Hinv Hcnt))
    as (s1 & Hs1 & Hinv1 & Hfill1 & Hb1 & _ & _ & _ & Hlog1); [lia|].
  rewrite Z.add_0_l in Hfill1.
  destruct (idle_then_ticks l _ d s1 Hinv1 Hfill1 Hk Hd)
    as (sa & Hsa & Hinva & Hda & Hba & _ & _ & Hca).
  assert (filled l (Z.of_nat (length bs1)) sa) as Hfilla
    by (unfold filled; by rewrite Hda).
  destruct (dma_run l bs2 _ sa Hinva Hfilla Hfit)
    as (sb & Hsb & Hinvb & Hfillb & Hbb & _ & _ & _ & Hlogb).
  destruct (idle_filled l _ sb Hinvb Hfillb) as (s2 & Hs2 & _ & _ & _ & _ & _ & Ht2 & Hc2);
    [lia|].
  destruct (frame l _ sb Hinvb Hfillb) as (s' & Hs' & _ & Hl' & H8' & Hb' & _ & _ & Hc');
    [lia|].
  cbn [run] in Hs'. rewrite Hs2 in Hs'.
  assert (completions l sb = completions l s) as Hcb.
  { unfold completions in *. rewrite Hlogb. rewrite Hca. by rewrite Hlog1. }
  exists s2, s'. split.
  { rewrite run_app, Hs1. rewrite app_comm_cons, run_app, Hsa.
    rewrite run_app, Hsb. cbn [run]. by rewrite Hs2. }
  rewrite Ht2. cbn [cen tcnt].
  unfold is_complete, recv_length, recv_buff. rewrite H8', Hl', Hc', Hc2, Hcb.
  split_and!; try done.
  rewrite Hb', Hbb, Hba, Hb1.
  rewrite take_insert_ge by lia.
  change (Z.to_nat 0) with 0%nat. rewrite take_0, app_nil_l, Nat.add_0_l.
  rewrite Nat2Z.id, take_app_length, app_assoc.
  rewrite take_app_le by (rewrite length_app; lia).
  rewrite take_ge by (rewrite length_app; lia). done.
Qed.

(** C5 at the host link: three bytes, 400 clocks of pause, two more bytes. *)
Lemma C5_witness :
  reachable booted ∧
  chcnt (dma0 booted (link_channel link_bsp)) = link_capacity link_bsp ∧
  0 < Z.of_nat (length [1; 2; 3]) ∧
  Z.of_nat (length [1; 2; 3]) + Z.of_nat (length [4; 5]) ≤ link_capacity link_bsp ∧
  (400 < 1000)%nat ∧
  ∃ s2 s',
    run (map (EvDma (link_channel link_bsp)) [1; 2; 3]
         ++ EvIdle (link_usart link_bsp) :: replicate 400 (EvTick (link_timer link_bsp))
         ++ map (EvDma (link_channel link_bsp)) [4; 5]
         ++ [EvIdle (link_usart link_bsp)]) booted = Some s2 ∧
    completions link_bsp s2 = completions link_bsp booted ∧
    cen (timers s2 (link_timer link_bsp)) = true ∧
    tcnt (timers s2 (link_timer link_bsp)) = 0 ∧
    run (replicate 1000 (EvTick (link_timer link_bsp))) s2 = Some s' ∧
    is_complete link_bsp s' = true ∧
    recv_length link_bsp s' = Z.of_nat (length [1; 2; 3]) + Z.of_nat (length [4; 5]) ∧
    take (length [1; 2; 3] + length [4; 5]) (recv_buff link_bsp s') = [1; 2; 3] ++ [4; 5] ∧
    completions link_bsp s' = S (completions link_bsp booted).
Proof.
  split; [apply booted_reachable|].
  split; [reflexivity|].
  split; [simpl; lia|].
  split; [unfold link_capacity, BSP_USART_RECEIVE_LENGTH; simpl; lia|].
  split; [lia|].
  apply (C5_bursts_coalesce link_bsp booted [1; 2; 3] [4; 5] 400).
  - apply booted_reachable.
  - reflexivity.
  - simpl; lia.
  - unfold link_capacity, BSP_USART_RECEIVE_LENGTH; simpl; lia.
  - lia.
Defined.

(** C6: re-arm disables the channel, zeroes received length and completion
    flag, clears the channel's flags, programs the transfer number C and
    enables the channel, in this order.  Afterwards the link is not
    complete, the channel expects C bytes from the buffer origin, and bytes,
    an idle-line event and a quiet timer period give a frame of exactly the
    bytes sent. *)
Theorem C6_rearm (l : link) (s : mcu) (bs : list Z) :
  reachable s →
  0 < Z.of_nat (length bs) ≤ link_capacity l →
  ∃ s1, step (EvCall (link_reset l)) s = Some s1 ∧
    oplog s1 = oplog s ++
      [OpDmaChannelDisable (link_channel l);
       OpStore16 (link_length l) 0;
       OpStore8 (link_flag l) 0;
       OpDmaFlagsClear (link_channel l);
       OpDmaTransferNumber (link_channel l) (link_capacity l);
       OpDmaChannelEnable (link_channel l)] ∧
    is_complete l s1 = false ∧
    recv_length l s1 = 0 ∧
    dma0 s1 (link_channel l) =
      mk_dma_chan true (link_capacity l) (link_capacity l) (Some (link_buff l)) 0 true false ∧
    ∃ s2, run (map (EvDma (link_channel l)) bs
               ++ EvIdle (link_usart l) :: replicate 1000 (EvTick (link_timer l))) s1
            = Some s2 ∧
      is_complete l s2 = true ∧
      recv_length l s2 = Z.of_nat (length bs) ∧
      take (length bs) (recv_buff l s2) = bs.
Proof.
  intros Hr Hk.
  pose proof (reachable_inv s Hr) as Hinv.
  destruct (reset_step l s) as (s1 & Hs1 & Hl & _ & H8 & _ & _ & _ & Hc & _ & Hlog).
  assert (inv s1) as Hinv1 by (by apply (inv_preserved (EvCall (link_reset l)) s)).
  pose proof Hinv as (_ & _ & Hch & _).
  destruct (Hch l) as (_ & Hm0 & Hcirc & _).
  rewrite Hm0, Hcirc in Hc.
  destruct (frame_of_bytes l s1 bs Hinv1) as (s2 & Hs2 & _ & H82 & Hl2 & Hb2 & _);
    [by rewrite Hc|done|].
  exists s1. unfold is_complete, recv_length, recv_buff.
  rewrite H8, Hl. split_and!; try done.
  exists s2. by rewrite H82.
Qed.

(** C6 at the host link, re-armed in the middle of a reception. *)
Lemma C6_witness :
  reachable host_late_byte ∧
  0 < Z.of_nat (length [79; 75]) ≤ link_capacity link_bsp ∧
  ∃ s1, step (EvCall (link_reset link_bsp)) host_late_byte = Some s1 ∧
    oplog s1 = oplog host_late_byte ++
      [OpDmaChannelDisable (link_channel link_bsp);
       OpStore16 (link_length link_bsp) 0;
       OpStore8 (link_flag link_bsp) 0;
       OpDmaFlagsClear (link_channel link_bsp);
       OpDmaTransferNumber (link_channel link_bsp) (link_capacity link_bsp);
       OpDmaChannelEnable (link_channel link_bsp)] ∧
    is_complete link_bsp s1 = false ∧
    recv_length link_bsp s1 = 0 ∧
    dma0 s1 (link_channel link_bsp) =
      mk_dma_chan true (link_capacity link_bsp) (link_capacity link_bsp)
        (Some (link_buff link_bsp)) 0 true false ∧
    ∃ s2, run (map (EvDma (link_channel link_bsp)) [79; 75]
               ++ EvIdle (link_usart link_bsp)
                  :: replicate 1000 (EvTick (link_timer link_bsp))) s1
            = Some s2 ∧
      is_complete link_bsp s2 = true ∧
      recv_length link_bsp s2 = Z.of_nat (length [79; 75]) ∧
      take (length [79; 75]) (recv_buff link_bsp s2) = [79; 75].
Proof.
  split; [apply after_reachable|].
  split; [unfold link_capacity, BSP_USART_RECEIVE_LENGTH; simpl; lia|].
  apply (C6_rearm link_bsp host_late_byte [79; 75]).
  - apply after_reachable.
  - unfold link_capacity, BSP_USART_RECEIVE_LENGTH; simpl; lia.
Defined.

(** C7: after every step of the machine each link's received length is in
    [0, C]; the idle-line handler stores C minus the channel's remaining
    count, the update handler leaves the length or replaces 0 by C, and
    re-arm stores 0. *)
Theorem C7_length_in_range (l : link) (e : event) (s s' : mcu) :
  reachable s → step e s = Some s' →
  0 ≤ recv_length l s' ≤ link_capacity l ∧
  (e = EvIdle (link_usart l) →
   recv_length l s' = link_capacity l - chcnt (dma0 s (link_channel l))) ∧
  (e = EvTick (link_timer l) →
   recv_length l s' = recv_length l s ∨
   (recv_length l s = 0 ∧ recv_length l s' = link_capacity l)) ∧
  (e = EvCall (link_reset l) → recv_length l s' = 0).
Proof.
  intros Hr Hs.
  pose proof (reachable_inv s Hr) as Hinv.
  pose proof (inv_preserved e s s' Hinv Hs) as (_ & Hlen' & _).
  unfold recv_length. rewrite link_capacity_eq. split; [apply Hlen'|].
  split_and!; intros ->.
  - destruct (idle_step l s) as (s1 & Hs1 & Hl & _).
    rewrite Hs in Hs1. injection Hs1 as <-.
    destruct Hinv as (_ & _ & Hch & _).
    destruct (Hch l) as (_ & _ & _ & _ & Hcnt & _).
    rewrite link_capacity_eq in *.
    rewrite Hl, u32_small, u16_small; lia.
  - destruct (tick_any l s Hinv) as (s1 & new & Hs1 & _ & _ & _ & _ & _ & _ & Hfin).
    rewrite Hs in Hs1. injection Hs1 as <-.
    destruct (finalizes l s).
    + destruct Hfin as (-> & _). rewrite link_capacity_eq.
      destruct (Z.eqb_spec (u16s s (link_length l)) 0); [by right|by left].
    + destruct Hfin as (-> & _). by left.
  - destruct (reset_step l s) as (s1 & Hs1 & Hl & _).
    rewrite Hs in Hs1. by injection Hs1 as <-.
Qed.

(** C7 for the idle-line event of the host link after five bytes. *)
Lemma C7_witness :
  reachable host_five ∧
  step (EvIdle USART0) host_five = Some host_five_idle ∧
  0 ≤ recv_length link_bsp host_five_idle ≤ link_capacity link_bsp ∧
  (EvIdle USART0 = EvIdle (link_usart link_bsp) →
   recv_length link_bsp host_five_idle
     = link_capacity link_bsp - chcnt (dma0 host_five (link_channel link_bsp))) ∧
  (EvIdle USART0 = EvTick (link_timer link_bsp) →
   recv_length link_bsp host_five_idle = recv_length link_bsp host_five ∨
   (recv_length link_bsp host_five = 0 ∧
    recv_length link_bsp host_five_idle = link_capacity link_bsp)) ∧
  (EvIdle USART0 = EvCall (link_reset link_bsp) →
   recv_length link_bsp host_five_idle = 0).
Proof.
  split; [apply after_reachable|].
  split; [vm_compute; reflexivity|].
  apply (C7_length_in_range link_bsp (EvIdle USART0) host_five host_five_idle).
  - apply after_reachable.
  - vm_compute; reflexivity.
Defined.

(** C8: every receive buffer has C + 1 bytes.  A finalization performs
    exactly one buffer store, of the terminator 0 at index received length;
    the index is at most C and inside the buffer, and the bytes below it are
    as they were.  A timer clock that does not finalize stores nothing to
    any buffer. *)
Theorem C8_terminator_in_bounds (l : link) (s : mcu) :
  reachable s →
  length (recv_buff l s) = Z.to_nat (link_capacity l + 1) ∧
  ∃ s' new, step (EvTick (link_timer l)) s = Some s' ∧
    oplog s' = oplog s ++ new ∧
    if finalizes l s then
      buff_writes new = [OpStoreBuff (link_buff l) (recv_length l s') 0] ∧
      0 ≤ recv_length l s' ≤ link_capacity l ∧
      (Z.to_nat (recv_length l s') < length (recv_buff l s))%nat ∧
      recv_buff l s' = <[Z.to_nat (recv_length l s') := 0]> (recv_buff l s) ∧
      recv_buff l s' !! Z.to_nat (recv_length l s') = Some 0 ∧
      take (Z.to_nat (recv_length l s')) (recv_buff l s')
        = take (Z.to_nat (recv_length l s')) (recv_buff l s)
    else buff_writes new = [] ∧ buffs s' = buffs s.
Proof.
  intros Hr.
  pose proof (reachable_inv s Hr) as Hinv.
  pose proof Hinv as (Hbuf & Hlen & _).
  unfold recv_buff, recv_length. rewrite link_capacity_eq.
  split; [apply Hbuf|].
  destruct (tick_any l s Hinv) as (s' & new & Hs & Hlog & _ & _ & _ & _ & _ & Hfin).
  exists s', new. split; [done|]. split; [done|].
  destruct (finalizes l s).
  - destruct Hfin as (Hl & Hb & _ & ->). rewrite Hl, Hb, link_capacity_eq.
    pose proof (Hlen (link_length l)) as Hrange.
    assert (0 ≤ (if u16s s (link_length l) =? 0 then 1024 else u16s s (link_length l))
            ≤ 1024) as Hr' by (destruct (_ =? 0); lia).
    split_and!.
    + by destruct (u16s s (link_length l) =? 0).
    + lia.
    + lia.
    + rewrite Hbuf. lia.
    + done.
    + apply list_lookup_insert_eq. rewrite Hbuf. lia.
    + by rewrite take_insert_ge.
  - destruct Hfin as (_ & Hb & _ & [-> | ->]); done.
Qed.

(** C8 for the clock that finalizes five bytes on the host link. *)
Lemma C8_witness :
  reachable host_quiet ∧
  length (recv_buff link_bsp host_quiet) = Z.to_nat (link_capacity link_bsp + 1) ∧
  ∃ s' new, step (EvTick (link_timer link_bsp)) host_quiet = Some s' ∧
    oplog s' = oplog host_quiet ++ new ∧
    if finalizes link_bsp host_quiet then
      buff_writes new = [OpStoreBuff (link_buff link_bsp) (recv_length link_bsp s') 0] ∧
      0 ≤ recv_length link_bsp s' ≤ link_capacity link_bsp ∧
      (Z.to_nat (recv_length link_bsp s') < length (recv_buff link_bsp host_quiet))%nat ∧
      recv_buff link_bsp s'
        = <[Z.to_nat (recv_length link_bsp s') := 0]> (recv_buff link_bsp host_quiet) ∧
      recv_buff link_bsp s' !! Z.to_nat (recv_length link_bsp s') = Some 0 ∧
      take (Z.to_nat (recv_length link_bsp s')) (recv_buff link_bsp s')
        = take (Z.to_nat (recv_length link_bsp s')) (recv_buff link_bsp host_quiet)
    else buff_writes new = [] ∧ buffs s' = buffs host_quiet.
Proof.
  split; [apply after_reachable|].
  apply (C8_terminator_in_bounds link_bsp host_quiet).
  apply after_reachable.
Defined.

(** C9: the events of one link (a transfer of its channel, its idle-line
    interrupt, a clock of its timer with the finalization it may trigger,
    its re-arm) leave buffer, received length, completion flag, timer and
    channel of every other link unchanged. *)
Theorem C9_links_independent (l l' : link) (e : event) (s s' : mcu) :
  reachable s → l ≠ l' →
  e = EvTick (link_timer l) ∨ e = EvCall (link_reset l) ∨
  e = EvIdle (link_usart l) ∨ (∃ b, e = EvDma (link_channel l) b) →
  step e s = Some s' →
  recv_buff l' s' = recv_buff l' s ∧
  recv_length l' s' = recv_length l' s ∧
  u8s s' (link_flag l') = u8s s (link_flag l') ∧
  timers s' (link_timer l') = timers s (link_timer l') ∧
  dma0 s' (link_channel l') = dma0 s (link_channel l').
Proof.
  intros Hr Hne He Hs.
  pose proof (reachable_inv s Hr) as Hinv.
  assert (link_buff l' ≠ link_buff l) by (intros E; by apply link_buff_inj in E).
  assert (link_length l' ≠ link_length l) by (intros E; by apply link_length_inj in E).
  assert (link_flag l' ≠ link_flag l) by (intros E; by apply link_flag_inj in E).
  assert (link_timer l' ≠ link_timer l) by (intros E; by apply link_timer_inj in E).
  assert (link_channel l' ≠ link_channel l) by (intros E; by apply link_channel_inj in E).
  unfold recv_buff, recv_length.
  destruct He as [-> | [-> | [-> | [b ->]]]].
  - destruct (tick_any l s Hinv) as (s1 & new & Hs1 & _ & Hd & H16 & H8 & Hb & Ht & _).
    rewrite Hs in Hs1. injection Hs1 as <-.
    rewrite Hd, H16, H8, Hb, Ht; done.
  - destruct (reset_step l s) as (s1 & Hs1 & _ & H16 & _ & H8 & Hb & Ht & _ & Hd & _).
    rewrite Hs in Hs1. injection Hs1 as <-.
    rewrite Hd, H16, H8, Hb, Ht; done.
  - destruct (idle_step l s) as (s1 & Hs1 & _ & H16 & H8 & Hb & Hd & _ & Ht & _).
    rewrite Hs in Hs1. injection Hs1 as <-.
    rewrite Hd, H16, H8, Hb, Ht; done.
  - pose proof Hinv as (Hbuf & _ & Hch & _).
    destruct (dma_step l b s (Hch l) (Hbuf _))
      as (s1 & Hs1 & _ & Hb & _ & Hd & H16 & H8 & Ht & _).
    rewrite Hs in Hs1. injection Hs1 as <-.
    rewrite Hd, H16, H8, Hb, Ht; done.
Qed.

(** C9: the terminal link finalizes while the host link holds a completed
    frame. *)
Lemma C9_witness :
  reachable host_done ∧ link_terminal ≠ link_bsp ∧
  (EvTick TIMER6 = EvTick (link_timer link_terminal) ∨
   EvTick TIMER6 = EvCall (link_reset link_terminal) ∨
   EvTick TIMER6 = EvIdle (link_usart link_terminal) ∨
   (∃ b, EvTick TIMER6 = EvDma (link_channel link_terminal) b)) ∧
  step (EvTick TIMER6) host_done = Some host_done_terminal_done ∧
  recv_buff link_bsp host_done_terminal_done = recv_buff link_bsp host_done ∧
  recv_length link_bsp host_done_terminal_done = recv_length link_bsp host_done ∧
  u8s host_done_terminal_done (link_flag link_bsp) = u8s host_done (link_flag link_bsp) ∧
  timers host_done_terminal_done (link_timer link_bsp)
    = timers host_done (link_timer link_bsp) ∧
  dma0 host_done_terminal_done (link_channel link_bsp)
    = dma0 host_done (link_channel link_bsp).
Proof.
  split; [apply after_reachable|].
  split; [discriminate|].
  split; [left; reflexivity|].
  split; [vm_compute; reflexivity|].
  apply (C9_links_independent link_terminal link_bsp (EvTick TIMER6) host_done).
  - apply after_reachable.
  - discriminate.
  - left; reflexivity.
  - vm_compute; reflexivity.
Defined.

Lemma link_usart_inj l l' : link_usart l = link_usart l' → l = l'.
Proof. destruct l, l'; done. Qed.

(** Evaluate [length_stores] on an explicit list, for links [l0] and [l]
    known to be equal or different. *)
Ltac eval_stores :=
  unfold length_stores; cbn [List.filter app];
  rewrite ?bool_decide_eq_true_2 by done;
  rewrite ?bool_decide_eq_false_2
    by (let E := fresh in intros E; apply link_length_inj in E; congruence);
  cbn [List.filter app].

Ltac case_bail :=
  match goal with
  | |- context [if ?b then [] else _] => destruct b
  end.

(** C10 as claimed fails: on the host link, five bytes and an idle-line
    event; the idle-line handler, which is neither finalization nor re-arm,
    stores 5 to the received-length variable. *)
Lemma C10_counterexample :
  ¬ (∀ l e s s' new, reachable s → step e s = Some s' →
       oplog s' = oplog s ++ new → length_stores l new ≠ [] →
       e = EvTick (link_timer l) ∨ e = EvCall (link_reset l) ∨
       e = EvCall call_usart_rx_buffer_print).
Proof.
  intros H.
  destruct (H link_bsp (EvIdle USART0) host_five host_five_idle
              [OpUsartIdleClear USART0; OpStore16 g_bsp_usart_recv_length 5;
               OpTimerCounter TIMER5 0; OpTimerEnable TIMER5])
    as [E | [E | E]]; try discriminate E.
  - apply after_reachable.
  - vm_compute; reflexivity.
  - vm_compute; reflexivity.
  - vm_compute. discriminate.
Qed.

(** C10 (amended): the received-length variable of a link is stored to by
    the link's idle-line handler (at every idle-line event: C minus the
    channel's remaining count), by timer-elapse finalization, which only
    replaces 0 by C (a clock of the link's timer that does not finalize, or
    finalizes a non-zero length, stores nothing), and by the link's re-arm,
    which stores 0, called directly or by the consumer
    [usart_rx_buffer_print] when a frame is complete; no other step of the
    machine stores to it. *)
Theorem C10_length_writers (l : link) (e : event) (s s' : mcu) :
  reachable s → step e s = Some s' →
  ∃ new, oplog s' = oplog s ++ new ∧
    (length_stores l new ≠ [] →
     e = EvIdle (link_usart l) ∨ e = EvTick (link_timer l) ∨
     e = EvCall (link_reset l) ∨
     (l = link_bsp ∧ e = EvCall call_usart_rx_buffer_print)) ∧
    (e = EvIdle (link_usart l) →
     length_stores l new
       = [OpStore16 (link_length l)
            (link_capacity l - chcnt (dma0 s (link_channel l)))]) ∧
    (e = EvTick (link_timer l) →
     length_stores l new
       = if finalizes l s && (recv_length l s =? 0)
         then [OpStore16 (link_length l) (link_capacity l)]
         else []) ∧
    (e = EvCall (link_reset l) →
     length_stores l new = [OpStore16 (link_length l) 0]) ∧
    (l = link_bsp → e = EvCall call_usart_rx_buffer_print →
     length_stores l new
       = if is_complete l s then [OpStore16 (link_length l) 0] else []).
Proof.
  intros Hr Hs.
  pose proof (reachable_inv s Hr) as Hinv.
  pose proof Hinv as (Hbuf & Hlen & Hch & Hoth & Htim).
  destruct e as [ch b|u|t|f].
  - exists []. rewrite app_nil_r. split_and!; [|done..].
    destruct (channel_cases ch) as [[l0 ->]|Hno].
    + destruct (dma_step l0 b s (Hch l0) (Hbuf _)) as (s1 & Hs1 & Hrest).
      rewrite Hs in Hs1. injection Hs1 as <-.
      by destruct Hrest as (_ & _ & _ & _ & _ & _ & _ & _ & Hlog).
    + unfold step, exec, dma_transfer in Hs. rewrite (Hoth ch Hno) in Hs.
      cbn in Hs. by injection Hs as <-.
  - destruct (usart_of_link u) as [l0 ->].
    destruct (idle_step l0 s) as (s1 & Hs1 & Hrest).
    rewrite Hs in Hs1. injection Hs1 as <-.
    destruct Hrest as (_ & _ & _ & _ & _ & _ & _ & _ & Hlog).
    eexists. split; [apply Hlog|].
    destruct (decide (l0 = l)) as [->|Hl].
    + split; [by left|]. split_and!; [|done..]. intros _.
      destruct (Hch l) as (_ & _ & _ & _ & Hcnt & _). rewrite link_capacity_eq in *.
      rewrite u32_small, u16_small by lia.
      case_bail; by eval_stores.
    + split_and!; [| |done..].
      * intros Hne. exfalso. apply Hne. case_bail; by eval_stores.
      * intros E. injection E as E. by apply link_usart_inj in E.
  - destruct (timer_of_link t) as [l0 ->].
    destruct (tick_any l0 s Hinv) as (s1 & new & Hs1 & Hlog & _ & _ & _ & _ & _ & Hfin).
    rewrite Hs in Hs1. injection Hs1 as <-.
    exists new. split; [done|].
    destruct (decide (l0 = l)) as [->|Hl].
    + split; [by right; left|]. split_and!; [done| |done..].
      intros _. unfold recv_length.
      destruct (finalizes l s); cbn [andb].
      * destruct Hfin as (_ & _ & _ & ->).
        destruct (u16s s (link_length l) =? 0); by eval_stores.
      * by destruct Hfin as (_ & _ & _ & [-> | ->]).
    + split_and!; [|done| |done..].
      * intros Hne. exfalso. apply Hne.
        destruct (finalizes l0 s).
        -- destruct Hfin as (_ & _ & _ & ->). destruct (_ =? 0); by eval_stores.
        -- by destruct Hfin as (_ & _ & _ & [-> | ->]).
      * intros E. injection E as E. by apply link_timer_inj in E.
  - assert (∀ l0 s0, step (EvCall (link_reset l0)) s0 = Some s' →
              ∃ new, oplog s' = oplog s0 ++ new ∧
                (length_stores l new ≠ [] → l0 = l) ∧
                (l0 = l → length_stores l new = [OpStore16 (link_length l) 0]))
      as Hreset.
    { intros l0 s0 Hs0. destruct (reset_step l0 s0) as (s1 & Hs1 & Hrest).
      rewrite Hs0 in Hs1. injection Hs1 as <-.
      destruct Hrest as (_ & _ & _ & _ & _ & _ & _ & _ & Hlog).
      eexists. split; [apply Hlog|].
      destruct (decide (l0 = l)) as [->|Hl].
      - split; [done|]. intros _. by eval_stores.
      - split; [|done]. intros Hne. exfalso. apply Hne. by eval_stores. }
    assert (∀ l0, step (EvCall (link_init l0)) s = Some s' →
              ∃ new, oplog s' = oplog s ++ new ∧ length_stores l new = []) as Hinit.
    { intros l0 Hs0. destruct (init_step l0 s) as (s1 & Hs1 & Hrest).
      rewrite Hs0 in Hs1. injection Hs1 as <-.
      destruct Hrest as (_ & _ & _ & _ & _ & _ & _ & Hlog).
      eexists. split; [apply Hlog|].
      destruct l0; cbn [link_tx_ops app]; by eval_stores. }
    assert (∀ l0 new, f = link_reset l0 → oplog s' = oplog s ++ new →
              (length_stores l new ≠ [] → l0 = l) →
              (l0 = l → length_stores l new = [OpStore16 (link_length l) 0]) →
              ∃ new, oplog s' = oplog s ++ new ∧
                (length_stores l new ≠ [] →
                 EvCall f = EvIdle (link_usart l) ∨ EvCall f = EvTick (link_timer l) ∨
                 EvCall f = EvCall (link_reset l) ∨
                 (l = link_bsp ∧ EvCall f = EvCall call_usart_rx_buffer_print)) ∧
                (EvCall f = EvIdle (link_usart l) →
                 length_stores l new
                   = [OpStore16 (link_length l)
                        (link_capacity l - chcnt (dma0 s (link_channel l)))]) ∧
                (EvCall f = EvTick (link_timer l) →
                 length_stores l new
                   = if finalizes l s && (recv_length l s =? 0)
                     then [OpStore16 (link_length l) (link_capacity l)]
                     else []) ∧
                (EvCall f = EvCall (link_reset l) →
                 length_stores l new = [OpStore16 (link_length l) 0]) ∧
                (l = link_bsp → EvCall f = EvCall call_usart_rx_buffer_print →
                 length_stores l new
                   = if is_complete l s then [OpStore16 (link_length l) 0] else []))
      as Hrs.
    { intros l0 new -> Hlog Hl Heq. exists new. split_and!; [done| |done|done| |].
      - intros Hne. rewrite <- (Hl Hne). by right; right; left.
      - intros E. apply Heq. injection E as E. destruct l0, l; done.
      - intros _ E. destruct l0; discriminate E. }
    destruct f.
    + destruct (Hinit link_bsp Hs) as (new & Hlog & Hnil).
      exists new. rewrite Hnil. split_and!; try done. by destruct l.
    + destruct (Hinit link_terminal Hs) as (new & Hlog & Hnil).
      exists new. rewrite Hnil. split_and!; try done. by destruct l.
    + destruct (Hinit link_uart4 Hs) as (new & Hlog & Hnil).
      exists new. rewrite Hnil. split_and!; try done. by destruct l.
    + destruct (Hreset link_bsp s Hs) as (new & Hlog & Hl & Heq).
      by apply (Hrs link_bsp new).
    + destruct (Hreset link_terminal s Hs) as (new & Hlog & Hl & Heq).
      by apply (Hrs link_terminal new).
    + destruct (Hreset link_uart4 s Hs) as (new & Hlog & Hl & Heq).
      by apply (Hrs link_uart4 new).
    + pose proof (print_step s (Hbuf _)) as Hp.
      unfold is_complete.
      destruct (u8s s g_bsp_usart_recv_complete_flag =? 1) eqn:Hflag.
      * destruct Hp as (s1 & Hp & _ & _ & _ & _ & _ & _ & Hlog1).
        rewrite Hs in Hp. symmetry in Hp.
        destruct (Hreset link_bsp s1 Hp) as (new & Hlog & Hl & Heq).
        exists (OpMemset g_bsp_usart_recv_buff 0 1024 :: new).
        split; [by rewrite Hlog, Hlog1, <- app_assoc|].
        assert (Hsame : length_stores l (OpMemset g_bsp_usart_recv_buff 0 1024 :: new)
                        = length_stores l new) by done.
        rewrite Hsame.
        split_and!; [|done|done| |].
        -- intros Hne. right; right; right. split; [|done]. symmetry. by apply Hl.
        -- intros E. by destruct l.
        -- intros -> _. cbn [link_flag]. rewrite Hflag. by apply Heq.
      * rewrite Hs in Hp. injection Hp as <-.
        exists []. rewrite app_nil_r. split_and!; try done.
        -- intros E. by destruct l.
        -- intros -> _. cbn [link_flag]. by rewrite Hflag.
Qed.

(** C10 (amended) for the idle-line event of the host link after five bytes. *)
Lemma C10_witness :
  reachable host_five ∧
  step (EvIdle USART0) host_five = Some host_five_idle ∧
  ∃ new, oplog host_five_idle = oplog host_five ++ new ∧
    (length_stores link_bsp new ≠ [] →
     EvIdle USART0 = EvIdle (link_usart link_bsp) ∨
     EvIdle USART0 = EvTick (link_timer link_bsp) ∨
     EvIdle USART0 = EvCall (link_reset link_bsp) ∨
     (link_bsp = link_bsp ∧ EvIdle USART0 = EvCall call_usart_rx_buffer_print)) ∧
    (EvIdle USART0 = EvIdle (link_usart link_bsp) →
     length_stores link_bsp new
       = [OpStore16 (link_length link_bsp)
            (link_capacity link_bsp - chcnt (dma0 host_five (link_channel link_bsp)))]) ∧
    (EvIdle USART0 = EvTick (link_timer link_bsp) →
     length_stores link_bsp new
       = if finalizes link_bsp host_five && (recv_length link_bsp host_five =? 0)
         then [OpStore16 (link_length link_bsp) (link_capacity link_bsp)]
         else []) ∧
    (EvIdle USART0 = EvCall (link_reset link_bsp) →
     length_stores link_bsp new = [OpStore16 (link_length link_bsp) 0]) ∧
    (link_bsp = link_bsp → EvIdle USART0 = EvCall call_usart_rx_buffer_print →
     length_stores link_bsp new
       = if is_complete link_bsp host_five
         then [OpStore16 (link_length link_bsp) 0] else []).
Proof.
  split; [apply after_reachable|].
  split; [vm_compute; reflexivity|].
  apply (C10_length_writers link_bsp (EvIdle USART0) host_five host_five_idle).
  - apply after_reachable.
  - vm_compute; reflexivity.
Defined.

(** ** A run outside the claims

    Re-arm leaves the link's timer alone.  When the consumer re-arms the host
    link while the timer armed by a later idle-line event is still running,
    the timer's update finds length 0 and a full remaining count, and
    completes a frame of length C although no byte was moved since the
    re-arm. *)
Example rearm_with_running_timer :
  ∃ s, run (map (EvDma DMA_CH0) [1; 2; 3; 4; 5]
            ++ [EvIdle USART0] ++ replicate 1000 (EvTick TIMER5)
            ++ map (EvDma DMA_CH0) [6; 7]
            ++ [EvIdle USART0; EvCall call_usart_rx_buffer_print]
            ++ replicate 1000 (EvTick TIMER5)) booted = Some s ∧
    chcnt (dma0 s DMA_CH0) = 1024 ∧ chftf (dma0 s DMA_CH0) = false ∧
    is_complete link_bsp s = true ∧ recv_length link_bsp s = 1024.
Proof. eexists. split; [vm_compute; reflexivity|]. vm_compute. done. Qed.

(** * Further properties of the code *)

(** * Further properties of the receive path *)

(** Like [frame_of_bytes], with the whole buffer and the channel position. *)
Lemma frame_after l j bs s :
  inv s → filled l j s → 0 < j + Z.of_nat (length bs) ≤ link_capacity l →
  ∃ s', run (map (EvDma (link_channel l)) bs
             ++ EvIdle (link_usart l) :: replicate 1000 (EvTick (link_timer l))) s = Some s' ∧
    inv s' ∧ filled l (j + Z.of_nat (length bs)) s' ∧
    u8s s' (link_flag l) = 1 ∧
    u16s s' (link_length l) = j + Z.of_nat (length bs) ∧
    buffs s' (link_buff l)
      = <[(Z.to_nat j + length bs)%nat := 0]>
          (take (Z.to_nat j) (buffs s (link_buff l)) ++ bs
           ++ drop (Z.to_nat j + length bs) (buffs s (link_buff l))) ∧
    cen (timers s' (link_timer l)) = false ∧
    completions l s' = S (completions l s).
Proof.
  intros Hinv Hfill Hk.
  destruct (dma_run l bs j s Hinv Hfill)
    as (s1 & Hs1 & Hinv1 & Hfill1 & Hb1 & _ & _ & _ & Hlog1); [lia|].
  destruct (frame l _ s1 Hinv1 Hfill1) as (s2 & Hs2 & Hinv2 & Hl2 & H82 & Hb2 & Hd2 & Hc & Hc2);
    [lia|].
  exists s2. rewrite run_app, Hs1. split; [done|].
  split_and!; try done.
  - unfold filled. by rewrite Hd2.
  - rewrite Hb2, Hb1. f_equal. destruct Hfill as (? & _). lia.
  - rewrite Hc2. unfold completions. by rewrite Hlog1.
Qed.

(** X1: no store ever leaves a receive buffer. *)
Theorem no_step_faults (s : mcu) (es : list event) :
  reachable s → ∃ s', run es s = Some s' ∧ reachable s'.
Proof.
  intros Hr.
  destruct (inv_run es s (reachable_inv s Hr)) as (s' & Hs & _).
  exists s'. split; [done|]. by apply (reachable_run es s).
Qed.

(** The consumer on a completed frame. *)
Lemma print_complete s :
  inv s → u8s s g_bsp_usart_recv_complete_flag = 1 →
  ∃ s', step (EvCall call_usart_rx_buffer_print) s = Some s' ∧ inv s' ∧
    buffs s' g_bsp_usart_recv_buff
      = replicate 1024 0 ++ drop 1024 (buffs s g_bsp_usart_recv_buff) ∧
    u16s s' g_bsp_usart_recv_length = 0 ∧
    u8s s' g_bsp_usart_recv_complete_flag = 0 ∧
    dma0 s' (link_channel link_bsp)
      = mk_dma_chan true 1024 1024 (Some g_bsp_usart_recv_buff) 0 true false ∧
    timers s' = timers s ∧
    (∀ l, completions l s' = completions l s).
Proof.
  intros Hinv Hflag.
  pose proof Hinv as (Hbuf & Hlen & Hch & Hoth & Htim).
  pose proof (print_step s (Hbuf _)) as Hp. rewrite Hflag in Hp. change (1 =? 1) with true in Hp. cbv iota in Hp.
  destruct Hp as (s1 & Hp & Hb & Hb' & H16 & H8 & Hd & Ht & Hlog1).
  assert (inv s1) as Hinv1.
  { split_and!.
    - intros v. destruct (decide (v = g_bsp_usart_recv_buff)) as [->|Hv].
      + rewrite Hb, length_app, length_replicate, length_drop, Hbuf. done.
      + rewrite Hb' by done. apply Hbuf.
    - intros v. rewrite H16. apply Hlen.
    - intros l. rewrite Hd. apply Hch.
    - intros ch Hn. rewrite Hd. by apply Hoth.
    - intros t. rewrite Ht. apply Htim. }
  destruct (reset_step link_bsp s1)
    as (s' & Hs' & Hl' & _ & H8' & _ & Hb2 & Ht2 & Hc2 & _ & Hlog2).
  exists s'. rewrite Hp. split; [done|].
  split; [by apply (inv_preserved (EvCall (link_reset link_bsp)) s1)|].
  destruct (Hch link_bsp) as (_ & Hm0 & Hcirc & _).
  rewrite Hd, Hm0, Hcirc in Hc2.
  split_and!; try done.
  - by rewrite Hb2, Hb.
  - congruence.
  - intros l. rewrite (completions_app l s1 s' _ Hlog2).
    rewrite (completions_app l s s1 _ Hlog1). count_ops; lia.
Qed.

(** X2: [usart_rx_buffer_print] does nothing unless a frame is complete;
    on a complete frame it zeroes the first 1024 bytes of the buffer (not
    the byte at index 1024), clears length and flag and re-arms the channel,
    and leaves the timers alone. *)
Theorem consumer_drains_and_rearms (s : mcu) :
  reachable s →
  (is_complete link_bsp s = false →
   step (EvCall call_usart_rx_buffer_print) s = Some s) ∧
  (is_complete link_bsp s = true →
   ∃ s', step (EvCall call_usart_rx_buffer_print) s = Some s' ∧
     is_complete link_bsp s' = false ∧
     recv_length link_bsp s' = 0 ∧
     take 1024 (recv_buff link_bsp s') = replicate 1024 0 ∧
     recv_buff link_bsp s' !! 1024%nat = recv_buff link_bsp s !! 1024%nat ∧
     dma0 s' (link_channel link_bsp)
       = mk_dma_chan true 1024 1024 (Some g_bsp_usart_recv_buff) 0 true false ∧
     timers s' = timers s).
Proof.
  intros Hr. pose proof (reachable_inv s Hr) as Hinv.
  pose proof Hinv as (Hbuf & _).
  unfold is_complete, recv_length, recv_buff. cbn [link_flag link_length link_buff].
  split; intros Hf.
  - pose proof (print_step s (Hbuf _)) as Hp. by rewrite Hf in Hp.
  - apply Z.eqb_eq in Hf.
    destruct (print_complete s Hinv Hf) as (s' & Hs & _ & Hb & Hl & H8 & Hc & Ht & _).
    exists s'. rewrite Hb, Hl, H8. split_and!; try done.
    rewrite lookup_app_r by (rewrite length_replicate; lia).
    rewrite length_replicate, lookup_drop. by rewrite Nat.sub_diag, Nat.add_0_r.
Qed.

(** X3: a frame, the consumer, and a second frame: the first 1024 bytes of
    the buffer are the second frame followed by zeros only. *)
Theorem frame_after_consume (s : mcu) (bs bs' : list Z) :
  reachable s →
  chcnt (dma0 s (link_channel link_bsp)) = link_capacity link_bsp →
  0 < Z.of_nat (length bs) ≤ link_capacity link_bsp →
  0 < Z.of_nat (length bs') ≤ link_capacity link_bsp →
  ∃ s', run (map (EvDma (link_channel link_bsp)) bs
             ++ EvIdle USART0 :: replicate 1000 (EvTick TIMER5)
             ++ EvCall call_usart_rx_buffer_print
                :: map (EvDma (link_channel link_bsp)) bs'
             ++ EvIdle USART0 :: replicate 1000 (EvTick TIMER5)) s = Some s' ∧
    is_complete link_bsp s' = true ∧
    recv_length link_bsp s' = Z.of_nat (length bs') ∧
    take 1024 (recv_buff link_bsp s')
      = bs' ++ replicate (1024 - length bs') 0.
Proof.
  intros Hr Hcnt Hk Hk'.
  pose proof (reachable_inv s Hr) as Hinv.
  rewrite link_capacity_eq in *.
  destruct (frame_after link_bsp 0 bs s Hinv (filled_empty _ s Hinv Hcnt))
    as (s2 & Hs2 & Hinv2 & _ & H82 & _); [rewrite link_capacity_eq; lia|].
  destruct (print_complete s2 Hinv2 H82) as (s3 & Hs3 & Hinv3 & Hb3 & _ & _ & Hc3 & _).
  assert (filled link_bsp 0 s3) as Hfill3
    by (apply filled_empty; [done|by rewrite Hc3]).
  destruct (frame_after link_bsp 0 bs' s3 Hinv3 Hfill3)
    as (s' & Hs' & _ & _ & H8' & Hl' & Hb' & _); [rewrite link_capacity_eq; lia|].
  exists s'. split.
  { change (link_usart link_bsp) with USART0 in *.
    change (link_timer link_bsp) with TIMER5 in *.
    rewrite app_comm_cons, app_assoc, run_app, Hs2.
    cbn [run]. by rewrite Hs3. }
  unfold is_complete, recv_length, recv_buff. rewrite H8', Hl', Hb'.
  split_and!; [done|lia|].
  change (Z.to_nat 0) with 0%nat. rewrite take_0, app_nil_l, !Nat.add_0_l.
  change (buffs s3 (link_buff link_bsp)) with (buffs s3 g_bsp_usart_recv_buff).
  rewrite Hb3.
  rewrite drop_app_le by (rewrite length_replicate; lia).
  rewrite drop_replicate.
  set (t := drop 1024 (buffs s2 g_bsp_usart_recv_buff)).
  destruct (decide (length bs' = 1024%nat)) as [E|E].
  - rewrite E, Nat.sub_diag. cbn [replicate app].
    rewrite take_insert_ge by lia. rewrite <- E, take_app_length. by rewrite app_nil_r.
  - rewrite list_insert_id.
    + rewrite app_assoc. apply take_app_length'.
      rewrite length_app, length_replicate. lia.
    + rewrite lookup_app_r by lia. rewrite Nat.sub_diag.
      rewrite lookup_app_l by (rewrite length_replicate; lia).
      apply lookup_replicate_2. lia.
Qed.

Lemma filled_wrap l s : filled l (link_capacity l) s → filled l 0 s.
Proof.
  intros (Hr & Hoff & _). rewrite Z.eqb_refl in Hoff.
  unfold filled. rewrite link_capacity_eq in *. cbn. split_and!; (done || lia).
Qed.

(** X4: overrun.  A burst of C + r bytes without a gap (0 < r <= C) wraps
    around the buffer: the completed frame has length r, not C + r and not
    C; it starts with the last r bytes of the burst, which have replaced
    the first r, and behind the terminator the old bytes remain. *)
Theorem overrun_wraps (l : link) (s : mcu) (bs1 bs2 : list Z) :
  reachable s →
  chcnt (dma0 s (link_channel l)) = link_capacity l →
  Z.of_nat (length bs1) = link_capacity l →
  0 < Z.of_nat (length bs2) ≤ link_capacity l →
  ∃ s', run (map (EvDma (link_channel l)) (bs1 ++ bs2)
             ++ EvIdle (link_usart l) :: replicate 1000 (EvTick (link_timer l))) s = Some s' ∧
    is_complete l s' = true ∧
    recv_length l s' = Z.of_nat (length bs2) ∧
    take 1024 (recv_buff l s') = <[length bs2 := 0]> (bs2 ++ drop (length bs2) bs1) ∧
    completions l s' = S (completions l s).
Proof.
  intros Hr Hcnt H1 H2.
  pose proof (reachable_inv s Hr) as Hinv.
  destruct (dma_run l bs1 0 s Hinv (filled_empty l s Hinv Hcnt))
    as (s1 & Hs1 & Hinv1 & Hfill1 & Hb1 & _ & _ & _ & Hlog1); [lia|].
  rewrite Z.add_0_l, H1 in Hfill1. apply filled_wrap in Hfill1.
  destruct (frame_after l 0 bs2 s1 Hinv1 Hfill1)
    as (s' & Hs' & _ & _ & H8' & Hl' & Hb' & _ & Hc'); [lia|].
  exists s'. split.
  { rewrite map_app, <- app_assoc, run_app, Hs1. done. }
  unfold is_complete, recv_length, recv_buff. rewrite H8', Hl', Hb', Hc'.
  split_and!; [done|lia| |unfold completions; by rewrite Hlog1].
  rewrite Hb1. change (Z.to_nat 0) with 0%nat.
  rewrite !take_0, !app_nil_l, !Nat.add_0_l.
  rewrite link_capacity_eq in *.
  set (t := drop (length bs1) (buffs s (link_buff l))).
  rewrite drop_app_le by lia.
  rewrite app_assoc.
  assert (length (bs2 ++ drop (length bs2) bs1) = 1024%nat) as Hlen
    by (rewrite length_app, length_drop; lia).
  destruct (decide (length bs2 = 1024%nat)) as [E|E].
  - rewrite take_insert_ge by lia.
    rewrite take_app_length' by done.
    by rewrite list_insert_ge by lia.
  - rewrite insert_app_l by lia.
    apply take_app_length'. by rewrite length_insert.
Qed.

(** X5: a slow consumer.  When the link is not re-armed after a frame, the
    next burst lands behind it: the second completion reports the sum of
    both lengths and the buffer holds both bursts back to back, the first
    terminator overwritten. *)
Theorem unconsumed_frame_grows (l : link) (s : mcu) (bs1 bs2 : list Z) :
  reachable s →
  chcnt (dma0 s (link_channel l)) = link_capacity l →
  0 < Z.of_nat (length bs1) →
  Z.of_nat (length bs1) + Z.of_nat (length bs2) ≤ link_capacity l →
  ∃ s1 s',
    run (map (EvDma (link_channel l)) bs1
         ++ EvIdle (link_usart l) :: replicate 1000 (EvTick (link_timer l))) s = Some s1 ∧
    is_complete l s1 = true ∧
    recv_length l s1 = Z.of_nat (length bs1) ∧
    run (map (EvDma (link_channel l)) bs2
         ++ EvIdle (link_usart l) :: replicate 1000 (EvTick (link_timer l))) s1 = Some s' ∧
    is_complete l s' = true ∧
    recv_length l s' = Z.of_nat (length bs1) + Z.of_nat (length bs2) ∧
    take (length bs1 + length bs2) (recv_buff l s') = bs1 ++ bs2 ∧
    completions l s' = S (S (completions l s)).
Proof.
  intros Hr Hcnt H1 H2.
  pose proof (reachable_inv s Hr) as Hinv.
  destruct (frame_after l 0 bs1 s Hinv (filled_empty l s Hinv Hcnt))
    as (s1 & Hs1 & Hinv1 & Hfill1 & H81 & Hl1 & Hb1 & _ & Hc1); [lia|].
  rewrite Z.add_0_l in *.
  destruct (frame_after l _ bs2 s1 Hinv1 Hfill1)
    as (s' & Hs' & _ & _ & H8' & Hl' & Hb' & _ & Hc'); [lia|].
  exists s1, s'. unfold is_complete, recv_length, recv_buff.
  rewrite H81, Hl1, H8', Hl', Hc', Hc1. split_and!; try done.
  rewrite Hb', Hb1, Nat2Z.id.
  change (Z.to_nat 0) with 0%nat. rewrite take_0, app_nil_l, !Nat.add_0_l.
  rewrite take_insert_ge by lia.
  rewrite (take_insert_ge _ (length bs1)) by lia.
  rewrite take_app_length, app_assoc.
  by rewrite take_app_length' by (rewrite length_app; lia).
Qed.

(** X6: re-arm without the consumer's [memset] keeps the old bytes: after a
    frame, a re-arm and a shorter frame, the bytes behind the new terminator
    are still those of the first frame. *)
Theorem rearm_keeps_stale_bytes (l : link) (s : mcu) (bs bs' : list Z) :
  reachable s →
  chcnt (dma0 s (link_channel l)) = link_capacity l →
  0 < Z.of_nat (length bs') → (length bs' < length bs)%nat →
  Z.of_nat (length bs) ≤ link_capacity l →
  ∃ s', run (map (EvDma (link_channel l)) bs
             ++ EvIdle (link_usart l) :: replicate 1000 (EvTick (link_timer l))
             ++ EvCall (link_reset l) :: map (EvDma (link_channel l)) bs'
             ++ EvIdle (link_usart l) :: replicate 1000 (EvTick (link_timer l))) s = Some s' ∧
    recv_length l s' = Z.of_nat (length bs') ∧
    take (length bs) (recv_buff l s') = <[length bs' := 0]> (bs' ++ drop (length bs') bs).
Proof.
  intros Hr Hcnt H1 H2 H3.
  pose proof (reachable_inv s Hr) as Hinv.
  destruct (frame_after l 0 bs s Hinv (filled_empty l s Hinv Hcnt))
    as (s1 & Hs1 & Hinv1 & _ & _ & _ & Hb1 & _); [lia|].
  destruct (reset_step l s1) as (s2 & Hs2 & _ & _ & _ & _ & Hb2 & _ & Hc2 & _).
  assert (inv s2) as Hinv2 by (by apply (inv_preserved (EvCall (link_reset l)) s1)).
  assert (filled l 0 s2) as Hfill2
    by (apply filled_empty; [done|by rewrite Hc2]).
  destruct (frame_after l 0 bs' s2 Hinv2 Hfill2)
    as (s' & Hs' & _ & _ & _ & Hl' & Hb' & _); [lia|].
  exists s'. split.
  { rewrite app_comm_cons, app_assoc, run_app, Hs1. cbn [run]. by rewrite Hs2. }
  unfold recv_length, recv_buff. rewrite Hl', Hb', Hb2, Hb1.
  split; [lia|].
  change (Z.to_nat 0) with 0%nat. rewrite !take_0, !app_nil_l, !Nat.add_0_l.
  set (t := drop (length bs) (buffs s (link_buff l))).
  rewrite take_insert_lt by lia. f_equal.
  rewrite take_app_ge by lia. f_equal.
  rewrite take_drop_commute.
  replace (length bs' + (length bs - length bs'))%nat with (length bs) by lia.
  rewrite take_insert_ge by lia. by rewrite take_app_length.
Qed.

(** What a step can do to a link's completion flag. *)
Lemma flag_step l e s s' :
  inv s → step e s = Some s' →
  u8s s' (link_flag l) = u8s s (link_flag l) ∨
  (e = EvTick (link_timer l) ∧ finalizes l s = true ∧ u8s s' (link_flag l) = 1) ∨
  ((e = EvCall (link_reset l) ∨
    (l = link_bsp ∧ e = EvCall call_usart_rx_buffer_print)) ∧
   u8s s' (link_flag l) = 0).
Proof.
  intros Hinv Hs.
  pose proof Hinv as (Hbuf & Hlen & Hch & Hoth & Htim).
  destruct e as [ch b|u|t|f].
  - left. destruct (channel_cases ch) as [[l0 ->]|Hno].
    + destruct (dma_step l0 b s (Hch l0) (Hbuf _)) as (s1 & Hs1 & Hrest).
      rewrite Hs in Hs1. injection Hs1 as <-.
      destruct Hrest as (_ & _ & _ & _ & _ & H8 & _). by rewrite H8.
    + unfold step, exec, dma_transfer in Hs. rewrite (Hoth ch Hno) in Hs.
      cbn in Hs. by injection Hs as <-.
  - left. destruct (usart_of_link u) as [l0 ->].
    destruct (idle_step l0 s) as (s1 & Hs1 & _ & _ & H8 & _).
    rewrite Hs in Hs1. injection Hs1 as <-. by rewrite H8.
  - destruct (timer_of_link t) as [l0 ->].
    destruct (tick_any l0 s Hinv) as (s1 & new & Hs1 & _ & _ & _ & H8 & _ & _ & Hfin).
    rewrite Hs in Hs1. injection Hs1 as <-.
    destruct (decide (l0 = l)) as [->|Hl].
    + destruct (finalizes l s).
      * right; left. by destruct Hfin as (_ & _ & ? & _).
      * left. destruct Hfin as (_ & _ & -> & _). done.
    + left. apply H8. intros E. by apply link_flag_inj in E.
  - assert (∀ l0 s0, step (EvCall (link_reset l0)) s0 = Some s' →
              (l0 = l ∧ u8s s' (link_flag l) = 0) ∨
              (l0 ≠ l ∧ u8s s' (link_flag l) = u8s s0 (link_flag l))) as Hreset.
    { intros l0 s0 Hs0.
      destruct (reset_step l0 s0) as (s1 & Hs1 & _ & _ & H8 & H8' & _).
      rewrite Hs0 in Hs1. injection Hs1 as <-.
      destruct (decide (l0 = l)) as [->|Hl]; [by left|right].
      split; [done|]. apply H8'. intros E. by apply link_flag_inj in E. }
    assert (∀ l0, step (EvCall (link_init l0)) s = Some s' →
              u8s s' (link_flag l) = u8s s (link_flag l)) as Hinit.
    { intros l0 Hs0. destruct (init_step l0 s) as (s1 & Hs1 & _ & H8 & _).
      rewrite Hs0 in Hs1. injection Hs1 as <-. by rewrite H8. }
    destruct f.
    + left. by apply (Hinit link_bsp).
    + left. by apply (Hinit link_terminal).
    + left. by apply (Hinit link_uart4).
    + destruct (Hreset link_bsp s Hs) as [[<- ?]|[? ?]]; [right; right|left]; auto.
    + destruct (Hreset link_terminal s Hs) as [[<- ?]|[? ?]]; [right; right|left]; auto.
    + destruct (Hreset link_uart4 s Hs) as [[<- ?]|[? ?]]; [right; right|left]; auto.
    + pose proof (print_step s (Hbuf _)) as Hp.
      destruct (_ =? 1).
      * destruct Hp as (s1 & Hp & _ & _ & _ & H8 & _).
        rewrite Hs in Hp. symmetry in Hp.
        destruct (Hreset link_bsp s1 Hp) as [[<- ?]|[? E]].
        -- right; right. auto.
        -- left. by rewrite E, H8.
      * rewrite Hs in Hp. injection Hp as <-. by left.
Qed.

Lemma reachable_flag l s :
  reachable s → u8s s (link_flag l) = 0 ∨ u8s s (link_flag l) = 1.
Proof.
  induction 1 as [s Hb|e s s' Hr IH Hs].
  - vm_compute in Hb. injection Hb as <-. left. by destruct l.
  - destruct (flag_step l e s s' (reachable_inv s Hr) Hs) as [->|[(_ & _ & ->)|(_ & ->)]];
      auto.
Qed.

(** X7: the completion flag of a link is always 0 or 1; it is raised only
    by a finalizing clock of the link's own timer, and then the received
    length is not 0; it is cleared only by the link's re-arm, called
    directly or by the consumer. *)
Theorem flag_protocol (l : link) (e : event) (s s' : mcu) :
  reachable s → step e s = Some s' →
  (u8s s' (link_flag l) = 0 ∨ u8s s' (link_flag l) = 1) ∧
  (is_complete l s = false → is_complete l s' = true →
   e = EvTick (link_timer l) ∧ finalizes l s = true ∧ recv_length l s' ≠ 0) ∧
  (is_complete l s = true → is_complete l s' = false →
   e = EvCall (link_reset l) ∨
   (l = link_bsp ∧ e = EvCall call_usart_rx_buffer_print)).
Proof.
  intros Hr Hs. pose proof (reachable_inv s Hr) as Hinv.
  split; [apply reachable_flag; by apply (reachable_step e s)|].
  unfold is_complete, recv_length.
  destruct (flag_step l e s s' Hinv Hs) as [E|[(-> & Hf & E)|(He & E)]]; rewrite E.
  - split; intros H1 H2; congruence.
  - split; [|intros _ H2; discriminate H2].
    intros _ _. split_and!; [done..|].
    destruct (tick_any l s Hinv) as (s1 & new & Hs1 & _ & _ & _ & _ & _ & _ & Hfin).
    rewrite Hs in Hs1. injection Hs1 as <-. rewrite Hf in Hfin.
    destruct Hfin as (-> & _). rewrite link_capacity_eq.
    destruct (Z.eqb_spec (u16s s (link_length l)) 0); lia.
  - split; [intros _ H2; discriminate H2|]. intros _ _. done.
Qed.

(** X8: re-arm leaves the confirmation timer running.  When the timer is
    running at re-arm and neither a byte nor an idle-line event comes before
    it elapses, the update completes a frame of length C although the
    channel has moved nothing since the re-arm. *)
Theorem rearm_under_running_timer (l : link) (s : mcu) :
  reachable s →
  cen (timers s (link_timer l)) = true →
  ∃ s1 s', step (EvCall (link_reset l)) s = Some s1 ∧
    timers s1 = timers s ∧
    is_complete l s1 = false ∧
    run (replicate (Z.to_nat (1000 - tcnt (timers s (link_timer l))))
           (EvTick (link_timer l))) s1 = Some s' ∧
    chcnt (dma0 s' (link_channel l)) = link_capacity l ∧
    chmoff (dma0 s' (link_channel l)) = 0 ∧
    chftf (dma0 s' (link_channel l)) = false ∧
    is_complete l s' = true ∧
    recv_length l s' = link_capacity l ∧
    completions l s' = S (completions l s).
Proof.
  intros Hr Hcen. pose proof (reachable_inv s Hr) as Hinv.
  destruct (reset_step l s) as (s1 & Hs1 & Hl1 & _ & H81 & _ & Hb1 & Ht1 & Hc1 & _ & Hlog1).
  assert (inv s1) as Hinv1 by (by apply (inv_preserved (EvCall (link_reset l)) s)).
  destruct Hinv as (_ & _ & Hch & _ & Htim).
  destruct (Htim (link_timer l)) as (Hspm & Hcar & Hup & Hcnt).
  destruct (Hch l) as (_ & Hm0 & Hcirc & _).
  set (n := Z.to_nat (999 - tcnt (timers s (link_timer l)))).
  destruct (ticks_run (link_timer l) n s1)
    as (s2 & Hs2 & Ht2 & _ & Hb2 & H162 & H82 & Hd2 & Hlog2);
    try (rewrite Ht1; (done || lia)).
  assert (inv s2) as Hinv2.
  { destruct (inv_run (replicate n (EvTick (link_timer l))) s1 Hinv1) as (s2' & Hr2 & Hi).
    congruence. }
  pose proof Hinv2 as (Hbuf2 & Hlen2 & _).
  destruct (tick_elapse l s2) as (s3 & Hs3 & _ & _ & Hd3 & _ & _ & _ & Hfin);
    try (rewrite Ht2, Ht1; cbn; (done || lia)); [done..|].
  rewrite H162, Hl1, Hd2, Hc1, Z.sub_diag in Hfin.
  change (0 =? u32 0) with true in Hfin. cbn in Hfin.
  destruct Hfin as (Hl3 & _ & H83 & Hlog3).
  exists s1, s3. unfold is_complete, recv_length.
  rewrite H81, H83, Hl3, Hd3, Hd2, Hc1. cbn.
  split_and!; try done.
  - replace (Z.to_nat (1000 - tcnt (timers s (link_timer l)))) with (n + 1)%nat by lia.
    rewrite replicate_add, run_app, Hs2. cbn [replicate run]. by rewrite Hs3.
  - rewrite (completions_app l s2 s3 _ Hlog3).
    assert (completions l s2 = completions l s1) as ->
      by (unfold completions; by rewrite Hlog2).
    rewrite (completions_app l s s1 _ Hlog1). count_ops; lia.
Qed.

(** ** Examples *)

Lemma no_step_faults_witness :
  ∃ s', run [EvIdle USART0; EvTick TIMER6; EvCall call_usart_rx_buffer_print] booted
          = Some s' ∧ reachable s'.
Proof.
  apply (no_step_faults booted
           [EvIdle USART0; EvTick TIMER6; EvCall call_usart_rx_buffer_print]).
  apply booted_reachable.
Defined.

Lemma consumer_drains_and_rearms_witness :
  reachable host_done ∧
  is_complete link_bsp host_done = true ∧
  ∃ s', step (EvCall call_usart_rx_buffer_print) host_done = Some s' ∧
    is_complete link_bsp s' = false ∧
    recv_length link_bsp s' = 0 ∧
    take 1024 (recv_buff link_bsp s') = replicate 1024 0.
Proof.
  split; [apply after_reachable|].
  split; [vm_compute; reflexivity|].
  destruct (consumer_drains_and_rearms host_done) as [_ H].
  - apply after_reachable.
  - destruct H as (s' & H1 & H2 & H3 & H4 & _).
    + vm_compute; reflexivity.
    + exists s'. repeat split; assumption.
Defined.

Lemma frame_after_consume_witness :
  ∃ s', run (map (EvDma (link_channel link_bsp)) [72; 105]
             ++ EvIdle USART0 :: replicate 1000 (EvTick TIMER5)
             ++ EvCall call_usart_rx_buffer_print
                :: map (EvDma (link_channel link_bsp)) [33]
             ++ EvIdle USART0 :: replicate 1000 (EvTick TIMER5)) booted = Some s' ∧
    is_complete link_bsp s' = true ∧
    recv_length link_bsp s' = Z.of_nat (length [33]) ∧
    take 1024 (recv_buff link_bsp s') = [33] ++ replicate (1024 - length [33]) 0.
Proof.
  apply (frame_after_consume booted [72; 105] [33]).
  - apply booted_reachable.
  - reflexivity.
  - unfold link_capacity, BSP_USART_RECEIVE_LENGTH; simpl; lia.
  - unfold link_capacity, BSP_USART_RECEIVE_LENGTH; simpl; lia.
Defined.

Lemma overrun_wraps_witness :
  ∃ s', run (map (EvDma (link_channel link_terminal)) (replicate 1024 65 ++ [66; 67])
             ++ EvIdle (link_usart link_terminal)
                :: replicate 1000 (EvTick (link_timer link_terminal))) booted = Some s' ∧
    is_complete link_terminal s' = true ∧
    recv_length link_terminal s' = Z.of_nat (length [66; 67]) ∧
    take 1024 (recv_buff link_terminal s')
      = <[length [66; 67] := 0]> ([66; 67] ++ drop (length [66; 67]) (replicate 1024 65)) ∧
    completions link_terminal s' = S (completions link_terminal booted).
Proof.
  apply (overrun_wraps link_terminal booted (replicate 1024 65) [66; 67]).
  - apply booted_reachable.
  - reflexivity.
  - vm_compute; reflexivity.
  - unfold link_capacity, USART_TERMINAL_RECEIVE_LENGTH; simpl; lia.
Defined.

Lemma unconsumed_frame_grows_witness :
  ∃ s1 s',
    run (map (EvDma (link_channel link_bsp)) [1; 2]
         ++ EvIdle (link_usart link_bsp)
            :: replicate 1000 (EvTick (link_timer link_bsp))) booted = Some s1 ∧
    is_complete link_bsp s1 = true ∧
    recv_length link_bsp s1 = Z.of_nat (length [1; 2]) ∧
    run (map (EvDma (link_channel link_bsp)) [3]
         ++ EvIdle (link_usart link_bsp)
            :: replicate 1000 (EvTick (link_timer link_bsp))) s1 = Some s' ∧
    is_complete link_bsp s' = true ∧
    recv_length link_bsp s' = Z.of_nat (length [1; 2]) + Z.of_nat (length [3]) ∧
    take (length [1; 2] + length [3]) (recv_buff link_bsp s') = [1; 2] ++ [3] ∧
    completions link_bsp s' = S (S (completions link_bsp booted)).
Proof.
  apply (unconsumed_frame_grows link_bsp booted [1; 2] [3]).
  - apply booted_reachable.
  - reflexivity.
  - simpl; lia.
  - unfold link_capacity, BSP_USART_RECEIVE_LENGTH; simpl; lia.
Defined.

Lemma rearm_keeps_stale_bytes_witness :
  ∃ s', run (map (EvDma (link_channel link_bsp)) [1; 2; 3]
             ++ EvIdle (link_usart link_bsp)
                :: replicate 1000 (EvTick (link_timer link_bsp))
             ++ EvCall (link_reset link_bsp) :: map (EvDma (link_channel link_bsp)) [9]
             ++ EvIdle (link_usart link_bsp)
                :: replicate 1000 (EvTick (link_timer link_bsp))) booted = Some s' ∧
    recv_length link_bsp s' = Z.of_nat (length [9]) ∧
    take (length [1; 2; 3]) (recv_buff link_bsp s')
      = <[length [9] := 0]> ([9] ++ drop (length [9]) [1; 2; 3]).
Proof.
  apply (rearm_keeps_stale_bytes link_bsp booted [1; 2; 3] [9]).
  - apply booted_reachable.
  - reflexivity.
  - simpl; lia.
  - simpl; lia.
  - unfold link_capacity, BSP_USART_RECEIVE_LENGTH; simpl; lia.
Defined.

Lemma flag_protocol_witness :
  (u8s host_done_terminal_done (link_flag link_terminal) = 0
   ∨ u8s host_done_terminal_done (link_flag link_terminal) = 1) ∧
  (is_complete link_terminal host_done = false →
   is_complete link_terminal host_done_terminal_done = true →
   EvTick TIMER6 = EvTick (link_timer link_terminal) ∧
   finalizes link_terminal host_done = true ∧
   recv_length link_terminal host_done_terminal_done ≠ 0) ∧
  (is_complete link_terminal host_done = true →
   is_complete link_terminal host_done_terminal_done = false →
   EvTick TIMER6 = EvCall (link_reset link_terminal) ∨
   (link_terminal = link_bsp ∧ EvTick TIMER6 = EvCall call_usart_rx_buffer_print)).
Proof.
  apply (flag_protocol link_terminal (EvTick TIMER6) host_done host_done_terminal_done).
  - apply after_reachable.
  - vm_compute; reflexivity.
Defined.

Lemma rearm_under_running_timer_witness :
  ∃ s1 s', step (EvCall (link_reset link_bsp)) host_quiet = Some s1 ∧
    timers s1 = timers host_quiet ∧
    is_complete link_bsp s1 = false ∧
    run (replicate (Z.to_nat (1000 - tcnt (timers host_quiet (link_timer link_bsp))))
           (EvTick (link_timer link_bsp))) s1 = Some s' ∧
    chcnt (dma0 s' (link_channel link_bsp)) = link_capacity link_bsp ∧
    chmoff (dma0 s' (link_channel link_bsp)) = 0 ∧
    chftf (dma0 s' (link_channel link_bsp)) = false ∧
    is_complete link_bsp s' = true ∧
    recv_length link_bsp s' = link_capacity link_bsp ∧
    completions link_bsp s' = S (completions link_bsp host_quiet).
Proof.
  apply (rearm_under_running_timer link_bsp host_quiet).
  - apply after_reachable.
  - vm_compute; reflexivity.
Defined.

(** * One link on its own *)

Lemma link_ok_step l e s :
  link_ok l s → own_event l e = true →
  ∃ s', step e s = Some s' ∧ link_ok l s' ∧
    (∀ b, e = EvDma (link_channel l) b →
       oplog s' = oplog s ∧ u16s s' = u16s s ∧ u8s s' = u8s s ∧ timers s' = timers s).
Proof.
  intros (Hbuf & Hlen & Hch & Htim) Hown.
  pose proof Hch as (Hen & Hm0 & Hcirc & Hnum & Hcnt & Hoff).
  pose proof Htim as (Hspm & Hcar & Hup & Htc).
  rewrite link_capacity_eq in *.
  destruct e as [ch b|u|t|f]; cbn in Hown.
  - apply bool_decide_eq_true in Hown as ->.
    destruct (dma_step l b s Hch Hbuf)
      as (s' & Hs & Hb & _ & Hc & _ & H16 & H8 & Ht & _ & Hlog).
    exists s'. split; [done|]. split; [|by intros _ _].
    unfold link_ok. rewrite Hb, length_insert, H16, Ht, Hc.
    refine (conj _ (conj _ (conj _ _))); try done.
    unfold channel_ok.
    destruct (Z.eqb_spec (chcnt (dma0 s (link_channel l))) 1); cbn;
      rewrite ?link_capacity_eq in *; split_and!; (done || lia).
  - apply bool_decide_eq_true in Hown as ->.
    destruct (idle_step l s) as (s' & Hs & Hl & _ & H8 & Hb & Hd & Ht & _).
    exists s'. split; [done|]. split; [|by intros ? [=]].
    unfold link_ok. rewrite Hb, Hd, Hl, Ht, link_capacity_eq.
    refine (conj _ (conj _ (conj _ _))); try done.
    + rewrite u32_small, u16_small; lia.
    + match goal with |- context [if ?b then _ else _] => destruct b end;
        [assumption|]. unfold timer_ok; cbn. split_and!; (done || lia).
  - apply bool_decide_eq_true in Hown as ->.
    split_and?.
    destruct (cen (timers s (link_timer l))) eqn:Hcen.
    + destruct (Z_lt_ge_dec (tcnt (timers s (link_timer l))) (car (timers s (link_timer l))))
        as [Hlt|Hge].
      * destruct (tick_count (link_timer l) s Hcen Hlt Hup)
          as (s' & Hs & Ht & _ & Hb & H16 & H8 & Hd & _).
        exists s'. split; [done|]. split; [|by intros ? [=]].
        unfold link_ok. rewrite Hb, Hd, H16, Ht.
        refine (conj _ (conj _ (conj _ _))); try done.
        unfold timer_ok; cbn. split_and!; (done || lia).
      * destruct (tick_elapse l s Hcen ltac:(lia) Hlen Hbuf)
          as (s' & Hs & Ht & _ & Hd & _ & _ & _ & Hfin).
        exists s'. split; [done|]. split; [|by intros ? [=]].
        unfold link_ok. rewrite Hd, Ht. rewrite link_capacity_eq in Hfin.
        assert (timer_ok (mk_timer_regs (negb (spm (timers s (link_timer l)))) 0
                            (tpsc (timers s (link_timer l))) (car (timers s (link_timer l)))
                            (spm (timers s (link_timer l))) false))
          by (unfold timer_ok; cbn; split_and!; (done || lia)).
        destruct (_ =? u32 _).
        -- destruct Hfin as (-> & -> & _). rewrite length_insert.
           refine (conj _ (conj _ (conj _ _))); try done; destruct (_ =? 0); lia.
        -- destruct Hfin as (-> & -> & _). done.
    + exists s. split; [by apply tick_stopped|]. split; [done|by intros ? [=]].
  - assert (∀ s0, link_ok l s0 →
              ∃ s', step (EvCall (link_reset l)) s0 = Some s' ∧ link_ok l s') as Hreset.
    { intros s0 (Hbuf0 & Hlen0 & Hch0 & Htim0).
      destruct (reset_step l s0) as (s' & Hs & Hl & _ & _ & _ & Hb & Ht & Hc & _).
      destruct Hch0 as (_ & Hm & Hci & _).
      exists s'. split; [done|]. unfold link_ok. rewrite Hb, Ht, Hl, Hc, Hm, Hci.
      refine (conj _ (conj _ (conj _ _))); try done. unfold channel_ok; cbn.
      rewrite link_capacity_eq. split_and!; (done || lia). }
    assert (∃ s', step (EvCall f) s = Some s' ∧ link_ok l s') as (s' & Hs & Hok);
      [|exists s'; split; [done|]; split; [done|by intros ? [=]]].
    apply orb_true_iff in Hown as [Hown|Hown];
      [apply orb_true_iff in Hown as [Hown|Hown]|].
    + apply bool_decide_eq_true in Hown as ->.
      destruct (init_step l s) as (s' & Hs & H16 & _ & Hb & Hc & _ & Ht & _).
      exists s'. split; [done|]. unfold link_ok. rewrite Hb, H16, Hc, Ht.
      refine (conj _ (conj _ (conj _ _))); try done.
      all: (unfold channel_ok, timer_ok; cbn; rewrite ?link_capacity_eq;
            split_and!; (done || lia)).
    + apply bool_decide_eq_true in Hown as ->. apply Hreset. by unfold link_ok.
    + apply andb_true_iff in Hown as [Hl Hf].
      apply bool_decide_eq_true in Hl as ->. apply bool_decide_eq_true in Hf as ->.
      pose proof (print_step s Hbuf) as Hp.
      destruct (_ =? 1).
      * destruct Hp as (s1 & -> & Hb & _ & H16 & _ & Hd & Ht & _).
        apply (Hreset s1). unfold link_ok. cbn [link_buff].
        rewrite Hb, H16, Hd, Ht, length_app, length_replicate, length_drop.
        cbn [link_buff] in Hbuf. rewrite Hbuf. done.
      * exists s. split; [done|]. by unfold link_ok.
Qed.

Lemma link_ok_run l es : ∀ s,
  link_ok l s → forallb (own_event l) es = true →
  ∃ s', run es s = Some s' ∧ link_ok l s'.
Proof.
  induction es as [|e es IH]; intros s Hok Hown; [by exists s|].
  cbn in Hown. apply andb_true_iff in Hown as [He Hes].
  destruct (link_ok_step l e s Hok He) as (s1 & Hs & Hok1 & _).
  destruct (IH s1 Hok1 Hes) as (s' & Hr & Hok').
  exists s'. cbn. by rewrite Hs.
Qed.

Lemma forallb_replicate {A} (f : A → bool) (x : A) (n : nat) :
  f x = true → forallb f (replicate n x) = true.
Proof. intros H. induction n as [|n IH]; cbn; [done|]. by rewrite H, IH. Qed.

Lemma filled_count_ok l j s :
  link_ok l s → filled l j s →
  chcnt (dma0 s (link_channel l))
    = (if j =? link_capacity l then link_capacity l else link_capacity l - j).
Proof.
  intros (_ & _ & Hch & _) (Hj & Hoff & _).
  destruct Hch as (_ & _ & _ & _ & _ & Hsum).
  destruct (_ =? _); lia.
Qed.

Lemma dma_run_ok l bs : ∀ j s,
  link_ok l s → filled l j s → j + Z.of_nat (length bs) ≤ link_capacity l →
  ∃ s', run (map (EvDma (link_channel l)) bs) s = Some s' ∧
    link_ok l s' ∧ filled l (j + Z.of_nat (length bs)) s' ∧
    buffs s' (link_buff l) =
      take (Z.to_nat j) (buffs s (link_buff l)) ++ bs
        ++ drop (Z.to_nat j + length bs) (buffs s (link_buff l)) ∧
    oplog s' = oplog s.
Proof.
  induction bs as [|b bs IH]; intros j s Hok Hfill Hfit.
  - exists s. cbn. rewrite Z.add_0_r, Nat.add_0_r, take_drop. done.
  - cbn [length map run] in *.
    pose proof Hok as (Hbuf & _ & Hch & _).
    pose proof (filled_count_ok l j s Hok Hfill) as Hcnt.
    destruct Hfill as (Hj & Hoff & Hftf).
    rewrite link_capacity_eq in *.
    destruct (Z.eqb_spec j 1024) as [->|Hne]; [lia|].
    destruct (link_ok_step l (EvDma (link_channel l) b) s Hok)
      as (s1 & Hs & Hok1 & Hsame); [by apply bool_decide_eq_true|].
    destruct (Hsame b eq_refl) as (Hlog & _).
    destruct (dma_step l b s Hch Hbuf) as (s1' & Hs' & Hb & _ & Hc & _).
    rewrite Hs in Hs'. injection Hs' as <-. rewrite Hs.
    assert (filled l (j + 1) s1) as Hfill1.
    { unfold filled. rewrite Hc, Hcnt, Hoff, link_capacity_eq.
      destruct (Z.eqb_spec (1024 - j) 1), (Z.eqb_spec (j + 1) 1024);
        cbn; split_and!; (done || lia). }
    destruct (IH (j + 1) s1 Hok1 Hfill1) as (s' & Hr & Hok' & Hfill' & Hb' & Hlog');
      [lia|].
    exists s'. split; [done|]. split; [done|].
    replace (j + Z.of_nat (S (length bs))) with (j + 1 + Z.of_nat (length bs)) by lia.
    split; [done|]. split; [|congruence].
    rewrite Hb', Hb, Hoff.
    replace (Z.to_nat (j + 1)) with (S (Z.to_nat j)) by lia.
    assert (Z.to_nat j < length (buffs s (link_buff l)))%nat as Hlt
      by (rewrite Hbuf; lia).
    rewrite (take_S_r _ _ b) by (by apply list_lookup_insert_eq).
    rewrite take_insert_ge by lia.
    rewrite drop_insert_lt by lia.
    rewrite <- app_assoc. cbn.
    replace (Z.to_nat j + S (length bs))%nat with (S (Z.to_nat j + length bs)) by lia.
    done.
Qed.

Lemma frame_ok l j s :
  link_ok l s → filled l j s → 0 < j →
  ∃ s', run (EvIdle (link_usart l) :: replicate 1000 (EvTick (link_timer l))) s = Some s' ∧
    link_ok l s' ∧
    u16s s' (link_length l) = j ∧
    u8s s' (link_flag l) = 1 ∧
    buffs s' (link_buff l) = <[Z.to_nat j := 0]> (buffs s (link_buff l)).
Proof.
  intros Hok Hfill Hj.
  pose proof (filled_count_ok l j s Hok Hfill) as Hcnt.
  pose proof Hok as (_ & _ & _ & Htim).
  destruct Htim as (Hspm & Hcar & Hup & _).
  destruct Hfill as (Hr & Hoff & Hftf). rewrite link_capacity_eq in *.
  destruct (idle_step l s) as (s1 & Hs1 & Hl1 & _ & H81 & Hb1 & Hd1 & Ht1 & _).
  assert (link_ok l s1) as Hok1.
  { destruct (link_ok_step l (EvIdle (link_usart l)) s Hok) as (s1' & Hs1' & ? & _);
      [by apply bool_decide_eq_true|]. congruence. }
  rewrite Hcnt, link_capacity_eq in *.
  assert (u16 (u32 (1024 - (if j =? 1024 then 1024 else 1024 - j)))
          = (if j =? 1024 then 0 else j)) as Hlen.
  { destruct (Z.eqb_spec j 1024); rewrite u32_small, u16_small; lia. }
  rewrite Hlen in *.
  assert (((if j =? 1024 then 0 else j) =? 0) && negb (chftf (dma0 s (link_channel l)))
          = false) as Hbail.
  { destruct (Z.eqb_spec j 1024) as [->|Hne].
    - rewrite Hftf by done. done.
    - destruct (Z.eqb_spec j 0); [lia|done]. }
  rewrite Hbail, Hspm, Hcar, Hup in Ht1.
  destruct (ticks_run (link_timer l) 999 s1)
    as (s2 & Hs2 & Ht2 & _ & Hb2 & H162 & H82 & Hd2 & _);
    try (rewrite Ht1; cbn; (done || lia)).
  assert (link_ok l s2) as Hok2.
  { destruct (link_ok_run l (replicate 999 (EvTick (link_timer l))) s1 Hok1)
      as (s2' & Hs2' & ?); [|congruence].
    apply forallb_replicate. by apply bool_decide_eq_true. }
  pose proof Hok2 as (Hbuf2 & Hlen2 & _).
  destruct (tick_elapse l s2) as (s3 & Hs3 & _ & _ & _ & _ & _ & _ & Hfin);
    try (rewrite Ht2, Ht1; cbn; (done || lia)); [done..|].
  exists s3. split.
  { cbn [run]. rewrite Hs1.
    change 1000%nat with (999 + 1)%nat. rewrite replicate_add, run_app, Hs2.
    cbn [replicate run]. by rewrite Hs3. }
  split.
  { destruct (link_ok_step l (EvTick (link_timer l)) s2 Hok2) as (s3' & Hs3' & ? & _);
      [by apply bool_decide_eq_true|]. congruence. }
  rewrite H162, Hl1, Hd2, Hd1, Hcnt, link_capacity_eq in Hfin.
  assert (((if j =? 1024 then 0 else j)
           =? u32 (1024 - (if j =? 1024 then 1024 else 1024 - j))) = true) as Hm.
  { apply Z.eqb_eq. destruct (Z.eqb_spec j 1024); rewrite u32_small; lia. }
  rewrite Hm in Hfin. destruct Hfin as (Hl3 & Hb3 & H83 & _).
  assert ((if (if j =? 1024 then 0 else j) =? 0 then 1024
           else if j =? 1024 then 0 else j) = j) as Hj'.
  { destruct (Z.eqb_spec j 1024) as [->|]; [done|].
    destruct (Z.eqb_spec j 0); [lia|done]. }
  rewrite Hj' in *. split_and!; try done. rewrite Hb3. congruence.
Qed.

(** X9: bring-up of one link is enough for that link.  From power-on,
    after the link's init function alone, no sequence of the link's own
    events faults, and a burst of k bytes (0 < k <= C) followed by the
    idle-line event and a quiet timer period completes a frame of these k
    bytes. *)
Theorem single_link_bring_up (l : link) (es : list event) (bs : list Z) :
  forallb (own_event l) es = true →
  0 < Z.of_nat (length bs) ≤ link_capacity l →
  ∃ s0 s1 s', step (EvCall (link_init l)) power_on = Some s0 ∧
    run es s0 = Some s1 ∧
    0 ≤ recv_length l s1 ≤ link_capacity l ∧
    run (EvCall (link_reset l) :: map (EvDma (link_channel l)) bs
         ++ EvIdle (link_usart l) :: replicate 1000 (EvTick (link_timer l))) s1 = Some s' ∧
    is_complete l s' = true ∧
    recv_length l s' = Z.of_nat (length bs) ∧
    take (length bs) (recv_buff l s') = bs.
Proof.
  intros Hown Hk.
  assert (∃ s0, step (EvCall (link_init l)) power_on = Some s0 ∧ link_ok l s0)
    as (s0 & Hs0 & Hok0).
  { destruct (init_step l power_on) as (s0 & Hs0 & H16 & _ & Hb & Hc & _ & Ht & _).
    exists s0. split; [done|]. unfold link_ok. rewrite Hb, H16, Hc, Ht.
    refine (conj _ (conj _ (conj _ _))); try done.
    all: (unfold channel_ok, timer_ok; cbn; rewrite ?link_capacity_eq;
          split_and!; (done || lia)). }
  destruct (link_ok_run l es s0 Hok0 Hown) as (s1 & Hs1 & Hok1).
  destruct (link_ok_step l (EvCall (link_reset l)) s1 Hok1) as (s2 & Hs2 & Hok2 & _).
  { cbn. rewrite (bool_decide_eq_true_2 (link_reset l = link_reset l)) by done.
    by rewrite orb_true_r. }
  destruct (reset_step l s1) as (s2' & Hs2' & _ & _ & _ & _ & _ & _ & Hc2 & _).
  rewrite Hs2 in Hs2'. injection Hs2' as <-.
  assert (filled l 0 s2) as Hfill2.
  { unfold filled. rewrite Hc2, link_capacity_eq. cbn. split_and!; (done || lia). }
  destruct (dma_run_ok l bs 0 s2 Hok2 Hfill2) as (s3 & Hs3 & Hok3 & Hfill3 & Hb3 & _);
    [lia|].
  rewrite Z.add_0_l in Hfill3.
  destruct (frame_ok l _ s3 Hok3 Hfill3) as (s' & Hs' & _ & Hl' & H8' & Hb'); [lia|].
  exists s0, s1, s'. unfold is_complete, recv_length, recv_buff.
  rewrite H8', Hl', Hb', Hb3, link_capacity_eq.
  split_and!; try done; try (destruct Hok1 as (_ & ? & _); lia).
  - cbn [run]. rewrite Hs2, run_app, Hs3. done.
  - change (Z.to_nat 0) with 0%nat. rewrite take_0, app_nil_l, Nat.add_0_l.
    rewrite take_insert_ge by lia. by rewrite take_app_length.
Qed.

Lemma single_link_bring_up_witness :
  ∃ s0 s1 s', step (EvCall (link_init link_bsp)) power_on = Some s0 ∧
    run [EvDma DMA_CH0 1; EvIdle USART0; EvCall call_usart_rx_buffer_print] s0 = Some s1 ∧
    0 ≤ recv_length link_bsp s1 ≤ link_capacity link_bsp ∧
    run (EvCall (link_reset link_bsp) :: map (EvDma (link_channel link_bsp)) [72; 105]
         ++ EvIdle (link_usart link_bsp)
            :: replicate 1000 (EvTick (link_timer link_bsp))) s1 = Some s' ∧
    is_complete link_bsp s' = true ∧
    recv_length link_bsp s' = Z.of_nat (length [72; 105]) ∧
    take (length [72; 105]) (recv_buff link_bsp s') = [72; 105].
Proof.
  apply (single_link_bring_up link_bsp
           [EvDma DMA_CH0 1; EvIdle USART0; EvCall call_usart_rx_buffer_print] [72; 105]).
  - vm_compute; reflexivity.
  - unfold link_capacity, BSP_USART_RECEIVE_LENGTH; simpl; lia.
Defined.

(** * The timer period *)

Lemma timer_tick_count t s :
  let r := timers s t in
  cen r = true → tcnt r < car r →
  timers (timer_tick t s) t
    = mk_timer_regs true (tcnt r + 1) (tpsc r) (car r) (spm r) (upif r).
Proof.
  intros r Hcen Hlt. subst r. unfold timer_tick. rewrite Hcen.
  replace (tcnt _ <? car _) with true by (symmetry; apply Z.ltb_lt; lia).
  unfold upd_timer; cbn. by fn_simpl.
Qed.

Lemma timer_tick_iter t n s :
  let r := timers s t in
  cen r = true →
  tcnt r + Z.of_nat n ≤ car r →
  timers (Nat.iter n (timer_tick t) s) t
    = mk_timer_regs true (tcnt r + Z.of_nat n) (tpsc r) (car r) (spm r) (upif r).
Proof.
  intros r Hcen. subst r. induction n as [|n IH]; intros Hle.
  - cbn. rewrite Z.add_0_r. destruct (timers s t); cbn in *; congruence.
  - rewrite Nat.iter_succ. rewrite timer_tick_count; rewrite IH by lia; cbn; [|done|lia].
    f_equal. lia.
Qed.

(** X10: a timer configured with a period of p clocks (1 <= p <= 65536) and
    then armed counts p - 1 clocks without raising its update flag, raises
    it at the p-th clock and stops there. *)
Theorem timer_elapses_after_period (t : timer_periph) (psc period : Z) (s : mcu) :
  1 ≤ period ≤ 65536 →
  ∃ s0, exec (timer_config t psc period ;; timer_arm t) s = Some s0 ∧
    (∀ n, (Z.of_nat n < period) →
       cen (timers (Nat.iter n (timer_tick t) s0) t) = true ∧
       upif (timers (Nat.iter n (timer_tick t) s0) t) = false ∧
       tcnt (timers (Nat.iter n (timer_tick t) s0) t) = Z.of_nat n) ∧
    cen (timers (Nat.iter (Z.to_nat period) (timer_tick t) s0) t) = false ∧
    upif (timers (Nat.iter (Z.to_nat period) (timer_tick t) s0) t) = true.
Proof.
  intros Hp.
  assert (u32 (period - 1) = period - 1) as H32 by (apply u32_small; lia).
  assert (u16 (period - 1) = period - 1) as H16 by (apply u16_small; lia).
  assert (∃ s0, exec (timer_config t psc period ;; timer_arm t) s = Some s0 ∧
            timers s0 t = mk_timer_regs true 0 (u16 (psc - 1)) (period - 1) true false)
    as (s0 & Hs0 & Ht0).
  { destruct t; unfold timer_config, timer_arm; unfold_code; cbn; fn_simpl;
      (eexists; split; [reflexivity|]); cbn; fn_simpl; cbn; fn_simpl;
      rewrite ?H32, ?H16; done. }
  exists s0. split; [done|].
  assert (∀ n, Z.of_nat n < period →
            timers (Nat.iter n (timer_tick t) s0) t
              = mk_timer_regs true (Z.of_nat n) (u16 (psc - 1)) (period - 1) true false)
    as Hrun.
  { intros n Hn. rewrite timer_tick_iter; rewrite Ht0; cbn; (done || lia). }
  split.
  - intros n Hn. by rewrite (Hrun n Hn).
  - replace (Z.to_nat period) with (S (Z.to_nat (period - 1))) by lia.
    rewrite Nat.iter_succ. unfold timer_tick at 1 3.
    rewrite (Hrun (Z.to_nat (period - 1))) by lia. cbn.
    replace (Z.of_nat (Z.to_nat (period - 1)) <? period - 1) with false
      by (symmetry; apply Z.ltb_ge; lia).
    unfold upd_timer; cbn. by fn_simpl.
Qed.

(** X11: a period argument of 0 does not mean no delay: the reload value
    wraps to the largest value of the register, 2^32 - 1 for TIMER5 and
    TIMER6 and 2^16 - 1 for TIMER15; likewise a prescaler argument of 0
    gives the largest prescaler. *)
Theorem timer_zero_period_wraps (t : timer_periph) (s : mcu) :
  ∃ s0, exec (timer_config t 0 0) s = Some s0 ∧
    tpsc (timers s0 t) = 65535 ∧
    car (timers s0 t) = (if decide (t = TIMER15) then 65535 else 4294967295).
Proof.
  destruct t; unfold timer_config; unfold_code; cbn; fn_simpl;
    (eexists; split; [reflexivity|]); cbn; fn_simpl; done.
Qed.

Lemma timer_elapses_after_period_witness :
  ∃ s0, exec (timer_config TIMER15 300 1000 ;; timer_arm TIMER15) power_on = Some s0 ∧
    (∀ n, (Z.of_nat n < 1000) →
       cen (timers (Nat.iter n (timer_tick TIMER15) s0) TIMER15) = true ∧
       upif (timers (Nat.iter n (timer_tick TIMER15) s0) TIMER15) = false ∧
       tcnt (timers (Nat.iter n (timer_tick TIMER15) s0) TIMER15) = Z.of_nat n) ∧
    cen (timers (Nat.iter (Z.to_nat 1000) (timer_tick TIMER15) s0) TIMER15) = false ∧
    upif (timers (Nat.iter (Z.to_nat 1000) (timer_tick TIMER15) s0) TIMER15) = true.
Proof.
  apply (timer_elapses_after_period TIMER15 300 1000 power_on). lia.
Defined.

(** * Formatted output *)

Ltac unfold_tx :=
  unfold execb, print_fmt, usart_terminal_print_fmt, uart4_print_fmt, wait_tfe, lift,
    tx_dma_config, set_memory0,
    vsnprintf, port_channel, port_buff, port_usart,
    mbind, MB_bind, mret, MB_ret in *.

Lemma u16_clamp n : (if 1024 <? u16 n then 1024 else u16 n) = Z.min (n mod 65536) 1024.
Proof. unfold u16. change (2 ^ 16) with 65536. destruct (Z.ltb_spec 1024 (n mod 65536)); lia. Qed.

(** What a call of [print_fmt] leaves behind. *)
Lemma print_fmt_step p r b :
  tfe b (port_usart p) = true →
  length (sends b (port_buff p)) = 1025%nat →
  ∃ b', execb (print_fmt p r) b = Some b' ∧
    dma0 (core b') (port_channel p)
      = (let c := dma0 (core b) (port_channel p) in
         mk_dma_chan true (sent_count r) (sent_count r) (chm0 c) 0 (chcirc c) false) ∧
    (∀ ch, ch ≠ port_channel p → dma0 (core b') ch = dma0 (core b) ch) ∧
    buffs (core b') = buffs (core b) ∧ u16s (core b') = u16s (core b) ∧
    u8s (core b') = u8s (core b) ∧ timers (core b') = timers (core b) ∧
    idle (core b') = idle (core b) ∧
    wire b' = wire b ∧ tfe b' = tfe b ∧ txm0 b' = txm0 b ∧
    (∀ v, v ≠ port_buff p → sends b' v = sends b v) ∧
    sends b' (port_buff p) = fmt_stored 1025 r (sends b (port_buff p)).
Proof.
  intros Htfe Hlen.
  destruct p; unfold_tx; rewrite Htfe; unfold_code; cbn; rewrite Hlen; cbn;
    fn_simpl; (eexists; split; [reflexivity|]); cbn; fn_simpl;
    split_and!; try done; try (intros; by fn_simpl).
  all: unfold sent_count; by rewrite !u16_clamp.
Qed.

Lemma fmt_stored_length r old :
  length old = 1025%nat → length (fmt_stored 1025 r old) = 1025%nat.
Proof.
  intros H. destruct r as [text|code partial]; cbn [fmt_stored]; cbn zeta.
  - rewrite length_app, length_take. cbn [length]. rewrite length_drop. lia.
  - rewrite length_app, length_take, length_drop. lia.
Qed.

Lemma tx_run_S n p b :
  tx_run (S n) p b
    = match dma_tx_transfer p b with Some b' => tx_run n p b' | None => None end.
Proof. reflexivity. Qed.

Lemma tx_run_idle p b n :
  chen (dma0 (core b) (port_channel p)) && (0 <? chcnt (dma0 (core b) (port_channel p))) = false →
  tx_run n p b = Some b.
Proof.
  intros H. induction n as [|n IH]; [done|].
  cbn [tx_run]. unfold dma_tx_transfer. rewrite H. exact IH.
Qed.

(** An enabled, non-circular channel with [m + 1] transfers left sends the
    next [m + 1] bytes of its buffer and switches itself off. *)
Lemma tx_run_count p (m : nat) : ∀ b,
  let c := dma0 (core b) (port_channel p) in
  txm0 b (port_channel p) = Some (port_buff p) →
  chen c = true → chcirc c = false → chcnt c = Z.of_nat (S m) →
  0 ≤ chmoff c →
  chmoff c + Z.of_nat (S m) ≤ Z.of_nat (length (sends b (port_buff p))) →
  ∃ b', tx_run (S m) p b = Some b' ∧
    wire b' (port_usart p)
      = wire b (port_usart p) ++ take (S m) (drop (Z.to_nat (chmoff c)) (sends b (port_buff p))) ∧
    (∀ u, u ≠ port_usart p → wire b' u = wire b u) ∧
    sends b' = sends b ∧ txm0 b' = txm0 b ∧ tfe b' = tfe b ∧
    dma0 (core b') (port_channel p)
      = mk_dma_chan false 0 (chnum c) (chm0 c) (chmoff c + Z.of_nat (S m)) false true ∧
    (∀ ch, ch ≠ port_channel p → dma0 (core b') ch = dma0 (core b) ch) ∧
    buffs (core b') = buffs (core b) ∧ u16s (core b') = u16s (core b) ∧
    u8s (core b') = u8s (core b) ∧ timers (core b') = timers (core b) ∧
    idle (core b') = idle (core b) ∧ oplog (core b') = oplog (core b).
Proof.
  induction m as [|m IH]; intros b c Hm0 Hen Hcirc Hcnt Hoff Hlen.
  - cbn [tx_run]. unfold dma_tx_transfer. fold c. rewrite Hm0, Hen, Hcnt, Hcirc. cbn [andb Z.ltb Z.compare Z.of_nat Pos.of_succ_nat].
    destruct (lookup_lt_is_Some_2 (sends b (port_buff p)) (Z.to_nat (chmoff c))) as [x Hx]; [lia|].
    rewrite Hx. cbn.
    eexists; split; [reflexivity|]. cbn. fn_simpl.
    split_and!; try done; try (intros; unfold upd_chan, set_dma0; cbn; by fn_simpl).
    f_equal. erewrite drop_S by exact Hx. cbn. by rewrite take_0.
  - rewrite tx_run_S. unfold dma_tx_transfer. fold c. rewrite Hm0, Hen, Hcnt.
    destruct (Z.ltb_spec 0 (Z.of_nat (S (S m)))); [|lia]. cbn [andb].
    destruct (lookup_lt_is_Some_2 (sends b (port_buff p)) (Z.to_nat (chmoff c))) as [x Hx]; [lia|].
    rewrite Hx.
    destruct (Z.eqb_spec (Z.of_nat (S (S m)) - 1) 0); [lia|].
    match goal with |- context [tx_run (S m) p ?b1] => set (b1' := b1) end.
    destruct (IH b1') as (b' & Hrun & Hw & Hwo & Hs & Hm & Ht & Hc & Hco & Hb & H16 & H8 & Htm & Hi & Hlog).
    all: try solve [subst b1'; unfold upd_chan, set_dma0; cbn; fn_simpl; cbn;
                    first [done | lia | by rewrite Hcirc]].
    subst b1'. exists b'. split; [exact Hrun|].
    unfold upd_chan, set_dma0 in *; cbn in *; revert Hw Hwo Hc Hco; fn_simpl; cbn;
      intros Hw Hwo Hc Hco.
    split_and!; try done.
    + rewrite Hw. rewrite <- app_assoc. f_equal.
      erewrite (drop_S _ _ (Z.to_nat (chmoff c))) by exact Hx.
      cbn. do 2 f_equal. f_equal. lia.
    + intros u Hu. rewrite Hwo by done. by fn_simpl.
    + rewrite Hc. f_equal. lia.
    + intros ch Hch. rewrite Hco by done. by fn_simpl.
Qed.

Lemma tx_run_add n m p b :
  tx_run (n + m) p b = match tx_run n p b with Some b' => tx_run m p b' | None => None end.
Proof.
  revert b. induction n as [|n IH]; intros b; [done|].
  cbn [Nat.add]. rewrite !tx_run_S. destruct (dma_tx_transfer p b); [apply IH|done].
Qed.

Lemma sent_count_range r : 0 ≤ sent_count r ≤ 1024.
Proof.
  unfold sent_count. pose proof (Z.mod_pos_bound (fmt_return r) 65536). lia.
Qed.

(** The general form: [print_fmt] hands the transmitter the first
    [sent_count r] bytes of the send buffer, then the channel is off. *)
Lemma print_fmt_run p r b :
  tx_ready p b → tfe b (port_usart p) = true →
  ∃ b1 b2, execb (print_fmt p r) b = Some b1 ∧
    tx_run (Z.to_nat (sent_count r)) p b1 = Some b2 ∧
    chcnt (dma0 (core b1) (port_channel p)) = sent_count r ∧
    sends b2 = sends b1 ∧
    sends b1 (port_buff p) = fmt_stored 1025 r (sends b (port_buff p)) ∧
    wire b2 (port_usart p)
      = wire b (port_usart p) ++ take (Z.to_nat (sent_count r)) (sends b1 (port_buff p)) ∧
    (∀ u, u ≠ port_usart p → wire b2 u = wire b u) ∧
    (∀ n, tx_run n p b2 = Some b2) ∧
    tx_ready p b2 ∧ tfe b2 = tfe b.
Proof.
  intros (Hm0 & Hcirc & Hlen) Htfe.
  destruct (print_fmt_step p r b Htfe Hlen)
    as (b1 & Hex & Hc & Hco & Hb & H16 & H8 & Htm & Hi & Hw & Ht & Hm & Hso & Hs).
  cbn zeta in Hc.
  assert (Hlen1 : length (sends b1 (port_buff p)) = 1025%nat).
  { rewrite Hs. by apply fmt_stored_length. }
  pose proof (sent_count_range r) as Hr.
  exists b1. destruct (Z.to_nat (sent_count r)) as [|m] eqn:Hk.
  - exists b1. assert (sent_count r = 0) as H0 by lia.
    assert (Hidle : chen (dma0 (core b1) (port_channel p))
                    && (0 <? chcnt (dma0 (core b1) (port_channel p))) = false).
    { rewrite Hc. cbn. rewrite H0. done. }
    split_and!; try done.
    + rewrite Hc; cbn; done.
    + rewrite take_0, app_nil_r. by rewrite Hw.
    + intros; by rewrite Hw.
    + intros n. by apply tx_run_idle.
    + split_and!; [by rewrite Hm | by rewrite Hc; cbn | done].
  - destruct (tx_run_count p m b1)
      as (b2 & Hrun & Hw2 & Hwo2 & Hs2 & Hm2 & Ht2 & Hc2 & Hco2 & _);
      try (rewrite Hc; cbn; first [done | lia]); try by rewrite Hm.
    exists b2. split_and!; try done.
    + rewrite Hc; cbn; done.
    + rewrite Hw2, Hc, Hw. cbn. by rewrite drop_0.
    + intros u Hu. rewrite Hwo2 by done. by rewrite Hw.
    + intros n. apply tx_run_idle. rewrite Hc2. done.
    + split_and!; [by rewrite Hm2, Hm | by rewrite Hc2 | by rewrite Hs2].
    + by rewrite Ht2.
Qed.

(** X12: a text shorter than 65536 characters is transmitted up to its first
    1024 characters, exactly once, and the send buffer holds them followed
    by a terminating 0. *)
Theorem print_fmt_sends_text p text b :
  tx_ready p b → tfe b (port_usart p) = true →
  Z.of_nat (length text) < 65536 →
  ∃ b1 b2, execb (print_fmt p (Formatted text)) b = Some b1 ∧
    tx_run (Z.to_nat (Z.min (Z.of_nat (length text)) 1024)) p b1 = Some b2 ∧
    wire b2 (port_usart p) = wire b (port_usart p) ++ take 1024 text ∧
    take (S (length (take 1024 text))) (sends b2 (port_buff p)) = take 1024 text ++ [0] ∧
    (∀ n, tx_run n p b2 = Some b2).
Proof.
  intros Hr Htfe Hlt.
  destruct (print_fmt_run p (Formatted text) b Hr Htfe)
    as (b1 & b2 & Hex & Hrun & _ & Hs2 & Hs & Hw & _ & Hidle & _).
  assert (Hc : sent_count (Formatted text) = Z.min (Z.of_nat (length text)) 1024).
  { unfold sent_count. cbn [fmt_return]. rewrite Z.mod_small by lia. done. }
  rewrite Hc in *. cbn [fmt_stored] in Hs. change (1025 - 1) with 1024 in Hs.
  cbn zeta in Hs.
  assert (Htk : take (Z.to_nat (Z.min (Z.of_nat (length text)) 1024)) text = take 1024 text).
  { destruct (Z.le_gt_cases (Z.of_nat (length text)) 1024).
    - rewrite !take_ge by lia. done.
    - f_equal. lia. }
  rewrite Htk in Hs.
  exists b1, b2. split_and!; try done.
  - rewrite Hw, Hs. f_equal. rewrite take_app_le by (rewrite length_take; lia).
    rewrite take_take.
    destruct (Z.le_gt_cases (Z.of_nat (length text)) 1024);
      [rewrite !take_ge by lia; done | f_equal; lia].
  - rewrite Hs2, Hs. rewrite take_app_ge by lia.
    replace (S (length (take 1024 text)) - length (take 1024 text))%nat with 1%nat by lia.
    cbn. by rewrite take_0.
Qed.

(** X13: the length is cut to 16 bits before it is clamped: of a text of
    65536 characters or more whose length modulo 65536 is below 1024, only
    that many characters are transmitted, although the buffer holds the
    first 1024. *)
Theorem print_fmt_long_text_wraps p text b :
  tx_ready p b → tfe b (port_usart p) = true →
  65536 ≤ Z.of_nat (length text) → Z.of_nat (length text) mod 65536 < 1024 →
  ∃ b1 b2, execb (print_fmt p (Formatted text)) b = Some b1 ∧
    take 1024 (sends b1 (port_buff p)) = take 1024 text ∧
    tx_run 1024 p b1 = Some b2 ∧
    wire b2 (port_usart p)
      = wire b (port_usart p) ++ take (Z.to_nat (Z.of_nat (length text) mod 65536)) text.
Proof.
  intros Hr Htfe Hge Hmod.
  destruct (print_fmt_run p (Formatted text) b Hr Htfe)
    as (b1 & b2 & Hex & Hrun & _ & Hs2 & Hs & Hw & _ & Hidle & _).
  pose proof (Z.mod_pos_bound (Z.of_nat (length text)) 65536 ltac:(lia)) as Hpos.
  assert (Hc : sent_count (Formatted text) = Z.of_nat (length text) mod 65536).
  { unfold sent_count. cbn [fmt_return]. lia. }
  rewrite Hc in *. cbn [fmt_stored] in Hs. change (1025 - 1) with 1024 in Hs.
  cbn zeta in Hs.
  replace (Z.to_nat (Z.min (Z.of_nat (length text)) 1024)) with 1024%nat in Hs by lia.
  exists b1, b2. split_and!; try done.
  - rewrite Hs. rewrite take_app_le by (rewrite length_take; lia). by rewrite take_take.
  - replace 1024%nat
      with (Z.to_nat (Z.of_nat (length text) mod 65536)
            + (1024 - Z.to_nat (Z.of_nat (length text) mod 65536)))%nat by lia.
    rewrite tx_run_add, Hrun. apply Hidle.
  - rewrite Hw, Hs. f_equal. rewrite take_app_le by (rewrite length_take; lia).
    rewrite take_take. f_equal. lia.
Qed.

(** X14: a failure of the conversion goes unnoticed.  When [vsnprintf]
    returns [- code] (1 <= code < 64512, -1 among them), the 16-bit length is
    above 1024 and is clamped: 1024 transfers are programmed and the
    transmitter is handed the first 1024 bytes of the send buffer, whatever
    the failed call left there. *)
Theorem print_fmt_error_sends_buffer p code partial b :
  tx_ready p b → tfe b (port_usart p) = true →
  Z.pos code < 64512 →
  ∃ b1 b2, execb (print_fmt p (FormatError code partial)) b = Some b1 ∧
    chcnt (dma0 (core b1) (port_channel p)) = 1024 ∧
    tx_run 1024 p b1 = Some b2 ∧
    wire b2 (port_usart p)
      = wire b (port_usart p) ++ take 1024 (sends b1 (port_buff p)) ∧
    length (wire b2 (port_usart p)) = (length (wire b (port_usart p)) + 1024)%nat.
Proof.
  intros Hr Htfe Hcode.
  destruct (print_fmt_run p (FormatError code partial) b Hr Htfe)
    as (b1 & b2 & Hex & Hrun & Hcnt & Hs2 & Hs & Hw & _ & Hidle & _).
  assert (Hc : sent_count (FormatError code partial) = 1024).
  { unfold sent_count. cbn [fmt_return].
    replace (Z.neg code) with (65536 - Z.pos code + (-1) * 65536) by lia.
    rewrite Z.mod_add by lia. rewrite Z.mod_small by lia. lia. }
  rewrite Hc in *.
  exists b1, b2. split_and!; try done.
  rewrite Hw, length_app, length_take.
  destruct Hr as (_ & _ & Hlen).
  rewrite Hs, fmt_stored_length by done. lia.
Qed.

(** X15: whatever is printed, the channel is given at most 1024 transfers and
    every one of them reads inside the send buffer. *)
Theorem print_fmt_reads_in_bounds p r b :
  tx_ready p b → tfe b (port_usart p) = true →
  ∃ b1, execb (print_fmt p r) b = Some b1 ∧
    0 ≤ chcnt (dma0 (core b1) (port_channel p)) ≤ 1024 ∧
    ∀ n, ∃ b2, tx_run n p b1 = Some b2.
Proof.
  intros Hr Htfe.
  destruct (print_fmt_run p r b Hr Htfe)
    as (b1 & b2 & Hex & Hrun & Hc & _ & _ & _ & _ & Hidle & _).
  exists b1. split; [done|]. split; [rewrite Hc; apply sent_count_range|].
  intros n. destruct (Nat.le_gt_cases n (Z.to_nat (sent_count r))) as [Hle|Hgt].
  - replace (Z.to_nat (sent_count r)) with (n + (Z.to_nat (sent_count r) - n))%nat in Hrun by lia.
    rewrite tx_run_add in Hrun. destruct (tx_run n p b1) as [b'|]; [by exists b'|done].
  - exists b2.
    replace n with (Z.to_nat (sent_count r) + (n - Z.to_nat (sent_count r)))%nat by lia.
    rewrite tx_run_add, Hrun. apply Hidle.
Qed.

(** X16: two texts printed one after the other, each transmitted to its end,
    reach the transmitter one after the other: the second call starts again
    at the buffer origin. *)
Theorem print_fmt_twice p t1 t2 b :
  tx_ready p b → tfe b (port_usart p) = true →
  Z.of_nat (length t1) < 65536 → Z.of_nat (length t2) < 65536 →
  ∃ b1 b2 b3 b4,
    execb (print_fmt p (Formatted t1)) b = Some b1 ∧ tx_run 1024 p b1 = Some b2 ∧
    execb (print_fmt p (Formatted t2)) b2 = Some b3 ∧ tx_run 1024 p b3 = Some b4 ∧
    wire b4 (port_usart p) = wire b (port_usart p) ++ take 1024 t1 ++ take 1024 t2.
Proof.
  intros Hr Htfe H1 H2.
  assert (Hone : ∀ text b, tx_ready p b → tfe b (port_usart p) = true →
            Z.of_nat (length text) < 65536 →
            ∃ b1 b2, execb (print_fmt p (Formatted text)) b = Some b1 ∧
              tx_run 1024 p b1 = Some b2 ∧
              wire b2 (port_usart p) = wire b (port_usart p) ++ take 1024 text ∧
              tx_ready p b2 ∧ tfe b2 (port_usart p) = true).
  { clear. intros text b Hr Htfe Hlt.
    destruct (print_fmt_run p (Formatted text) b Hr Htfe)
      as (b1 & b2 & Hex & Hrun & _ & Hs2 & Hs & Hw & _ & Hidle & Hr2 & Ht2).
    pose proof (sent_count_range (Formatted text)) as Hrg.
    exists b1, b2. split_and!; try done.
    - replace 1024%nat with (Z.to_nat (sent_count (Formatted text))
        + (1024 - Z.to_nat (sent_count (Formatted text))))%nat by lia.
      rewrite tx_run_add, Hrun. apply Hidle.
    - rewrite Hw, Hs. f_equal. unfold sent_count. cbn [fmt_return fmt_stored].
      change (1025 - 1) with 1024. cbn zeta. rewrite Z.mod_small by lia.
      rewrite take_app_le by (rewrite length_take; lia).
      rewrite take_take.
      destruct (Z.le_gt_cases (Z.of_nat (length text)) 1024);
        [rewrite !take_ge by lia; done | f_equal; lia].
    - by rewrite Ht2. }
  destruct (Hone t1 b Hr Htfe H1) as (b1 & b2 & Hex1 & Hrun1 & Hw1 & Hr2 & Ht2).
  destruct (Hone t2 b2 Hr2 Ht2 H2) as (b3 & b4 & Hex2 & Hrun2 & Hw2 & _ & _).
  exists b1, b2, b3, b4. split_and!; try done.
  by rewrite Hw2, Hw1, <- app_assoc.
Qed.

(** X17: printing leaves reception alone: the variables, buffer, channel and
    timer of every receive link are as before, and so is the send buffer of
    the other port. *)
Theorem print_fmt_keeps_receive_side p r b :
  tfe b (port_usart p) = true → length (sends b (port_buff p)) = 1025%nat →
  ∃ b1, execb (print_fmt p r) b = Some b1 ∧
    (∀ l, recv_length l (core b1) = recv_length l (core b) ∧
          recv_buff l (core b1) = recv_buff l (core b) ∧
          is_complete l (core b1) = is_complete l (core b) ∧
          dma0 (core b1) (link_channel l) = dma0 (core b) (link_channel l) ∧
          timers (core b1) (link_timer l) = timers (core b) (link_timer l) ∧
          (link_ok l (core b) → link_ok l (core b1))) ∧
    (∀ v, v ≠ port_buff p → sends b1 v = sends b v) ∧
    (∀ u, wire b1 u = wire b u).
Proof.
  intros Htfe Hlen.
  destruct (print_fmt_step p r b Htfe Hlen)
    as (b1 & Hex & Hc & Hco & Hb & H16 & H8 & Htm & Hi & Hw & Ht & Hm & Hso & Hs).
  exists b1. split; [done|]. split_and!; [|done|by rewrite Hw].
  intros l.
  assert (Hch : dma0 (core b1) (link_channel l) = dma0 (core b) (link_channel l)).
  { apply Hco. destruct l, p; done. }
  unfold recv_length, recv_buff, is_complete, link_ok.
  rewrite Hb, H16, H8, Htm, Hch. done.
Qed.

(** X18: configuring a transmit channel makes the port ready and sends
    nothing: the channel holds the send buffer and 1024 transfers but stays
    disabled until the first [print_fmt]. *)
Theorem tx_dma_config_silent p b :
  length (sends b (port_buff p)) = 1025%nat →
  ∃ b', execb (tx_dma_config p) b = Some b' ∧ tx_ready p b' ∧
    chen (dma0 (core b') (port_channel p)) = false ∧
    chcnt (dma0 (core b') (port_channel p)) = 1024 ∧
    ∀ n, tx_run n p b' = Some b'.
Proof.
  intros Hlen.
  destruct p; unfold_tx; unfold_code; cbn; fn_simpl;
    (eexists; split; [reflexivity|]); cbn; fn_simpl.
  all: unfold tx_ready; cbn; fn_simpl; split_and!; try done.
  all: intros n; apply tx_run_idle; cbn; by fn_simpl.
Qed.

(** ** Examples *)

Lemma tx_dma_config_silent_witness :
  ∃ b', execb (tx_dma_config port_terminal) board_on = Some b' ∧
    tx_ready port_terminal b' ∧
    chen (dma0 (core b') (port_channel port_terminal)) = false ∧
    chcnt (dma0 (core b') (port_channel port_terminal)) = 1024 ∧
    ∀ n, tx_run n port_terminal b' = Some b'.
Proof.
  apply (tx_dma_config_silent port_terminal board_on). vm_compute; reflexivity.
Defined.

Lemma print_fmt_sends_text_witness :
  ∃ b1 b2, execb (print_fmt port_terminal (Formatted [72; 105])) board_ready = Some b1 ∧
    tx_run (Z.to_nat (Z.min (Z.of_nat (length [72; 105])) 1024)) port_terminal b1 = Some b2 ∧
    wire b2 (port_usart port_terminal)
      = wire board_ready (port_usart port_terminal) ++ take 1024 [72; 105] ∧
    take (S (length (take 1024 [72; 105]))) (sends b2 (port_buff port_terminal))
      = take 1024 [72; 105] ++ [0] ∧
    (∀ n, tx_run n port_terminal b2 = Some b2).
Proof.
  apply (print_fmt_sends_text port_terminal [72; 105] board_ready).
  - repeat split; vm_compute; reflexivity.
  - vm_compute; reflexivity.
  - simpl; lia.
Defined.

Lemma print_fmt_long_text_wraps_witness :
  ∃ b1 b2,
    execb (print_fmt port_uart4 (Formatted long_text)) board_ready = Some b1 ∧
    take 1024 (sends b1 (port_buff port_uart4)) = take 1024 long_text ∧
    tx_run 1024 port_uart4 b1 = Some b2 ∧
    wire b2 (port_usart port_uart4)
      = wire board_ready (port_usart port_uart4)
        ++ take (Z.to_nat (Z.of_nat (length long_text) mod 65536))
             long_text.
Proof.
  apply (print_fmt_long_text_wraps port_uart4 long_text board_ready).
  - repeat split; vm_compute; reflexivity.
  - vm_compute; reflexivity.
  - vm_compute. discriminate.
  - vm_compute; reflexivity.
Defined.

Lemma print_fmt_error_sends_buffer_witness :
  ∃ b1 b2,
    execb (print_fmt port_terminal (FormatError 1 [72; 105])) board_ready = Some b1 ∧
    chcnt (dma0 (core b1) (port_channel port_terminal)) = 1024 ∧
    tx_run 1024 port_terminal b1 = Some b2 ∧
    wire b2 (port_usart port_terminal)
      = wire board_ready (port_usart port_terminal)
        ++ take 1024 (sends b1 (port_buff port_terminal)) ∧
    length (wire b2 (port_usart port_terminal))
      = (length (wire board_ready (port_usart port_terminal)) + 1024)%nat.
Proof.
  apply (print_fmt_error_sends_buffer port_terminal 1 [72; 105] board_ready).
  - repeat split; vm_compute; reflexivity.
  - vm_compute; reflexivity.
  - lia.
Defined.

Lemma print_fmt_reads_in_bounds_witness :
  ∃ b1, execb (print_fmt port_uart4 (Formatted (replicate 2000 65))) board_ready = Some b1 ∧
    0 ≤ chcnt (dma0 (core b1) (port_channel port_uart4)) ≤ 1024 ∧
    ∀ n, ∃ b2, tx_run n port_uart4 b1 = Some b2.
Proof.
  apply (print_fmt_reads_in_bounds port_uart4 (Formatted (replicate 2000 65)) board_ready).
  - repeat split; vm_compute; reflexivity.
  - vm_compute; reflexivity.
Defined.

Lemma print_fmt_twice_witness :
  ∃ b1 b2 b3 b4,
    execb (print_fmt port_terminal (Formatted [72; 105])) board_ready = Some b1 ∧
    tx_run 1024 port_terminal b1 = Some b2 ∧
    execb (print_fmt port_terminal (Formatted [33])) b2 = Some b3 ∧
    tx_run 1024 port_terminal b3 = Some b4 ∧
    wire b4 (port_usart port_terminal)
      = wire board_ready (port_usart port_terminal) ++ take 1024 [72; 105] ++ take 1024 [33].
Proof.
  apply (print_fmt_twice port_terminal [72; 105] [33] board_ready).
  - repeat split; vm_compute; reflexivity.
  - vm_compute; reflexivity.
  - simpl; lia.
  - simpl; lia.
Defined.

Lemma print_fmt_keeps_receive_side_witness :
  ∃ b1, execb (print_fmt port_terminal (Formatted [72; 105])) board_ready = Some b1 ∧
    (∀ l, recv_length l (core b1) = recv_length l (core board_ready) ∧
          recv_buff l (core b1) = recv_buff l (core board_ready) ∧
          is_complete l (core b1) = is_complete l (core board_ready) ∧
          dma0 (core b1) (link_channel l) = dma0 (core board_ready) (link_channel l) ∧
          timers (core b1) (link_timer l) = timers (core board_ready) (link_timer l) ∧
          (link_ok l (core board_ready) → link_ok l (core b1))) ∧
    (∀ v, v ≠ port_buff port_terminal → sends b1 v = sends board_ready v) ∧
    (∀ u, wire b1 u = wire board_ready u).
Proof.
  apply (print_fmt_keeps_receive_side port_terminal (Formatted [72; 105]) board_ready).
  - vm_compute; reflexivity.
  - vm_compute; reflexivity.
Defined.

(** * Delays *)

Lemma paced_cons R t t' ts :
  paced R (t :: t' :: ts) = true ↔ (0 < t' - t ≤ R) ∧ paced R (t' :: ts) = true.
Proof.
  cbn [paced]. rewrite !andb_true_iff, Z.ltb_lt, Z.leb_le. tauto.
Qed.

(** One turn of the loop adds exactly the clocks that passed between the
    two reads. *)
Lemma delay_gap st phase t g tcnt :
  0 ≤ LOAD st < 16777216 → 0 < g ≤ LOAD st + 1 →
  (if systick_val st phase (t + g) <? systick_val st phase t
   then u32 (tcnt + u32 (systick_val st phase t - systick_val st phase (t + g)))
   else u32 (tcnt + u32 (u32 (u32 (LOAD st + 1) - systick_val st phase (t + g))
                          + systick_val st phase t)))
  = u32 (tcnt + g).
Proof.
  intros HL Hg. unfold systick_val.
  set (R := LOAD st + 1) in *.
  assert (HR : 0 < R) by (subst R; lia).
  pose proof (Z.mod_pos_bound (phase + t) R HR) as Ha.
  pose proof (Z.mod_pos_bound (phase + (t + g)) R HR) as Hb.
  pose proof (Z.div_mod (phase + t) R ltac:(lia)) as Ea.
  pose proof (Z.div_mod (phase + (t + g)) R ltac:(lia)) as Eb.
  set (a := (phase + t) mod R) in *. set (b := (phase + (t + g)) mod R) in *.
  set (qa := (phase + t) / R) in *. set (qb := (phase + (t + g)) / R) in *.
  assert (Hd : g = R * (qb - qa) + (b - a)) by lia.
  assert (Hq : qb - qa = 0 ∨ qb - qa = 1) by nia.
  replace (LOAD st) with (R - 1) by (subst R; lia).
  rewrite (u32_small R) by lia.
  destruct (Z.ltb_spec (R - 1 - b) (R - 1 - a)).
  - assert (qb - qa = 0) by nia.
    rewrite (u32_small (R - 1 - a - (R - 1 - b))) by nia.
    f_equal. nia.
  - assert (qb - qa = 1) by nia.
    rewrite (u32_small (R - (R - 1 - b))) by lia.
    rewrite (u32_small (R - (R - 1 - b) + (R - 1 - a))) by lia.
    f_equal. nia.
Qed.

(** The loop, read on the clock: it breaks at the first read at which
    [ticks] clocks have passed. *)
Lemma delay_us_loop_clock st phase ticks t0 : ∀ ts t,
  0 ≤ LOAD st < 16777216 → 0 ≤ ticks → ticks + (LOAD st + 1) ≤ 4294967296 →
  paced (LOAD st + 1) (t :: ts) = true →
  0 ≤ t - t0 ≤ 4294967295 - (LOAD st + 1) →
  delay_us_loop (u32 (LOAD st + 1)) ticks (systick_val st phase t) (t - t0)
      (map (systick_val st phase) ts)
    = map (systick_val st phase) <$> wait_until ticks t0 ts.
Proof.
  induction ts as [|t' ts IH]; intros t HL Hticks Hsum Hp Ht; [done|].
  apply paced_cons in Hp as [Hg Hp].
  cbn [map delay_us_loop wait_until].
  pose proof (delay_gap st phase t (t' - t) (t - t0)) as Hgap.
  replace (t + (t' - t)) with t' in Hgap by lia.
  rewrite Hgap by lia. clear Hgap.
  replace (t - t0 + (t' - t)) with (t' - t0) by lia.
  rewrite u32_small by lia.
  destruct (Z.leb_spec ticks (t' - t0)); [done|].
  apply IH; try done. lia.
Qed.

Lemma delay_us_clock st phase nus t0 ts :
  0 ≤ LOAD st < 16777216 → 0 ≤ nus * fac_us st →
  nus * fac_us st + (LOAD st + 1) ≤ 4294967296 →
  paced (LOAD st + 1) (t0 :: ts) = true →
  delay_us st nus (map (systick_val st phase) (t0 :: ts))
    = map (systick_val st phase) <$> wait_until (nus * fac_us st) t0 ts.
Proof.
  intros HL H0 Hsum Hp. unfold delay_us, delay_ticks. cbn [map].
  rewrite (u32_small (nus * fac_us st)) by lia.
  replace 0 with (t0 - t0) at 1 by lia.
  apply delay_us_loop_clock; try done. lia.
Qed.

Lemma wait_until_first ticks t0 ts1 t ts2 :
  Forall (λ t', t' - t0 < ticks) ts1 → ticks ≤ t - t0 →
  wait_until ticks t0 (ts1 ++ t :: ts2) = Some ts2.
Proof.
  induction 1 as [|t' ts1 Hlt _ IH]; intros Hge; cbn.
  - destruct (Z.leb_spec ticks (t - t0)); [done|lia].
  - destruct (Z.leb_spec ticks (t' - t0)); [lia|by apply IH].
Qed.

Lemma wait_until_inv ticks t0 ts ts2 :
  wait_until ticks t0 ts = Some ts2 →
  ∃ ts1 t, ts = ts1 ++ t :: ts2 ∧ Forall (λ t', t' - t0 < ticks) ts1 ∧ ticks ≤ t - t0.
Proof.
  revert ts2. induction ts as [|t' ts IH]; intros ts2 H; [done|].
  cbn in H. destruct (Z.leb_spec ticks (t' - t0)).
  - injection H as <-. exists [], t'. split_and!; [done|constructor|done].
  - destruct (IH _ H) as (ts1 & t & -> & Hall & Hge).
    exists (t' :: ts1), t. split_and!; [done|by constructor|done].
Qed.


Lemma paced_app_r R ts1 ts2 : paced R (ts1 ++ ts2) = true → paced R ts2 = true.
Proof.
  induction ts1 as [|t ts1 IH]; [done|]. intros H. apply IH.
  destruct ts1 as [|t' ts1].
  - destruct ts2; [done|]. by apply paced_cons in H as [_ H].
  - by apply paced_cons in H as [_ H].
Qed.

Lemma paced_app_l R ts1 ts2 : paced R (ts1 ++ ts2) = true → paced R ts1 = true.
Proof.
  induction ts1 as [|t ts1 IH]; [done|]. intros H.
  destruct ts1 as [|t' ts1]; [done|].
  cbn [app] in *. apply paced_cons in H as [Hg H]. apply paced_cons. split; [done|by apply IH].
Qed.

Lemma wait_until_none ticks t0 ts :
  forallb (λ t', t' - t0 <? ticks) ts = true → wait_until ticks t0 ts = None.
Proof.
  induction ts as [|t ts IH]; [done|]. cbn. intros [H1 H2]%andb_true_iff.
  apply Z.ltb_lt in H1. destruct (Z.leb_spec ticks (t - t0)); [lia|by apply IH].
Qed.

Lemma forallb_Forall_lt ticks t0 ts :
  forallb (λ t', t' - t0 <? ticks) ts = true → Forall (λ t', t' - t0 < ticks) ts.
Proof.
  induction ts as [|t ts IH]; [constructor|]. cbn. intros [H1 H2]%andb_true_iff.
  constructor; [by apply Z.ltb_lt|by apply IH].
Qed.

(** X19: [delay_us] returns at the first read of the counter at which
    [nus * fac_us] clocks have passed since its first read, and has not
    returned before it: the delay is never short, and it is long by less
    than one turn of the loop. *)
Theorem delay_us_waits st phase nus t0 ts1 t ts2 :
  0 ≤ LOAD st < 16777216 → 0 ≤ nus * fac_us st →
  nus * fac_us st + (LOAD st + 1) ≤ 4294967296 →
  paced (LOAD st + 1) (t0 :: ts1 ++ t :: ts2) = true →
  forallb (λ t', t' - t0 <? nus * fac_us st) ts1 = true →
  nus * fac_us st ≤ t - t0 →
  delay_us st nus (map (systick_val st phase) (t0 :: ts1 ++ t :: ts2))
    = Some (map (systick_val st phase) ts2) ∧
  delay_us st nus (map (systick_val st phase) (t0 :: ts1)) = None.
Proof.
  intros HL H0 Hsum Hp Hall Hge. split.
  - rewrite delay_us_clock by done.
    rewrite wait_until_first; [done|by apply forallb_Forall_lt|done].
  - rewrite delay_us_clock; try done.
    + by rewrite wait_until_none.
    + change (t0 :: ts1 ++ t :: ts2) with ((t0 :: ts1) ++ t :: ts2) in Hp.
      by apply paced_app_l in Hp.
Qed.

Lemma last_cons_head (a : Z) l d : List.last (a :: l) d = List.last l a.
Proof.
  revert a d. induction l as [|b l IH]; intros a d; [done|].
  change (List.last (a :: b :: l) d) with (List.last (b :: l) d).
  rewrite (IH b d). symmetry. apply (IH b a).
Qed.

Lemma last_app_cons (l : list Z) a l' d : List.last (l ++ a :: l') d = List.last l' a.
Proof.
  revert d. induction l as [|b l IH]; intros d; cbn [app].
  - apply last_cons_head.
  - rewrite last_cons_head. apply IH.
Qed.

(** Reads at which fewer than [ticks] clocks have passed are skipped, the
    count following the clock. *)
Lemma delay_us_loop_skip st phase ticks t0 rest : ∀ ts1 t,
  0 ≤ LOAD st < 16777216 → ticks ≤ 4294967296 →
  paced (LOAD st + 1) (t :: ts1) = true →
  forallb (λ t', t' - t0 <? ticks) ts1 = true →
  0 ≤ t - t0 →
  delay_us_loop (u32 (LOAD st + 1)) ticks (systick_val st phase t) (t - t0)
      (map (systick_val st phase) ts1 ++ rest)
    = delay_us_loop (u32 (LOAD st + 1)) ticks
        (systick_val st phase (List.last ts1 t)) (List.last ts1 t - t0) rest.
Proof.
  induction ts1 as [|t' ts1 IH]; intros t HL Hticks Hp Hall Ht; [done|].
  cbn [forallb] in Hall. apply andb_true_iff in Hall as [Hlt Hall]. apply Z.ltb_lt in Hlt.
  apply paced_cons in Hp as [Hg Hp].
  cbn [map app delay_us_loop].
  pose proof (delay_gap st phase t (t' - t) (t - t0)) as Hgap.
  replace (t + (t' - t)) with t' in Hgap by lia.
  rewrite Hgap by lia. clear Hgap.
  replace (t - t0 + (t' - t)) with (t' - t0) by lia.
  rewrite u32_small by lia.
  destruct (Z.leb_spec ticks (t' - t0)); [lia|].
  rewrite IH; try done; [|lia].
  by rewrite last_cons_head.
Qed.

(** X20: when [nus * fac_us] is within one counter period of 2^32 the count
    can pass 2^32 without ever being seen at or above its target: if the
    first read that is late enough comes 2^32 or more clocks after the
    first one, the loop does not break there and carries on with the count
    started again from [t - t0 - 2^32]. *)
Theorem delay_us_count_wraps st phase nus t0 ts1 t rest :
  0 ≤ LOAD st < 16777216 → 0 ≤ nus * fac_us st < 4294967296 →
  paced (LOAD st + 1) (t0 :: ts1 ++ [t]) = true →
  forallb (λ t', t' - t0 <? nus * fac_us st) ts1 = true →
  4294967296 ≤ t - t0 →
  nus * fac_us st ≤ t - t0 ∧
  t - t0 - 4294967296 < nus * fac_us st ∧
  delay_us st nus (map (systick_val st phase) (t0 :: ts1 ++ [t]) ++ rest)
    = delay_us_loop (u32 (LOAD st + 1)) (nus * fac_us st) (systick_val st phase t)
        (t - t0 - 4294967296) rest.
Proof.
  intros HL H0 Hp Hall Hge.
  assert (Hpl : paced (LOAD st + 1) (t0 :: ts1) = true).
  { change (t0 :: ts1 ++ [t]) with ((t0 :: ts1) ++ [t]) in Hp. by apply paced_app_l in Hp. }
  assert (Hlast : 0 < t - List.last ts1 t0 ≤ LOAD st + 1 ∧
                  0 ≤ List.last ts1 t0 - t0 < nus * fac_us st ∨
                  ts1 = [] ∧ 0 < t - t0 ≤ LOAD st + 1).
  { destruct (decide (ts1 = [])) as [->|Hne]; [right; split; [done|]|left].
    - by apply paced_cons in Hp as [Hp _].
    - destruct (exists_last Hne) as (ts0 & tl & ->).
      rewrite last_last.
      rewrite forallb_app in Hall. apply andb_true_iff in Hall as [_ Hall].
      cbn in Hall. rewrite andb_true_r in Hall. apply Z.ltb_lt in Hall.
      assert (E : t0 :: (ts0 ++ [tl]) ++ [t] = (t0 :: ts0) ++ [tl; t])
        by (cbn; by rewrite <- app_assoc).
      rewrite E in Hp. apply paced_app_r in Hp. apply paced_cons in Hp as [Hg _].
      split; [done|]. split; [|done].
      clear -Hpl. revert t0 Hpl. induction ts0 as [|a ts0 IH]; intros t0 Hpl.
      + change (paced (LOAD st + 1) [t0; tl] = true) in Hpl.
        apply paced_cons in Hpl as [? _]. lia.
      + change ((a :: ts0) ++ [tl]) with (a :: ts0 ++ [tl]) in *.
        apply paced_cons in Hpl as [? Hpl]. specialize (IH _ Hpl). lia. }
  split; [lia|]. split; [lia|].
  unfold delay_us, delay_ticks. rewrite (u32_small (nus * fac_us st)) by lia.
  cbn [map app]. rewrite map_app, <- app_assoc. cbn [map app].
  replace 0 with (t0 - t0) at 1 by lia.
  rewrite delay_us_loop_skip; try done; try lia.
  cbn [delay_us_loop].
  pose proof (delay_gap st phase (List.last ts1 t0) (t - List.last ts1 t0)
                (List.last ts1 t0 - t0)) as Hgap.
  replace (List.last ts1 t0 + (t - List.last ts1 t0)) with t in Hgap by lia.
  rewrite Hgap by (destruct Hlast as [[? ?]|[-> ?]]; cbn; lia). clear Hgap.
  replace (List.last ts1 t0 - t0 + (t - List.last ts1 t0)) with (t - t0) by lia.
  assert (Hw : u32 (t - t0) = t - t0 - 4294967296).
  { unfold u32. change (2 ^ 32) with 4294967296.
    replace (t - t0) with ((t - t0 - 4294967296) + 1 * 4294967296) at 1 by lia.
    rewrite Z.mod_add by lia. apply Z.mod_small.
    destruct Hlast as [[? ?]|[-> ?]]; cbn in *; lia. }
  rewrite Hw.
  destruct (Z.leb_spec (nus * fac_us st) (t - t0 - 4294967296)); [|done].
  destruct Hlast as [[? ?]|[-> ?]]; cbn in *; lia.
Qed.

(** X21: the loop cannot tell a read that returns the value of the read
    before it from a whole counter period: it adds [LOAD + 1] to the count,
    so a delay of up to one period ends on the spot. *)
Theorem delay_us_equal_reads st nus v rest :
  0 ≤ LOAD st < 16777216 → 0 ≤ v ≤ LOAD st →
  delay_ticks st nus ≤ LOAD st + 1 →
  delay_us st nus (v :: v :: rest) = Some rest.
Proof.
  intros HL Hv Hticks. unfold delay_us. cbn [delay_us_loop].
  rewrite Z.ltb_irrefl.
  rewrite (u32_small (LOAD st + 1)) by lia.
  rewrite (u32_small (LOAD st + 1 - v)) by lia.
  rewrite (u32_small (LOAD st + 1 - v + v)) by lia.
  rewrite u32_small by lia.
  destruct (Z.leb_spec (delay_ticks st nus) (0 + (LOAD st + 1 - v + v))); [done|lia].
Qed.

Lemma delay_ms_loop_clock st phase : ∀ n ts,
  0 ≤ LOAD st < 16777216 → 0 ≤ fac_us st →
  1000 * fac_us st + (LOAD st + 1) ≤ 4294967296 →
  paced (LOAD st + 1) ts = true →
  delay_ms_loop st n (map (systick_val st phase) ts)
    = map (systick_val st phase) <$> wait_ms (1000 * fac_us st) n ts.
Proof.
  induction n as [|n IH]; intros ts HL Hf Hsum Hp; [done|].
  cbn [delay_ms_loop wait_ms].
  destruct ts as [|t0 ts]; [done|].
  rewrite delay_us_clock by (try done; lia).
  destruct (wait_until (1000 * fac_us st) t0 ts) as [ts''|] eqn:Hw; [|done].
  cbn [fmap option_fmap option_map].
  apply IH; try done.
  apply wait_until_inv in Hw as (ts1 & t & -> & _).
  change (t0 :: ts1 ++ t :: ts'') with ((t0 :: ts1 ++ [t]) ++ ts'') in Hp
    || (replace (t0 :: ts1 ++ t :: ts'') with ((t0 :: ts1 ++ [t]) ++ ts'') in Hp
          by (cbn; by rewrite <- app_assoc)).
  by apply paced_app_r in Hp.
Qed.

Lemma paced_first_last R : ∀ ts t0 tl,
  paced R (t0 :: ts ++ [tl]) = true → 0 < tl - t0.
Proof.
  induction ts as [|a ts IH]; intros t0 tl Hp.
  - change (paced R [t0; tl] = true) in Hp. apply paced_cons in Hp as [? _]. lia.
  - change (paced R (t0 :: a :: ts ++ [tl]) = true) in Hp.
    apply paced_cons in Hp as [? Hp]. specialize (IH _ _ Hp). lia.
Qed.

Lemma wait_ms_elapsed R T : ∀ n ts ts',
  paced R ts = true → wait_ms T (S n) ts = Some ts' →
  ∃ t0 mid tl, ts = t0 :: mid ++ tl :: ts' ∧ Z.of_nat (S n) * T ≤ tl - t0.
Proof.
  induction n as [|n IH]; intros ts ts' Hp Hw.
  - cbn [wait_ms] in Hw. destruct ts as [|t0 ts]; [done|].
    destruct (wait_until T t0 ts) as [ts''|] eqn:Hu; [|done]. injection Hw as ->.
    apply wait_until_inv in Hu as (ts1 & t & -> & _ & Hge).
    exists t0, ts1, t. split; [done|lia].
  - change (wait_ms T (S (S n)) ts)
      with (match ts with
            | [] => None
            | t0 :: ts0 => match wait_until T t0 ts0 with
                           | Some ts'' => wait_ms T (S n) ts''
                           | None => None
                           end
            end) in Hw.
    destruct ts as [|t0 ts]; [done|].
    destruct (wait_until T t0 ts) as [ts''|] eqn:Hu; [|done].
    apply wait_until_inv in Hu as (ts1 & t & -> & _ & Hge).
    assert (Hp2 : paced R (t :: ts'') = true).
    { replace (t0 :: ts1 ++ t :: ts'') with ((t0 :: ts1) ++ t :: ts'') in Hp by done.
      by apply paced_app_r in Hp. }
    assert (Hp3 : paced R ts'' = true).
    { change (t :: ts'') with ([t] ++ ts'') in Hp2. by apply paced_app_r in Hp2. }
    destruct (IH ts'' ts' Hp3 Hw) as (t0' & mid & tl & -> & Hel).
    apply paced_cons in Hp2 as [Hg _].
    exists t0, (ts1 ++ t :: t0' :: mid), tl. split.
    + by rewrite <- app_assoc.
    + lia.
Qed.

(** X22: [delay_ms] is never short: when it returns, at least
    [nms * 1000 * fac_us] clocks lie between the first and the last read of
    the counter it made. *)
Theorem delay_ms_never_short st phase nms ts vals' :
  0 ≤ LOAD st < 16777216 → 0 ≤ fac_us st →
  1000 * fac_us st + (LOAD st + 1) ≤ 4294967296 →
  paced (LOAD st + 1) ts = true →
  0 < nms < 65536 →
  delay_ms st nms (map (systick_val st phase) ts) = Some vals' →
  ∃ t0 mid tl ts', ts = t0 :: mid ++ tl :: ts' ∧
    vals' = map (systick_val st phase) ts' ∧
    nms * (1000 * fac_us st) ≤ tl - t0.
Proof.
  intros HL Hf Hsum Hp Hn Hd. unfold delay_ms in Hd.
  rewrite u16_small in Hd by lia.
  rewrite delay_ms_loop_clock in Hd by done.
  destruct (wait_ms (1000 * fac_us st) (Z.to_nat nms) ts) as [ts'|] eqn:Hw; [|done].
  injection Hd as <-.
  destruct (Z.to_nat nms) as [|n] eqn:Hk; [lia|].
  destruct (wait_ms_elapsed _ _ _ _ _ Hp Hw) as (t0 & mid & tl & -> & Hel).
  exists t0, mid, tl, ts'. split_and!; [done|done|]. rewrite <- Hk in Hel. lia.
Qed.

Lemma wait_until_reached R T : ∀ ts t0 tL,
  0 < R → 0 ≤ T →
  paced R (t0 :: ts) = true → List.last ts t0 = tL → T ≤ tL - t0 → ts ≠ [] →
  ∃ ts1 t ts2, ts = ts1 ++ t :: ts2 ∧ wait_until T t0 ts = Some ts2 ∧
    T ≤ t - t0 ≤ T + R.
Proof.
  intros ts t0 tL HR HT Hp HL Hge Hne.
  assert (Hgen : ∀ ts tp, paced R (tp :: ts) = true → tp - t0 ≤ T → ts ≠ [] →
            T ≤ List.last ts tp - t0 →
            ∃ ts1 t ts2, ts = ts1 ++ t :: ts2 ∧ wait_until T t0 ts = Some ts2 ∧
              T ≤ t - t0 ≤ T + R).
  { clear. induction ts as [|a ts IH]; intros tp Hp Hprev Hne Hlast; [done|].
    apply paced_cons in Hp as [Hg Hp]. cbn [wait_until].
    destruct (Z.leb_spec T (a - t0)).
    - exists [], a, ts. split_and!; [done|done|lia|lia].
    - destruct ts as [|b ts]; [cbn in Hlast; lia|].
      destruct (IH a Hp ltac:(lia) ltac:(done)) as (ts1 & t & ts2 & E & Hw & Hb).
      { by rewrite last_cons_head in Hlast. }
      exists (a :: ts1), t, ts2. split_and!; [by rewrite E | done | lia | lia]. }
  apply (Hgen ts t0); try done; [lia|by rewrite HL].
Qed.

Lemma wait_ms_returns R T : ∀ n ts t0 tL,
  0 < R → 0 ≤ T →
  paced R (t0 :: ts) = true → List.last ts t0 = tL →
  Z.of_nat n * (T + 2 * R) ≤ tL - t0 →
  ∃ ts', wait_ms T n (t0 :: ts) = Some ts'.
Proof.
  induction n as [|n IH]; intros ts t0 tL HR HT Hp HL Hge; [by eexists|].
  cbn [wait_ms].
  destruct (decide (ts = [])) as [->|Hne]; [cbn in HL; nia|].
  destruct (wait_until_reached R T ts t0 tL) as (ts1 & t & ts2 & -> & Hw & Hb);
    try done; [nia|].
  rewrite Hw.
  destruct n as [|n]; [by eexists|].
  destruct ts2 as [|t0' ts2].
  - rewrite last_last in HL. subst tL. nia.
  - assert (Hp2 : paced R (t :: t0' :: ts2) = true).
    { replace (t0 :: ts1 ++ t :: t0' :: ts2) with ((t0 :: ts1) ++ t :: t0' :: ts2) in Hp by done.
      by apply paced_app_r in Hp. }
    apply paced_cons in Hp2 as [Hg Hp2].
    apply (IH ts2 t0' tL); try done.
    + rewrite <- HL. change (t :: t0' :: ts2) with ([t] ++ t0' :: ts2).
      by rewrite app_assoc, last_app_cons.
    + nia.
Qed.

(** X23: [delay_ms] returns: reads of the counter paced within one period
    that go on for [nms] times a millisecond and two periods are enough for
    all its loops to break. *)
Theorem delay_ms_returns st phase nms t0 ts :
  0 ≤ LOAD st < 16777216 → 0 ≤ fac_us st →
  1000 * fac_us st + (LOAD st + 1) ≤ 4294967296 →
  paced (LOAD st + 1) (t0 :: ts) = true →
  0 ≤ nms < 65536 →
  nms * (1000 * fac_us st + 2 * (LOAD st + 1)) ≤ List.last ts t0 - t0 →
  ∃ vals', delay_ms st nms (map (systick_val st phase) (t0 :: ts)) = Some vals'.
Proof.
  intros HL Hf Hsum Hp Hn Hlong. unfold delay_ms.
  rewrite u16_small by lia.
  rewrite delay_ms_loop_clock by done.
  destruct (wait_ms_returns (LOAD st + 1) (1000 * fac_us st) (Z.to_nat nms) ts t0
              (List.last ts t0)) as [ts' Hw]; try done; try lia.
  rewrite Hw. by eexists.
Qed.

(** X24: for every core clock of 1 MHz or more, [delay_init] makes the
    counter period exactly 1000 times [fac_us], one millisecond, and
    [fac_us] the clocks in one microsecond. *)
Theorem delay_init_period f :
  1000000 ≤ f < 4294967296 →
  fac_us (delay_init f) = f / 1000000 ∧
  LOAD (delay_init f) + 1 = 1000 * fac_us (delay_init f) ∧
  0 ≤ LOAD (delay_init f) < 16777216.
Proof.
  intros Hf. unfold delay_init. cbn [fac_us LOAD].
  assert (1 ≤ f / 1000000 ≤ 4294).
  { split; [apply Z.div_le_lower_bound; lia|].
    apply Z.lt_succ_r. apply Z.div_lt_upper_bound; lia. }
  rewrite (u16_small (f / 1000000)) by lia.
  rewrite (u32_small (f / 1000000)) by lia.
  rewrite (u32_small (f / 1000000 * 1000)) by lia.
  rewrite (u32_small (f / 1000000 * 1000 - 1)) by lia.
  change 16777215 with (Z.ones 24). rewrite Z.land_ones by lia.
  change (2 ^ 24) with 16777216.
  rewrite Z.mod_small by lia. lia.
Qed.

(** X25: at 600 MHz the product [nus * fac_us] fits 32 bits exactly for the
    delays up to 7158278 microseconds that the header comment allows, and
    for none above. *)
Theorem delay_us_limit nus :
  0 ≤ nus < 4294967296 →
  delay_ticks (delay_init 600000000) nus = nus * 600 ↔ nus ≤ 7158278.
Proof.
  intros Hn. unfold delay_ticks.
  change (fac_us (delay_init 600000000)) with 600.
  unfold u32. change (2 ^ 32) with 4294967296. split.
  - intros H. pose proof (Z.mod_pos_bound (nus * 600) 4294967296 ltac:(lia)). lia.
  - intros H. apply Z.mod_small. lia.
Qed.

(** ** Examples *)

Lemma delay_init_period_witness :
  fac_us (delay_init 600000000) = 600000000 / 1000000 ∧
  LOAD (delay_init 600000000) + 1 = 1000 * fac_us (delay_init 600000000) ∧
  0 ≤ LOAD (delay_init 600000000) < 16777216.
Proof. apply (delay_init_period 600000000). lia. Defined.

Lemma delay_us_waits_witness :
  delay_us systick_600 1 (map (systick_val systick_600 0) (0 :: [200; 400] ++ 700 :: [900]))
    = Some (map (systick_val systick_600 0) [900]) ∧
  delay_us systick_600 1 (map (systick_val systick_600 0) (0 :: [200; 400])) = None.
Proof.
  apply (delay_us_waits systick_600 0 1 0 [200; 400] 700 [900]).
  - vm_compute. split; [discriminate|reflexivity].
  - vm_compute. discriminate.
  - vm_compute. discriminate.
  - vm_compute; reflexivity.
  - vm_compute; reflexivity.
  - vm_compute. discriminate.
Defined.

Lemma delay_us_count_wraps_witness :
  7158278 * fac_us systick_600 ≤ 4295400000 - 0 ∧
  4295400000 - 0 - 4294967296 < 7158278 * fac_us systick_600 ∧
  delay_us systick_600 7158278
      (map (systick_val systick_600 0) (0 :: reads_from 1 (Z.to_nat 7158) ++ [4295400000]) ++ [])
    = delay_us_loop (u32 (LOAD systick_600 + 1)) (7158278 * fac_us systick_600)
        (systick_val systick_600 0 4295400000) (4295400000 - 0 - 4294967296) [].
Proof.
  apply (delay_us_count_wraps systick_600 0 7158278 0 (reads_from 1 (Z.to_nat 7158)) 4295400000 []).
  - vm_compute. split; [discriminate|reflexivity].
  - vm_compute. split; [discriminate|reflexivity].
  - vm_compute; reflexivity.
  - vm_compute; reflexivity.
  - vm_compute. discriminate.
Defined.

Lemma delay_us_equal_reads_witness :
  delay_us systick_600 1000 [5; 5; 4] = Some [4].
Proof.
  apply (delay_us_equal_reads systick_600 1000 5 [4]).
  - vm_compute. split; [discriminate|reflexivity].
  - vm_compute. split; discriminate.
  - vm_compute. discriminate.
Defined.

Lemma delay_ms_never_short_witness :
  ∃ t0 mid tl ts', reads_from 0 6 = t0 :: mid ++ tl :: ts' ∧
    [599999; 599999] = map (systick_val systick_600 0) ts' ∧
    2 * (1000 * fac_us systick_600) ≤ tl - t0.
Proof.
  apply (delay_ms_never_short systick_600 0 2 (reads_from 0 6) [599999; 599999]).
  - vm_compute. split; [discriminate|reflexivity].
  - vm_compute. discriminate.
  - vm_compute. discriminate.
  - vm_compute; reflexivity.
  - lia.
  - vm_compute; reflexivity.
Defined.

Lemma delay_ms_returns_witness :
  ∃ vals', delay_ms systick_600 2 (map (systick_val systick_600 0) (0 :: reads_from 1 6))
           = Some vals'.
Proof.
  apply (delay_ms_returns systick_600 0 2 0 (reads_from 1 6)).
  - vm_compute. split; [discriminate|reflexivity].
  - vm_compute. discriminate.
  - vm_compute. discriminate.
  - vm_compute; reflexivity.
  - lia.
  - vm_compute. discriminate.
Defined.

Lemma delay_us_limit_witness :
  delay_ticks (delay_init 600000000) 7158279 = 7158279 * 600 ↔ 7158279 ≤ 7158278.
Proof. apply (delay_us_limit 7158279). lia. Defined.

(** * Memory protection *)

Ltac unfold_mpu :=
  unfold mpu_lookup, mpu_memory_protection, mpu_set_protection,
    MPU_REGION_SIZE_32KB, MPU_REGION_SIZE_64KB, MPU_REGION_SIZE_128KB,
    MPU_REGION_SIZE_256KB, MPU_REGION_SIZE_512KB, MPU_REGION_SIZE_32MB,
    MPU_INSTRUCTION_EXEC_PERMIT, MPU_INSTRUCTION_EXEC_NOT_PERMIT,
    MPU_TEX_TYPE0, MPU_TEX_TYPE1, MPU_AP_FULL_ACCESS,
    MPU_ACCESS_SHAREABLE, MPU_ACCESS_NON_SHAREABLE, MPU_ACCESS_CACHEABLE,
    MPU_ACCESS_NON_CACHEABLE, MPU_ACCESS_BUFFERABLE, MPU_ACCESS_NON_BUFFERABLE in *.

(** The regions [mpu_memory_protection] leaves enabled. *)
Lemma mpu_memory_protection_regions m :
  let m' := mpu_memory_protection m in
  mpu_on m' = true ∧
  regions m' 0 = Some (mk_mpu_region 0 15 0 0 3 0 1 1) ∧
  regions m' 1 = Some (mk_mpu_region 536870912 16 0 0 3 0 1 1) ∧
  regions m' 2 = Some (mk_mpu_region 603979776 18 0 0 3 1 1 0) ∧
  regions m' 3 = Some (mk_mpu_region 604504064 17 0 0 3 1 1 0) ∧
  regions m' 4 = Some (mk_mpu_region 604700672 15 0 0 3 1 1 0) ∧
  regions m' 5 = Some (mk_mpu_region 805306368 14 0 1 3 1 0 0) ∧
  regions m' 6 = Some (mk_mpu_region 3221225472 24 1 0 3 0 1 0) ∧
  ∀ n, ¬ (0 ≤ n ≤ 6) → regions m' n = regions m n.
Proof.
  unfold_mpu. cbn [snd mpu_on regions].
  repeat match goal with |- context [u32 ?x] =>
    progress change (u32 x) with x end.
  repeat match goal with |- context [u8 ?x] =>
    progress change (u8 x) with x end.
  cbn zeta. split_and!; fn_simpl; try done.
  intros n Hn. by fn_simpl.
Qed.

Lemma region_covers_spec r a :
  region_base_address r mod region_bytes r = 0 →
  region_covers r a = true
    ↔ region_base_address r ≤ a < region_base_address r + region_bytes r.
Proof.
  intros H. unfold region_covers. rewrite H, Z.sub_0_r.
  rewrite andb_true_iff, Z.leb_le, Z.ltb_lt. done.
Qed.

(** X26: every region [mpu_memory_protection] programs starts on a multiple
    of its size, so the unit reads the base addresses as written; the unit
    ends up switched on, and regions 7 and above are left as they were. *)
Theorem mpu_regions_aligned m n r :
  regions (mpu_memory_protection m) n = Some r → 0 ≤ n ≤ 6 →
  region_base_address r mod region_bytes r = 0 ∧
  access_permission r = MPU_AP_FULL_ACCESS ∧
  mpu_on (mpu_memory_protection m) = true.
Proof.
  intros Hr Hn.
  destruct (mpu_memory_protection_regions m)
    as (Hon & H0 & H1 & H2 & H3 & H4 & H5 & H6 & _).
  assert (n = 0 ∨ n = 1 ∨ n = 2 ∨ n = 3 ∨ n = 4 ∨ n = 5 ∨ n = 6) as Hc by lia.
  destruct Hc as [->|[->|[->|[->|[->|[->| ->]]]]]];
    match goal with
    | H : regions _ ?k = Some ?x, H' : regions _ ?k = Some ?y |- _ =>
        rewrite H in H'; injection H' as <-
    end; done.
Qed.

Lemma region_covers_true r a :
  region_base_address r mod region_bytes r = 0 →
  region_base_address r ≤ a < region_base_address r + region_bytes r →
  region_covers r a = true.
Proof. intros H Ha. by apply region_covers_spec. Qed.

Lemma region_covers_false r a :
  region_base_address r mod region_bytes r = 0 →
  a < region_base_address r ∨ region_base_address r + region_bytes r ≤ a →
  region_covers r a = false.
Proof.
  intros H Ha. destruct (region_covers r a) eqn:E; [|done].
  apply region_covers_spec in E; [lia|done].
Qed.

Lemma region_hit_none m k a : regions m k = None → region_hit m k a = false.
Proof. unfold region_hit. by intros ->. Qed.

Lemma region_hit_some m k r a :
  regions m k = Some r → region_hit m k a = region_covers r a.
Proof. unfold region_hit. by intros ->. Qed.

Lemma mpu_lookup_below_S m n a :
  mpu_lookup_below m (S n) a
    = if region_hit m (Z.of_nat n) a
      then pair (Z.of_nat n) <$> regions m (Z.of_nat n)
      else mpu_lookup_below m n a.
Proof. reflexivity. Qed.

Lemma mpu_lookup_below_miss m n a :
  regions m (Z.of_nat n) = None →
  mpu_lookup_below m (S n) a = mpu_lookup_below m n a.
Proof. intros H. by rewrite mpu_lookup_below_S, (region_hit_none _ _ _ H). Qed.

Lemma mpu_lookup_below_at m n r a :
  regions m (Z.of_nat n) = Some r →
  mpu_lookup_below m (S n) a
    = if region_covers r a then Some (Z.of_nat n, r) else mpu_lookup_below m n a.
Proof. intros H. by rewrite mpu_lookup_below_S, (region_hit_some _ _ _ _ H), H. Qed.

(** The lookup after [mpu_memory_protection], region by region from the
    highest number. *)
Lemma mpu_lookup_chain a :
  mpu_lookup (mpu_memory_protection mpu_reset) a =
    if region_covers (mk_mpu_region 3221225472 24 1 0 3 0 1 0) a
    then Some (6, mk_mpu_region 3221225472 24 1 0 3 0 1 0)
    else if region_covers (mk_mpu_region 805306368 14 0 1 3 1 0 0) a
    then Some (5, mk_mpu_region 805306368 14 0 1 3 1 0 0)
    else if region_covers (mk_mpu_region 604700672 15 0 0 3 1 1 0) a
    then Some (4, mk_mpu_region 604700672 15 0 0 3 1 1 0)
    else if region_covers (mk_mpu_region 604504064 17 0 0 3 1 1 0) a
    then Some (3, mk_mpu_region 604504064 17 0 0 3 1 1 0)
    else if region_covers (mk_mpu_region 603979776 18 0 0 3 1 1 0) a
    then Some (2, mk_mpu_region 603979776 18 0 0 3 1 1 0)
    else if region_covers (mk_mpu_region 536870912 16 0 0 3 0 1 1) a
    then Some (1, mk_mpu_region 536870912 16 0 0 3 0 1 1)
    else if region_covers (mk_mpu_region 0 15 0 0 3 0 1 1) a
    then Some (0, mk_mpu_region 0 15 0 0 3 0 1 1)
    else None.
Proof.
  destruct (mpu_memory_protection_regions mpu_reset)
    as (Hon & H0 & H1 & H2 & H3 & H4 & H5 & H6 & Hrest).
  assert (Hnone : ∀ k, (7 ≤ k)%nat →
            regions (mpu_memory_protection mpu_reset) (Z.of_nat k) = None).
  { intros k Hk. rewrite Hrest by lia. reflexivity. }
  unfold mpu_lookup. rewrite Hon.
  do 9 (rewrite mpu_lookup_below_miss by (apply Hnone; lia)).
  rewrite (mpu_lookup_below_at _ 6 _ _ H6), (mpu_lookup_below_at _ 5 _ _ H5),
    (mpu_lookup_below_at _ 4 _ _ H4), (mpu_lookup_below_at _ 3 _ _ H3),
    (mpu_lookup_below_at _ 2 _ _ H2), (mpu_lookup_below_at _ 1 _ _ H1),
    (mpu_lookup_below_at _ 0 _ _ H0).
  reflexivity.
Qed.

Ltac region_side :=
  unfold region_bytes; cbn [region_base_address region_size];
  repeat match goal with |- context [2 ^ ?x] =>
    let v := eval vm_compute in (2 ^ x) in progress change (2 ^ x) with v end;
  first [reflexivity | lia].

Ltac region_miss :=
  rewrite (region_covers_false _ _) by region_side.
Ltac region_meet :=
  rewrite (region_covers_true _ _) by region_side.

(** X27: of the 832 KB of AXI SRAM from 0x24000000 that the three regions 2,
    3 and 4 are meant to protect, they reach only the first 768 KB: region
    4 starts at 0x240B0000, inside region 3, and the last 64 KB from
    0x240C0000 are in no region. *)
Theorem mpu_axi_sram_cover a :
  603979776 ≤ a < 603979776 + 832 * 1024 →
  (a < 604504064 →
   fst <$> mpu_lookup (mpu_memory_protection mpu_reset) a = Some 2) ∧
  (604504064 ≤ a < 604700672 →
   fst <$> mpu_lookup (mpu_memory_protection mpu_reset) a = Some 3) ∧
  (604700672 ≤ a < 604766208 →
   fst <$> mpu_lookup (mpu_memory_protection mpu_reset) a = Some 4) ∧
  (604766208 ≤ a → mpu_lookup (mpu_memory_protection mpu_reset) a = None).
Proof.
  intros Ha. rewrite mpu_lookup_chain. split_and!; intros.
  - do 4 region_miss. region_meet. done.
  - do 3 region_miss. region_meet. done.
  - do 2 region_miss. region_meet. done.
  - do 7 region_miss. done.
Qed.

(** X28: whatever address a region of [mpu_memory_protection] decides, the
    access is full, and instruction fetch is refused exactly in the SDRAM
    region from 0xC0000000; non-cacheable is exactly the region from
    0x30000000. *)
Theorem mpu_region_attributes a n r :
  mpu_lookup (mpu_memory_protection mpu_reset) a = Some (n, r) →
  0 ≤ n ≤ 6 ∧
  access_permission r = MPU_AP_FULL_ACCESS ∧
  (instruction_exec r = MPU_INSTRUCTION_EXEC_NOT_PERMIT
     ↔ 3221225472 ≤ a < 3221225472 + 32 * 1024 * 1024) ∧
  (access_cacheable r = MPU_ACCESS_NON_CACHEABLE
     ↔ 805306368 ≤ a < 805306368 + 32 * 1024).
Proof.
  rewrite mpu_lookup_chain.
  repeat match goal with
    | |- context [region_covers ?x a] =>
        let E := fresh "E" in
        destruct (region_covers x a) eqn:E;
        [apply region_covers_spec in E; [|reflexivity]
        |assert (¬ (region_base_address x ≤ a < region_base_address x + region_bytes x))
           by (intros ?%region_covers_spec; [congruence|reflexivity]); clear E]
    end;
    intros [=]; subst; unfold_mpu;
    unfold region_bytes in *; cbn [region_base_address region_size] in *;
    repeat match goal with H : context [2 ^ ?x] |- _ =>
      let v := eval vm_compute in (2 ^ x) in progress change (2 ^ x) with v in H end;
    cbn [access_permission instruction_exec access_cacheable];
    (split_and!; [lia | lia | done | split; intros; first [lia | done] ..]).
Qed.

(** ** Examples *)

Lemma mpu_regions_aligned_witness :
  region_base_address (mk_mpu_region 604700672 15 0 0 3 1 1 0)
    mod region_bytes (mk_mpu_region 604700672 15 0 0 3 1 1 0) = 0 ∧
  access_permission (mk_mpu_region 604700672 15 0 0 3 1 1 0) = MPU_AP_FULL_ACCESS ∧
  mpu_on (mpu_memory_protection mpu_reset) = true.
Proof.
  apply (mpu_regions_aligned mpu_reset 4 (mk_mpu_region 604700672 15 0 0 3 1 1 0)).
  - vm_compute; reflexivity.
  - lia.
Defined.

Lemma mpu_axi_sram_cover_witness :
  mpu_lookup (mpu_memory_protection mpu_reset) 604766208 = None.
Proof.
  destruct (mpu_axi_sram_cover 604766208) as (_ & _ & _ & H).
  - lia.
  - apply H. lia.
Defined.

Lemma mpu_region_attributes_witness :
  0 ≤ 6 ≤ 6 ∧
  access_permission (mk_mpu_region 3221225472 24 1 0 3 0 1 0) = MPU_AP_FULL_ACCESS ∧
  (instruction_exec (mk_mpu_region 3221225472 24 1 0 3 0 1 0)
     = MPU_INSTRUCTION_EXEC_NOT_PERMIT
     ↔ 3221225472 ≤ 3221225472 < 3221225472 + 32 * 1024 * 1024) ∧
  (access_cacheable (mk_mpu_region 3221225472 24 1 0 3 0 1 0) = MPU_ACCESS_NON_CACHEABLE
     ↔ 805306368 ≤ 3221225472 < 805306368 + 32 * 1024).
Proof.
  apply (mpu_region_attributes 3221225472 6 (mk_mpu_region 3221225472 24 1 0 3 0 1 0)).
  vm_compute; reflexivity.
Defined.
